(** * N2G [cli_isis_data]: graph assembly and link pairing

    A shallow embedding of [N2G/plugins/data/cli_isis_data.py] and the
    properties of its graph builder, link packer, enrichment lookup and
    drawing-sink adapter.

    Python dictionaries whose iteration order is never observed by the
    program (links, nodes, lookup rows) are [gmap]s; the two top-level
    dictionaries [nodes_dict] and [links_dict], which the program iterates
    over, are insertion-ordered association lists.  Link dictionaries are
    mutable objects shared between [links_dict] and [graph_dict["links"]],
    so they live in a heap and the lists hold addresses. *)

From Stdlib Require Import String Ascii OrdersEx Sorted Permutation.
From stdpp Require Import gmap strings list fin_maps.

Open Scope string_scope.

(** ** Exceptions and the result monad *)

Inductive exn : Type :=
  | KeyError (key : string)
  | TypeError
  | ValueError
  | AttributeError
  | RuntimeError
  | OSError
  | CsvError
  | UnicodeDecodeError.

Inductive result (A : Type) : Type :=
  | Ok (a : A)
  | Raise (e : exn).
Arguments Ok {A} a.
Arguments Raise {A} e.

Definition bind {A B : Type} (m : result A) (f : A -> result B) : result B :=
  match m with
  | Ok a => f a
  | Raise e => Raise e
  end.

Notation "'let*' x ':=' m 'in' k" := (bind m (fun x => k))
  (at level 10, x name, m at level 100, k at level 200, only parsing).
Notation "'let*' ' p ':=' m 'in' k" :=
  (bind m (fun x => match x with p => k end))
  (at level 10, p pattern, m at level 100, k at level 200, only parsing).

Definition is_ok {A} (r : result A) : bool :=
  match r with Ok _ => true | Raise _ => false end.

(** ** Values stored in dictionaries: a [str] or [None] *)

Inductive value : Type :=
  | VNone
  | VStr (s : string).

#[global] Instance value_eq_dec : EqDecision value.
Proof. solve_decision. Defined.

#[global] Instance value_countable : Countable value.
Proof.
  refine (inj_countable'
            (fun v => match v with VNone => None | VStr s => Some s end)
            (fun o => match o with None => VNone | Some s => VStr s end) _).
  intros []; reflexivity.
Defined.

(** [bool(v)]: [None] and the empty string are falsy. *)
Definition truthy (v : value) : bool :=
  match v with
  | VNone => false
  | VStr s => negb (String.eqb s "")
  end.

(** ["{}".format(v)] *)
Definition format_value (v : value) : string :=
  match v with
  | VNone => "None"
  | VStr s => s
  end.

(** [d.get(k)] for a raw record field that is present or absent. *)
Definition opt_value (o : option string) : value :=
  match o with
  | Some s => VStr s
  | None => VNone
  end.

(** [d[k]] *)
Definition getitem (d : gmap string value) (k : string) : result value :=
  match d !! k with
  | Some v => Ok v
  | None => Raise (KeyError k)
  end.

(** [d.pop(k)] *)
Definition dict_pop (d : gmap string value) (k : string)
  : result (value * gmap string value) :=
  match d !! k with
  | Some v => Ok (v, delete k d)
  | None => Raise (KeyError k)
  end.

(** [d.get(k)] *)
Definition dict_get (d : gmap string value) (k : string) : value :=
  default VNone (d !! k).

(** ** String helpers *)

(** [s.split(sep)] for a one-character separator. *)
Fixpoint split_on (sep : ascii) (s : string) : list string :=
  match s with
  | EmptyString => [EmptyString]
  | String c s' =>
      if Ascii.eqb c sep then EmptyString :: split_on sep s'
      else match split_on sep s' with
           | [] => [String c EmptyString]
           | p :: ps => String c p :: ps
           end
  end.

(** [a, b = v.split(":")] *)
Definition split2 (v : value) : result (string * string) :=
  match v with
  | VNone => Raise AttributeError
  | VStr s =>
      match split_on ":" s with
      | [a; b] => Ok (a, b)
      | _ => Raise ValueError
      end
  end.

(** [s.count(c)] for a one-character needle. *)
Fixpoint count_char (c : ascii) (s : string) : nat :=
  match s with
  | EmptyString => 0
  | String c' s' => (if Ascii.eqb c' c then 1 else 0) + count_char c s'
  end.

(** [s.replace(old, new)] for a non-empty [old]: [skip] characters of a
    match that was just replaced are dropped before scanning resumes. *)
Fixpoint replace_from (skip : nat) (old new s : string) : string :=
  match s with
  | EmptyString => EmptyString
  | String c s' =>
      match skip with
      | S n => replace_from n old new s'
      | O =>
          if String.prefix old s
          then new ++ replace_from (String.length old - 1) old new s'
          else String c (replace_from 0 old new s')
      end
  end.

Definition str_replace (old new s : string) : string :=
  replace_from 0 old new s.

(** ["{}:{}".format(a, b)] *)
Definition fmt2 (a b : string) : string := a ++ ":" ++ b.

(** ["{}:{}:{}".format(a, b, c)] *)
Definition fmt3 (a b c : string) : string := a ++ ":" ++ b ++ ":" ++ c.

(** ** [sorted] on strings *)

Fixpoint insert_sorted (x : string) (l : list string) : list string :=
  match l with
  | [] => [x]
  | y :: l' =>
      if String.leb x y then x :: y :: l' else y :: insert_sorted x l'
  end.

Definition sorted_strings (l : list string) : list string :=
  foldr insert_sorted [] l.

(** Comparing [None] with anything raises [TypeError]; the three-element
    lists sorted here always compare every element. *)
Definition str_of_value (v : value) : result string :=
  match v with
  | VStr s => Ok s
  | VNone => Raise TypeError
  end.

(** ** Insertion-ordered dictionaries *)

Module PyDict.
Section ops.
Context {K V : Type} `{EqDecision K}.

Fixpoint get (k : K) (d : list (K * V)) : option V :=
match d with
| [] => None
| (k', v) :: d' => if decide (k = k') then Some v else get k d'
end.

(** [d[k] = v]: an existing key keeps its position. *)
Fixpoint set (k : K) (v : V) (d : list (K * V)) : list (K * V) :=
match d with
| [] => [(k, v)]
| (k', v') :: d' =>
    if decide (k = k') then (k, v) :: d' else (k', v') :: set k v d'
end.

(** [d.setdefault(k, v)] *)
Definition setdefault (k : K) (v : V) (d : list (K * V)) : list (K * V) :=
match get k d with
| Some _ => d
| None => (d ++ [(k, v)])%list
end.

Definition keys (d : list (K * V)) : list K := d.*1.
Definition values (d : list (K * V)) : list V := d.*2.
End ops.
End PyDict.

(** ** Parsed records: the schema produced by the template parser *)

Record adjacency : Type := {
  adj_local_ip : option string;
  adj_local_intf_id : option string;
  adj_peer_ip : option string;
  adj_peer_intf_id : option string;
  adj_metric : string;
  adj_peer_name : string
}.

Record network : Type := {
  net_network : string;
  net_metric : string
}.

Record lsp : Type := {
  lsp_hostname : string;
  lsp_rid : string;
  lsp_level : string;
  lsp_links : list adjacency;
  lsp_networks : list network
}.

(** The items of [device.get("isis_processes", {})]: process id and the
    list under its ["LSP"] key. *)
Definition device : Type := list (string * list lsp).

(** ** Plugin state *)

Record config : Type := {
  add_connected : bool;
  ptp_filter : list string;
  add_data : bool;
  ip_lookup_data : gmap value (gmap string value)
}.

Record state : Type := {
  heap : gmap nat (gmap string value);
  next_loc : nat;
  nodes_dict : list (value * gmap string value);
  links_dict : list (list string * list nat);
  graph_nodes : list (gmap string value);
  graph_links : list nat
}.

Definition init_state : state :=
  {| heap := ∅; next_loc := 0; nodes_dict := []; links_dict := [];
     graph_nodes := []; graph_links := [] |}.

Definition set_heap (hp : gmap nat (gmap string value)) (st : state) : state :=
  {| heap := hp; next_loc := next_loc st; nodes_dict := nodes_dict st;
     links_dict := links_dict st; graph_nodes := graph_nodes st;
     graph_links := graph_links st |}.

Definition set_nodes_dict (nd : list (value * gmap string value)) (st : state)
  : state :=
  {| heap := heap st; next_loc := next_loc st; nodes_dict := nd;
     links_dict := links_dict st; graph_nodes := graph_nodes st;
     graph_links := graph_links st |}.

Definition set_links_dict (ld : list (list string * list nat)) (st : state)
  : state :=
  {| heap := heap st; next_loc := next_loc st; nodes_dict := nodes_dict st;
     links_dict := ld; graph_nodes := graph_nodes st;
     graph_links := graph_links st |}.

(** A dictionary literal creates a fresh object. *)
Definition alloc (link : gmap string value) (st : state) : nat * state :=
  (next_loc st,
   {| heap := <[next_loc st := link]> (heap st); next_loc := S (next_loc st);
      nodes_dict := nodes_dict st; links_dict := links_dict st;
      graph_nodes := graph_nodes st; graph_links := graph_links st |}).

(** The object at an address; addresses are never freed. *)
Definition deref (st : state) (l : nat) : gmap string value := heap st !!! l.

Definition write (l : nat) (link : gmap string value) (st : state) : state :=
  set_heap (<[l := link]> (heap st)) st.

(** ** [_make_hash_tuple] *)

Definition _make_hash_tuple (data : gmap string value) : result (list string) :=
  let* s := getitem data "source" in
  let* t := getitem data "target" in
  let l := default (VStr "") (data !! "label") in
  let* s' := str_of_value s in
  let* t' := str_of_value t in
  let* l' := str_of_value l in
  Ok (sorted_strings [s'; t'; l']).

(** ** The plugin, over the library functions it calls

    [fnmatchcase] is [fnmatch.fnmatchcase]; [jval] is the type of decoded
    JSON values, a JSON object being a [gmap string jval]; [json_dumps] and
    [json_loads] are the [json] functions at the arguments the plugin uses;
    [adj_json pid link] is the dictionary [{"isis_pid": pid, **link}] of a
    raw adjacency and [dumps_lsp] is [json.dumps] of a whole LSP record. *)

Section plugin.
Variable fnmatchcase : string -> string -> bool.
Variable jval : Type.
Variable json_dumps : gmap string jval -> string.
Variable json_loads : string -> result (gmap string jval).
Variable adj_json : string -> adjacency -> jval.
Variable dumps_lsp : lsp -> string.

Variable cfg : config.

(** [json.loads(link["description"])] *)
Definition loads_description (link : gmap string value)
  : result (gmap string jval) :=
  let* d := getitem link "description" in
  match d with
  | VNone => Raise TypeError
  | VStr s => json_loads s
  end.

(** *** [_add_node] *)

(** [for key, value in node.items(): if not key in stored: stored[key] = value] *)
Definition fill_missing (node stored : gmap string value)
  : gmap string value :=
  map_fold (fun key v acc =>
              match acc !! key with
              | None => <[key := v]> acc
              | Some _ => acc
              end) stored node.

Definition _add_node (node : gmap string value) (node_data : option lsp)
    (st : state) : result state :=
  let* id := getitem node "id" in
  match PyDict.get id (nodes_dict st) with
  | None =>
      let node' :=
        match node_data with
        | Some d =>
            if add_data cfg
            then <["description" := VStr (dumps_lsp d)]> node
            else node
        | None => node
        end in
      Ok (set_nodes_dict (PyDict.set id node' (nodes_dict st)) st)
  | Some stored_node =>
      let stored1 := fill_missing node stored_node in
      let stored2 :=
        match stored1 !! "description", node_data with
        | None, Some d =>
            if add_data cfg
            then <["description" := VStr (dumps_lsp d)]> stored1
            else stored1
        | _, _ => stored1
        end in
      Ok (set_nodes_dict (PyDict.set id stored2 (nodes_dict st)) st)
  end.

(** *** [_add_link]

    [link] is the address of the link object; [link_data] is [None] for
    the default [{}]. *)

(** [link in links]: some element is equal to the object at [l]. *)
Definition link_in (st : state) (l : nat) (links : list nat) : bool :=
  existsb (fun l' => bool_decide (deref st l' = deref st l)) links.

Definition _add_link (l : nat) (link_data : option (gmap string jval))
    (st : state) : result state :=
  let* link_hash := _make_hash_tuple (deref st l) in
  let st1 :=
    set_links_dict (PyDict.setdefault link_hash [] (links_dict st)) st in
  let group := default [] (PyDict.get link_hash (links_dict st1)) in
  if link_in st1 l group then Ok st1
  else
    let st2 :=
      match link_data with
      | Some d =>
          if bool_decide (d ≠ ∅) && add_data cfg
          then write l (<["description" := VStr (json_dumps d)]> (deref st1 l)) st1
          else st1
      | None => st1
      end in
    Ok (set_links_dict
          (PyDict.set link_hash (group ++ [l])%list (links_dict st2)) st2).

(** *** [_process_lsp] *)

Definition router_node (r : lsp) : gmap string value :=
  <["id" := VStr (lsp_hostname r)]>
  (<["label" := VStr (lsp_hostname r)]>
  (<["bottom_label" := VStr "Node"]>
  (<["top_label" := VStr (lsp_rid r)]> ∅))).

(** [any([fnmatchcase(link.get("local_ip", ""), p) for p in self.ptp_filter])] *)
Definition filtered (a : adjacency) : bool :=
  existsb (fnmatchcase (default "" (adj_local_ip a))) (ptp_filter cfg).

(** [link.get("local_ip", link.get("local_intf_id"))] *)
Definition local_end (a : adjacency) : value :=
  match adj_local_ip a with
  | Some ip => VStr ip
  | None => opt_value (adj_local_intf_id a)
  end.

Definition adjacency_link (r : lsp) (isis_pid : string) (a : adjacency)
  : gmap string value :=
  <["source" := VStr (lsp_hostname r)]>
  (<["src_label" := VStr (fmt2 (format_value (local_end a)) (adj_metric a))]>
  (<["label" := VStr (fmt2 isis_pid (str_replace "Level-" "L" (lsp_level r)))]>
  (<["target" := VStr (adj_peer_name a)]>
  (<["local_intf_id" := opt_value (adj_local_intf_id a)]>
  (<["peer_intf_id" := opt_value (adj_peer_intf_id a)]>
  (<["peer_ip" := opt_value (adj_peer_ip a)]>
  (<["local_ip" := opt_value (adj_local_ip a)]> ∅))))))).

(** [{lsp["hostname"]: {"isis_pid": isis_pid, **link}}] *)
Definition adjacency_data (r : lsp) (isis_pid : string) (a : adjacency)
  : gmap string jval :=
  {[ lsp_hostname r := adj_json isis_pid a ]}.

Definition subnet_node (n : network) : gmap string value :=
  <["id" := VStr (net_network n)]>
  (<["label" := VStr (net_network n)]>
  (<["bottom_label" := VStr "Subnet"]> ∅)).

Definition subnet_link (r : lsp) (n : network) : gmap string value :=
  <["source" := VStr (lsp_hostname r)]>
  (<["src_label" := VStr (fmt2 "M" (net_metric n))]>
  (<["label" := VStr (lsp_level r)]>
  (<["target" := VStr (net_network n)]> ∅))).

(** The body of [for link in lsp.get("links", [])]. *)
Definition process_adjacency (r : lsp) (isis_pid : string) (a : adjacency)
    (st : state) : result state :=
  if filtered a then Ok st
  else
    let '(l, st1) := alloc (adjacency_link r isis_pid a) st in
    _add_link l (Some (adjacency_data r isis_pid a)) st1.

(** The body of [for network in lsp.get("networks", [])]. *)
Definition process_network (r : lsp) (n : network) (st : state)
  : result state :=
  let* st1 := _add_node (subnet_node n) None st in
  let '(l, st2) := alloc (subnet_link r n) st1 in
  _add_link l None st2.

(** A [for] loop whose body may raise. *)
Fixpoint for_each {A : Type} (body : A -> state -> result state)
    (xs : list A) (st : state) : result state :=
  match xs with
  | [] => Ok st
  | x :: xs' => let* st' := body x st in for_each body xs' st'
  end.

Definition _process_lsp (r : lsp) (isis_pid : string) (st : state)
  : result state :=
  let* st1 := _add_node (router_node r) (Some r) st in
  let* st2 := for_each (process_adjacency r isis_pid) (lsp_links r) st1 in
  if add_connected cfg
  then for_each (process_network r) (lsp_networks r) st2
  else Ok st2.

(** *** [_form_base_graph_dict] *)

Definition process_isis (p : string * list lsp) (st : state) : result state :=
  for_each (fun r => _process_lsp r p.1) p.2 st.

Definition process_device (d : device) (st : state) : result state :=
  for_each process_isis d st.

Definition _form_base_graph_dict (parsed_data : list device) (st : state)
  : result state :=
  for_each process_device parsed_data st.

(** *** [_pack_links] *)

(** [links.pop()]: the remaining list and its former last element. *)
Fixpoint list_pop {A : Type} (l : list A) : option (list A * A) :=
  match l with
  | [] => None
  | x :: l' =>
      match list_pop l' with
      | None => Some ([], x)
      | Some (r, y) => Some (x :: r, y)
      end
  end.

(** [links.index(x)], with the equality test as a predicate. *)
Fixpoint index_where {A : Type} (p : A -> bool) (l : list A) : option nat :=
  match l with
  | [] => None
  | x :: l' => if p x then Some 0 else S <$> index_where p l'
  end.

(** The four [link.pop(...)] calls, in source order. *)
Definition pop_correlation (link : gmap string value)
  : result (value * value * value * value * gmap string value) :=
  let* '(local_intf_id, link1) := dict_pop link "local_intf_id" in
  let* '(peer_intf_id, link2) := dict_pop link1 "peer_intf_id" in
  let* '(peer_ip, link3) := dict_pop link2 "peer_ip" in
  let* '(local_ip, link4) := dict_pop link3 "local_ip" in
  Ok (local_intf_id, peer_intf_id, peer_ip, local_ip, link4).

(** [link_2[peer_key] == local and link_2[local_key] == peer] *)
Definition is_pair (peer_key local_key : string) (local peer : value)
    (link_2 : gmap string value) : result bool :=
  let* a := getitem link_2 peer_key in
  if bool_decide (a = local)
  then let* b := getitem link_2 local_key in Ok (bool_decide (b = peer))
  else Ok false.

(** [for link_2 in links: if ...]: the first element of the pool that
    satisfies the test, if any.  Nothing is written before the test
    succeeds. *)
Fixpoint find_pair (st : state) (peer_key local_key : string)
    (local peer : value) (links : list nat) : result (option nat) :=
  match links with
  | [] => Ok None
  | l2 :: links' =>
      let* m := is_pair peer_key local_key local peer (deref st l2) in
      if m then Ok (Some l2)
      else find_pair st peer_key local_key local peer links'
  end.

(** The label formed when the two labels differ. *)
Definition merge_label (label label_2 : value) : result string :=
  let* '(pid_1, level_1) := split2 label in
  let* '(pid_2, level_2) := split2 label_2 in
  Ok (fmt2 (if bool_decide (pid_1 = pid_2) then pid_1
            else pid_1 ++ "-" ++ pid_2) level_1).

(** The body of [if (...)] inside the scan, up to [break]: the candidate
    [l] takes its partner's [src_label], is added to the output under the
    merged description, gets its label rewritten, and the position of the
    partner in the pool is returned. *)
Definition merge_pair (l l2 : nat) (links : list nat) (st : state)
  : result (state * nat) :=
  let* src_label_2 := getitem (deref st l2) "src_label" in
  let st1 := write l (<["trgt_label" := src_label_2]> (deref st l)) st in
  let* d1 := loads_description (deref st1 l) in
  let* d2 := loads_description (deref st1 l2) in
  let* st2 := _add_link l (Some (d2 ∪ d1)) st1 in
  let* label := getitem (deref st2 l) "label" in
  let* label_2 := getitem (deref st2 l2) "label" in
  let* st3 := (if bool_decide (label ≠ label_2)
         then let* new_label := merge_label label label_2 in
              Ok (write l (<["label" := VStr new_label]> (deref st2 l)) st2)
         else Ok st2) in
  match index_where (fun x => bool_decide (deref st3 x = deref st3 l2)) links with
  | Some i => Ok (st3, i)
  | None => Raise ValueError
  end.

(** One of the two correlation branches: scan, and merge on a match. *)
Definition try_pair (peer_key local_key : string) (local peer : value)
    (l : nat) (links : list nat) (st : state)
  : result (state * option nat) :=
  let* found := find_pair st peer_key local_key local peer links in
  match found with
  | Some l2 => let* '(st', i) := merge_pair l l2 links st in Ok (st', Some i)
  | None => Ok (st, None)
  end.

(** The body of [while links]. *)
Definition pack_candidate (l : nat) (links : list nat) (st : state)
  : result (state * list nat) :=
  let* '(local_intf_id, peer_intf_id, peer_ip, local_ip, link) :=
    pop_correlation (deref st l) in
  let st1 := write l link st in
  let* '(st2, pair_link_index) :=
    (if truthy local_intf_id && truthy peer_intf_id
     then try_pair "peer_intf_id" "local_intf_id"
                   local_intf_id peer_intf_id l links st1
     else if truthy local_ip && truthy peer_ip
     then try_pair "peer_ip" "local_ip" local_ip peer_ip l links st1
     else Ok (st1, None)) in
  match pair_link_index with
  | Some i => Ok (st2, delete i links)
  | None => let* st3 := _add_link l None st2 in Ok (st3, links)
  end.

(** [while links: ...]; every iteration shortens the pool, so [fuel]
    equal to its length is enough. *)
Fixpoint pack_loop (fuel : nat) (links : list nat) (st : state)
  : result state :=
  match fuel with
  | O => Ok st
  | S fuel' =>
      match list_pop links with
      | None => Ok st
      | Some (links', l) =>
          let* '(st', links'') := pack_candidate l links' st in
          pack_loop fuel' links'' st'
      end
  end.

(** The body of [for hash in self.links_dict.keys()]. *)
Definition pack_group (hash : list string) (st : state) : result state :=
  match PyDict.get hash (links_dict st) with
  | None => Raise (KeyError "hash")
  | Some links =>
      if (length links <=? 1)%nat then Ok st
      else pack_loop (length links) links
             (set_links_dict (PyDict.set hash [] (links_dict st)) st)
  end.

(** Iteration over the keys; inserting a new key while iterating makes
    the dictionary iterator raise [RuntimeError] on its next step. *)
Fixpoint for_keys (size : nat) (hashes : list (list string)) (st : state)
  : result state :=
  match hashes with
  | [] => Ok st
  | hash :: hashes' =>
      let* st' := pack_group hash st in
      if (length (links_dict st') =? size)%nat then for_keys size hashes' st'
      else Raise RuntimeError
  end.

Definition _pack_links (st : state) : result state :=
  for_keys (length (links_dict st)) (PyDict.keys (links_dict st)) st.

(** *** [_lookup_rid] *)

Definition rid_keys : list string := ["top_label"; "bottom_label"; "label"].

Definition lookup_rid_node (node : gmap string value)
  : result (gmap string value) :=
  let* node_ip := getitem node "top_label" in
  match ip_lookup_data cfg !! node_ip with
  | Some row =>
      Ok (filter (fun kv => kv.1 ∈ rid_keys) row ∪ node)
  | None => Ok node
  end.

Fixpoint lookup_rid_nodes (nd : list (value * gmap string value))
  : result (list (value * gmap string value)) :=
  match nd with
  | [] => Ok []
  | (id, node) :: nd' =>
      let* node' := lookup_rid_node node in
      let* rest := lookup_rid_nodes nd' in
      Ok ((id, node') :: rest)
  end.

Definition _lookup_rid (st : state) : result state :=
  let* nd := lookup_rid_nodes (nodes_dict st) in
  Ok (set_nodes_dict nd st).

(** *** [_lookup_ip_interfaces] *)

(** [self.ip_lookup_data.get(ip, {}).get("interface")], when truthy. *)
Definition interface_of (ip : string) : option string :=
  match ip_lookup_data cfg !! VStr ip with
  | Some row =>
      match row !! "interface" with
      | Some (VStr i) => if String.eqb i "" then None else Some i
      | _ => None
      end
  | None => None
  end.

(** The part of the loop body under [# modify target label]. *)
Definition lookup_trgt_label (link : gmap string value)
  : result (gmap string value) :=
  if truthy (dict_get link "trgt_label")
  then
    let* trgt_label := getitem link "trgt_label" in
    let* '(link_trgt_ip, link_trgt_metric) := split2 trgt_label in
    if negb (count_char "." link_trgt_ip =? 3)%nat then Ok link
    else match interface_of link_trgt_ip with
         | Some i =>
             Ok (<["trgt_label" :=
                     VStr (fmt3 i link_trgt_ip link_trgt_metric)]> link)
         | None => Ok link
         end
  else Ok link.

(** The whole loop body; a [continue] under [# modify source label]
    leaves the body, so the target label is not visited. *)
Definition lookup_link (link : gmap string value)
  : result (gmap string value) :=
  if truthy (dict_get link "src_label")
  then
    let* src_label := getitem link "src_label" in
    let* '(link_src_ip, link_src_metric) := split2 src_label in
    if negb (count_char "." link_src_ip =? 3)%nat then Ok link
    else
      lookup_trgt_label
        match interface_of link_src_ip with
        | Some i =>
            <["src_label" := VStr (fmt3 i link_src_ip link_src_metric)]> link
        | None => link
        end
  else lookup_trgt_label link.

Definition lookup_link_at (l : nat) (st : state) : result state :=
  let* link := lookup_link (deref st l) in
  Ok (write l link st).

Definition _lookup_ip_interfaces (st : state) : result state :=
  for_each (for_each lookup_link_at) (PyDict.values (links_dict st)) st.

(** *** [_update_drawing]

    The state after the call holds [graph_dict] as it is handed to
    [drawing.from_dict]. *)
Definition _update_drawing (st : state) : state :=
  {| heap := heap st; next_loc := next_loc st;
     nodes_dict := nodes_dict st; links_dict := links_dict st;
     graph_nodes := PyDict.values (nodes_dict st);
     graph_links :=
       (graph_links st ++ concat (PyDict.values (links_dict st)))%list |}.

(** *** [work], from the parser's result on *)
Definition work (parsed_data : list device) (st : state) : result state :=
  let* st1 := _form_base_graph_dict parsed_data st in
  let* st2 := _pack_links st1 in
  let* st3 := (if bool_decide (ip_lookup_data cfg ≠ ∅)
         then let* st' := _lookup_rid st2 in _lookup_ip_interfaces st'
         else Ok st2) in
  Ok (_update_drawing st3).

End plugin.

(** ** [_load_ip_lookup_data]

    The file system is a function from paths to what [open] and the
    iteration of [csv.reader] over the file give: [None] when [open]
    fails, the error when reading the records raises one on the way
    ([csv.Error], [UnicodeDecodeError]), and the records otherwise.  The
    dictionary is built in full before it is assigned, so an error at any
    record leaves nothing loaded.  [dict_reader] is [csv.DictReader]: the
    first record gives the field names, blank records are skipped, short
    records are padded with [None].  The surplus fields of a long record
    go under the key [None], which no string key reads, and are left
    out. *)

Inductive lookup_arg : Type :=
  | LookupDict (table : gmap value (gmap string value))
  | LookupPath (path : string).

Definition dict_row (fieldnames row : list string) : gmap string value :=
  let d := foldl (fun d kv => <[kv.1 := VStr kv.2]> d) ∅ (zip fieldnames row) in
  foldl (fun d key => <[key := VNone]> d) d (drop (length row) fieldnames).

Definition dict_reader (records : list (list string))
  : list (gmap string value) :=
  match records with
  | [] => []
  | fieldnames :: body =>
      dict_row fieldnames <$> filter (fun row => row ≠ []) body
  end.

(** [{r["ip"]: r for r in reader if "ip" in r}] *)
Definition rows_by_ip (rows : list (gmap string value))
  : gmap value (gmap string value) :=
  foldl (fun table r =>
           match r !! "ip" with
           | Some ip => <[ip := r]> table
           | None => table
           end) ∅ rows.

(** The value of [self.ip_lookup_data] after the constructor; an empty
    path string is falsy, stays as it is and behaves as the empty table. *)
Definition _load_ip_lookup_data
    (open_csv : string -> option (result (list (list string))))
    (arg : lookup_arg) : result (gmap value (gmap string value)) :=
  match arg with
  | LookupDict table => Ok table
  | LookupPath path =>
      if String.eqb path "" then Ok ∅
      else match open_csv path with
           | None => Raise OSError
           | Some reader =>
               let* records := reader in
               Ok (rows_by_ip (dict_reader records))
           end
  end.

(** ** A small instance of the library functions, for the examples

    [glob_match] covers patterns made of literal characters, [?] and [*];
    [toy_dumps] and [toy_loads] serialise an object of strings as
    [key=value;] entries. *)

Fixpoint glob_chars (fuel : nat) (pat name : list ascii) : bool :=
  match fuel with
  | O => false
  | S fuel' =>
      match pat, name with
      | [], [] => true
      | [], _ :: _ => false
      | "*"%char :: pat', [] => glob_chars fuel' pat' []
      | "*"%char :: pat', _ :: name' =>
          glob_chars fuel' pat' name || glob_chars fuel' pat name'
      | "?"%char :: pat', _ :: name' => glob_chars fuel' pat' name'
      | c :: pat', c' :: name' =>
          Ascii.eqb c c' && glob_chars fuel' pat' name'
      | _ :: _, [] => false
      end
  end.

Definition glob_match (name pat : string) : bool :=
  glob_chars (S (String.length pat + String.length name))
    (list_ascii_of_string pat) (list_ascii_of_string name).

Definition toy_dumps (d : gmap string string) : string :=
  foldr (fun kv acc => kv.1 ++ "=" ++ kv.2 ++ ";" ++ acc) "" (map_to_list d).

Definition toy_loads (s : string) : result (gmap string string) :=
  foldr (fun entry acc =>
           let* d := acc in
           if String.eqb entry "" then Ok d
           else match split_on "=" entry with
                | [k; v] => Ok (<[k := v]> d)
                | _ => Raise ValueError
                end)
        (Ok ∅) (split_on ";" s).

Definition toy_adj_json (isis_pid : string) (a : adjacency) : string :=
  isis_pid ++ "/" ++ adj_peer_name a ++ "/" ++ adj_metric a.

Definition toy_dumps_lsp (r : lsp) : string :=
  lsp_hostname r ++ "/" ++ lsp_rid r ++ "/" ++ lsp_level r.

Definition default_config : config :=
  {| add_connected := false; ptp_filter := []; add_data := true;
     ip_lookup_data := ∅ |}.

Definition toy_work (cfg : config) : list device -> state -> result state :=
  work glob_match string toy_dumps toy_loads toy_adj_json toy_dumps_lsp cfg.

(** The end-to-end scenario: [R1] and [R2] report each other. *)
Definition adj_R1_R2 : adjacency :=
  {| adj_local_ip := None; adj_local_intf_id := Some "Gi1";
     adj_peer_ip := None; adj_peer_intf_id := Some "Gi2";
     adj_metric := "10"; adj_peer_name := "R2" |}.

Definition adj_R2_R1 : adjacency :=
  {| adj_local_ip := None; adj_local_intf_id := Some "Gi2";
     adj_peer_ip := None; adj_peer_intf_id := Some "Gi1";
     adj_metric := "10"; adj_peer_name := "R1" |}.

Definition lsp_R1 : lsp :=
  {| lsp_hostname := "R1"; lsp_rid := "1.1.1.1"; lsp_level := "Level-2";
     lsp_links := [adj_R1_R2]; lsp_networks := [] |}.

Definition lsp_R2 : lsp :=
  {| lsp_hostname := "R2"; lsp_rid := "2.2.2.2"; lsp_level := "Level-2";
     lsp_links := [adj_R2_R1]; lsp_networks := [] |}.

Definition device_X : device := [("100", [lsp_R1])].
Definition device_Y : device := [("100", [lsp_R2])].

(** The order that [sorted] arranges strings by. *)
Definition le_str (x y : string) : Prop := String.leb x y = true.

(** Two equal link objects, the first already in its group. *)
Definition state_two_equal : state :=
  {| heap := <[1 := adjacency_link lsp_R1 "100" adj_R1_R2]>
             (<[0 := adjacency_link lsp_R1 "100" adj_R1_R2]> ∅);
     next_loc := 2; nodes_dict := [];
     links_dict := [(["100:L2"; "R1"; "R2"], [0])];
     graph_nodes := []; graph_links := [] |}.


(** What the four [pop] calls leave of a link. *)
Definition strip (link : gmap string value) : gmap string value :=
  delete "local_ip" (delete "peer_ip"
    (delete "peer_intf_id" (delete "local_intf_id" link))).

(** A raw link as [_add_link] stores it when descriptions are enabled. *)
Definition toy_link (r : lsp) (isis_pid : string) (a : adjacency)
  : gmap string value :=
  <["description" :=
      VStr (toy_dumps {[ lsp_hostname r := toy_adj_json isis_pid a ]})]>
    (adjacency_link r isis_pid a).

(** Two routers whose hostnames read like labels, so that links of
    different process ids share one group key. *)
Definition adj_A : adjacency :=
  {| adj_local_ip := None; adj_local_intf_id := Some "Gi1";
     adj_peer_ip := None; adj_peer_intf_id := Some "Gi2";
     adj_metric := "10"; adj_peer_name := "R" |}.

Definition adj_B : adjacency :=
  {| adj_local_ip := None; adj_local_intf_id := Some "Gi2";
     adj_peer_ip := None; adj_peer_intf_id := Some "Gi1";
     adj_metric := "20"; adj_peer_name := "R" |}.

Definition lsp_A : lsp :=
  {| lsp_hostname := "200:L1"; lsp_rid := "1.1.1.1"; lsp_level := "Level-1";
     lsp_links := [adj_A]; lsp_networks := [] |}.

Definition lsp_B : lsp :=
  {| lsp_hostname := "100:L1"; lsp_rid := "2.2.2.2"; lsp_level := "Level-1";
     lsp_links := [adj_B]; lsp_networks := [] |}.

Definition parsed_two_pids : list device :=
  [[("200", [lsp_B])]; [("100", [lsp_A])]].

(** The pool holds the link of process 200; the candidate, the link of
    process 100, has been popped and stripped. *)
Definition state_two_pids : state :=
  {| heap := <[1 := strip (toy_link lsp_A "100" adj_A)]>
             (<[0 := toy_link lsp_B "200" adj_B]> ∅);
     next_loc := 2; nodes_dict := [];
     links_dict := [(["100:L1"; "200:L1"; "R"], [])];
     graph_nodes := []; graph_links := [] |}.

Definition toy_try_pair :=
  try_pair string toy_dumps toy_loads default_config.

Definition state_two_pids_merged : state :=
  match toy_try_pair "peer_intf_id" "local_intf_id" (VStr "Gi1") (VStr "Gi2")
          1 [0] state_two_pids with
  | Ok (st', _) => st'
  | Raise _ => state_two_pids
  end.

(** A lookup table that knows the interface of [10.0.0.2], and a packed
    link whose source label is an interface id and whose target label is
    that address. *)
Definition config_with_interface : config :=
  {| add_connected := false; ptp_filter := []; add_data := true;
     ip_lookup_data :=
       {[ VStr "10.0.0.2" :=
            <["hostname" := VStr "R2"]> (<["interface" := VStr "Gi2"]> ∅) ]} |}.

Definition link_intf_to_ip : gmap string value :=
  <["source" := VStr "R1"]> (<["target" := VStr "R2"]>
  (<["label" := VStr "100:L2"]> (<["src_label" := VStr "Gi1:10"]>
  (<["trgt_label" := VStr "10.0.0.2:10"]> ∅)))).

(** [R2] reports its address, [R1] only its interface id. *)
Definition adj_R2_R1_ip : adjacency :=
  {| adj_local_ip := Some "10.0.0.2"; adj_local_intf_id := Some "Gi2";
     adj_peer_ip := None; adj_peer_intf_id := Some "Gi1";
     adj_metric := "10"; adj_peer_name := "R1" |}.

Definition lsp_R2_ip : lsp :=
  {| lsp_hostname := "R2"; lsp_rid := "2.2.2.2"; lsp_level := "Level-2";
     lsp_links := [adj_R2_R1_ip]; lsp_networks := [] |}.

(** The labels of the links handed to the drawing, or [None] when the
    run raised. *)
Definition sent_labels (key : string) (r : result state)
  : option (list (option value)) :=
  match r with
  | Ok st => Some ((fun l => deref st l !! key) <$> graph_links st)
  | Raise _ => None
  end.

(** A lookup file without an [ip] column. *)
Definition csv_without_ip : list (list string) :=
  [["hostname"; "interface"]; ["router-1"; "Gi1"]; ["router-2"; "Gi2"]].

Definition open_csv_without_ip (path : string)
  : option (result (list (list string))) :=
  if String.eqb path "lookup.csv" then Some (Ok csv_without_ip) else None.

(** A lookup file with an [ip] column, a row too short to reach it, a
    blank line, and two rows with the same address; and a file system
    that holds it next to a file whose bytes do not decode. *)
Definition csv_with_ip : list (list string) :=
  [["hostname"; "ip"; "interface"]; ["R1"; "10.0.0.1"; "Gi1"]; ["R2"]; [];
   ["R1b"; "10.0.0.1"; "Gi9"]].

Definition open_csv_with_ip (path : string)
  : option (result (list (list string))) :=
  if String.eqb path "lookup.csv" then Some (Ok csv_with_ip)
  else if String.eqb path "binary.csv" then Some (Raise UnicodeDecodeError)
  else None.

(** None of the four correlation keys is present. *)
Definition stripped (link : gmap string value) : Prop :=
  link !! "local_intf_id" = None /\ link !! "peer_intf_id" = None /\
  link !! "peer_ip" = None /\ link !! "local_ip" = None.

(** The list stored under a group key, empty when the key is absent. *)
Definition group_of (st : state) (hash : list string) : list nat :=
  default [] (PyDict.get hash (links_dict st)).

(** How packing steps relate the state before and after: the graph
    payload, the nodes and the allocator are untouched, a stripped link
    stays stripped, and groups only grow, by stripped links. *)
Definition pack_rel (st st' : state) : Prop :=
  graph_links st' = graph_links st /\
  graph_nodes st' = graph_nodes st /\
  nodes_dict st' = nodes_dict st /\
  next_loc st' = next_loc st /\
  (forall l, stripped (deref st l) -> stripped (deref st' l)) /\
  (forall hash, is_Some (PyDict.get hash (links_dict st)) ->
                is_Some (PyDict.get hash (links_dict st'))) /\
  (forall hash, exists added,
      group_of st' hash = (group_of st hash ++ added)%list /\
      Forall (fun l => stripped (deref st' l)) added).

(** The pipeline stages over the example instance. *)
Definition toy_form (cfg : config) : list device -> state -> result state :=
  _form_base_graph_dict glob_match string toy_dumps toy_adj_json
    toy_dumps_lsp cfg.

Definition toy_pack (cfg : config) : state -> result state :=
  _pack_links string toy_dumps toy_loads cfg.

Definition unwrap (r : result state) : state :=
  match r with
  | Ok st => st
  | Raise _ => init_state
  end.

(** [R1] and [R2] report each other: one group of two raw links. *)
Definition state_R1_R2_raw : state :=
  unwrap (toy_form default_config [device_X; device_Y] init_state).

Definition state_R1_R2_packed : state :=
  unwrap (toy_pack default_config state_R1_R2_raw).

(** Only [R1] reports: one group of one raw link. *)
Definition state_R1_raw : state :=
  unwrap (toy_form default_config [device_X] init_state).

(** The steps before [_update_drawing] leave [graph_dict["links"]] alone. *)
Definition same_graph_links (st st' : state) : Prop :=
  graph_links st' = graph_links st.

(** [work] called twice on one instance. *)
Definition state_work_once : state :=
  unwrap (toy_work default_config [device_X] init_state).

Definition state_work_twice : state :=
  unwrap (toy_work default_config [device_X] state_work_once).

Definition config_no_data : config :=
  {| add_connected := false; ptp_filter := []; add_data := false;
     ip_lookup_data := ∅ |}.

(** ** Node bookkeeping *)

(** The node ids one LSP gives rise to: its hostname and, when connected
    subnets are included, its networks. *)
Definition lsp_ids (cfg : config) (r : lsp) : list value :=
  VStr (lsp_hostname r)
  :: (if add_connected cfg
      then (fun n => VStr (net_network n)) <$> lsp_networks r
      else []).

Definition parsed_ids (cfg : config) (parsed_data : list device) : list value :=
  parsed_data ≫= (fun d => d ≫= (fun p => p.2 ≫= lsp_ids cfg)).

(** [nodes_dict] is keyed without repetition and every node is stored
    under its own [id]. *)
Definition nodes_ok (st : state) : Prop :=
  NoDup (PyDict.keys (nodes_dict st)) /\
  Forall (fun kv => kv.2 !! "id" = Some kv.1) (nodes_dict st).

(** Every attribute a stored node has in [st] it still has, with the same
    value, in [st']. *)
Definition nodes_mono (st st' : state) : Prop :=
  forall id node k v,
    PyDict.get id (nodes_dict st) = Some node -> node !! k = Some v ->
    exists node', PyDict.get id (nodes_dict st') = Some node' /\
                  node' !! k = Some v.

(** The effect of a building step that reports the ids [ids]. *)
Definition node_step (ids : list value) (st st' : state) : Prop :=
  nodes_ok st' /\
  (forall id, id ∈ PyDict.keys (nodes_dict st')
              <-> id ∈ PyDict.keys (nodes_dict st) \/ id ∈ ids) /\
  nodes_mono st st'.

(** A router that reports a connected network named like itself: the
    subnet node is a second sighting of the id ["R1"]. *)
Definition config_connected : config :=
  {| add_connected := true; ptp_filter := []; add_data := true;
     ip_lookup_data := ∅ |}.

Definition lsp_R1_subnet : lsp :=
  {| lsp_hostname := "R1"; lsp_rid := "1.1.1.1"; lsp_level := "Level-2";
     lsp_links := [];
     lsp_networks := [{| net_network := "R1"; net_metric := "5" |};
                      {| net_network := "10.0.0.0/24"; net_metric := "5" |}] |}.

Definition stored_attribute (id key : string) (r : result state)
  : option value :=
  match r with
  | Ok st =>
      match PyDict.get (VStr id) (nodes_dict st) with
      | Some node => node !! key
      | None => None
      end
  | Raise _ => None
  end.

(** ** The links half of the state *)

Definition links_view (st : state)
  : gmap nat (gmap string value) * nat * list (list string * list nat)
    * list nat :=
  (heap st, next_loc st, links_dict st, graph_links st).

(** [st] with other nodes. *)
Definition with_nodes (nd : list (value * gmap string value))
    (gn : list (gmap string value)) (st : state) : state :=
  {| heap := heap st; next_loc := next_loc st; nodes_dict := nd;
     links_dict := links_dict st; graph_nodes := gn;
     graph_links := graph_links st |}.

Definition rmap {A B : Type} (f : A -> B) (r : result A) : result B :=
  match r with
  | Ok a => Ok (f a)
  | Raise e => Raise e
  end.

(** The parsed records without the adjacencies the filter excludes. *)
Definition unfiltered_lsp (fnmatchcase : string -> string -> bool)
    (cfg : config) (r : lsp) : lsp :=
  {| lsp_hostname := lsp_hostname r; lsp_rid := lsp_rid r;
     lsp_level := lsp_level r;
     lsp_links :=
       List.filter (fun a => negb (filtered fnmatchcase cfg a)) (lsp_links r);
     lsp_networks := lsp_networks r |}.

Definition unfiltered (fnmatchcase : string -> string -> bool) (cfg : config)
    (parsed_data : list device) : list device :=
  (fun d : device =>
     (fun p : string * list lsp =>
        (p.1, unfiltered_lsp fnmatchcase cfg <$> p.2)) <$> d)
  <$> parsed_data.

(** A step that neither reads nor writes the nodes. *)
Definition links_only (f : state -> result state) : Prop :=
  forall nd gn st, f (with_nodes nd gn st) = rmap (with_nodes nd gn) (f st).

(** Two steps that both complete and keep the links halves equal. *)
Definition links_agree (f g : state -> result state) : Prop :=
  forall st1 st2, links_view st1 = links_view st2 ->
    exists st1' st2', f st1 = Ok st1' /\ g st2 = Ok st2' /\
                      links_view st1' = links_view st2'.

(** ** Pairing *)

(** The scan the candidate's correlation fields select: by interface ids
    when both are truthy, otherwise by addresses when both are truthy,
    otherwise none. *)
Definition chosen_partner (st : state)
    (local_intf_id peer_intf_id peer_ip local_ip : value) (links : list nat)
  : result (option nat) :=
  if truthy local_intf_id && truthy peer_intf_id
  then find_pair st "peer_intf_id" "local_intf_id"
         local_intf_id peer_intf_id links
  else if truthy local_ip && truthy peer_ip
  then find_pair st "peer_ip" "local_ip" local_ip peer_ip links
  else Ok None.

(** Two links form a valid interface-id pair: each one's local id is the
    other's peer id, and the ids are truthy. *)
Definition intf_pair (x y : gmap string value) : Prop :=
  exists a b,
    x !! "local_intf_id" = Some a /\ x !! "peer_intf_id" = Some b /\
    y !! "local_intf_id" = Some b /\ y !! "peer_intf_id" = Some a /\
    truthy a = true /\ truthy b = true.

(** Exactly one of the three pairs is a valid interface-id pair. *)
Definition one_intf_pair (x y z : gmap string value) : Prop :=
  (intf_pair x y /\ ~ intf_pair x z /\ ~ intf_pair y z) \/
  (~ intf_pair x y /\ intf_pair x z /\ ~ intf_pair y z) \/
  (~ intf_pair x y /\ ~ intf_pair x z /\ intf_pair y z).

(** A raw directional link of the group [hash], as the graph builder
    stores it with descriptions enabled: the four correlation keys, a
    source label, a label of the form [pid:level], a description that
    [json.loads] reads, and no target label yet. *)
Record directional {jval : Type}
    (json_loads : string -> result (gmap string jval))
    (hash : list string) (x : gmap string value) : Prop := {
  dir_hash : _make_hash_tuple x = Ok hash;
  dir_local_intf_id : is_Some (x !! "local_intf_id");
  dir_peer_intf_id : is_Some (x !! "peer_intf_id");
  dir_peer_ip : is_Some (x !! "peer_ip");
  dir_local_ip : is_Some (x !! "local_ip");
  dir_src_label : is_Some (x !! "src_label");
  dir_trgt_label : x !! "trgt_label" = None;
  dir_label : exists pid level,
      x !! "label" = Some (VStr (fmt2 pid level)) /\
      count_char ":" pid = 0 /\ count_char ":" level = 0;
  dir_description : exists s doc,
      x !! "description" = Some (VStr s) /\ json_loads s = Ok doc
}.

(** [R1] reports two adjacencies to [R2], [R2] reports one back: a group
    of three raw links of which the first and the last pair up. *)
Definition adj_R1_R2_second : adjacency :=
  {| adj_local_ip := None; adj_local_intf_id := Some "Gi3";
     adj_peer_ip := None; adj_peer_intf_id := Some "Gi4";
     adj_metric := "10"; adj_peer_name := "R2" |}.

Definition lsp_R1_two : lsp :=
  {| lsp_hostname := "R1"; lsp_rid := "1.1.1.1"; lsp_level := "Level-2";
     lsp_links := [adj_R1_R2; adj_R1_R2_second]; lsp_networks := [] |}.

Definition state_three : state :=
  unwrap (toy_form default_config [[("100", [lsp_R1_two])]; device_Y]
            init_state).

Definition toy_pack_group : list string -> state -> result state :=
  pack_group string toy_dumps toy_loads default_config.

(** The three-link group built without descriptions. *)
Definition state_three_no_data : state :=
  unwrap (toy_form config_no_data [[("100", [lsp_R1_two])]; device_Y]
            init_state).

(** ** Further scenarios *)

(** The candidate has no usable interface ids, and its addresses are the
    partner's addresses mirrored. *)
Definition ip_fallback_pair (candidate partner : gmap string value) : Prop :=
  exists a b c d,
    candidate !! "local_intf_id" = Some a /\
    candidate !! "peer_intf_id" = Some b /\
    candidate !! "peer_ip" = Some c /\
    candidate !! "local_ip" = Some d /\
    truthy a && truthy b = false /\
    truthy d = true /\ truthy c = true /\
    partner !! "peer_ip" = Some d /\ partner !! "local_ip" = Some c.

(** Two routers whose addresses mirror each other. *)
Definition adj_ip (local_ip peer_ip : string) (local_intf peer_intf : option string)
    (peer_name : string) : adjacency :=
  {| adj_local_ip := Some local_ip; adj_local_intf_id := local_intf;
     adj_peer_ip := Some peer_ip; adj_peer_intf_id := peer_intf;
     adj_metric := "10"; adj_peer_name := peer_name |}.

Definition lsp_of (hostname rid : string) (links : list adjacency) : lsp :=
  {| lsp_hostname := hostname; lsp_rid := rid; lsp_level := "Level-2";
     lsp_links := links; lsp_networks := [] |}.

(** Addresses mirror, interface ids are set but do not. *)
Definition parsed_ids_mismatch : list device :=
  [[("100", [lsp_of "R1" "1.1.1.1"
               [adj_ip "10.0.0.1" "10.0.0.2" (Some "Gi1") (Some "Gi9") "R2"]])];
   [("100", [lsp_of "R2" "2.2.2.2"
               [adj_ip "10.0.0.2" "10.0.0.1" (Some "Gi2") (Some "Gi8") "R1"]])]].

(** Addresses mirror, no interface ids. *)
Definition parsed_ip_only : list device :=
  [[("100", [lsp_of "R1" "1.1.1.1"
               [adj_ip "10.0.0.1" "10.0.0.2" None None "R2"]])];
   [("100", [lsp_of "R2" "2.2.2.2"
               [adj_ip "10.0.0.2" "10.0.0.1" None None "R1"]])]].

Definition state_ids_mismatch : state :=
  unwrap (toy_form default_config parsed_ids_mismatch init_state).

Definition state_ip_only : state :=
  unwrap (toy_form default_config parsed_ip_only init_state).


Definition state_three_packed : state :=
  unwrap (toy_pack default_config state_three).

(** A lookup table for the router id of [R1]. *)
Definition config_rid : config :=
  {| add_connected := true; ptp_filter := []; add_data := true;
     ip_lookup_data :=
       {[ VStr "1.1.1.1" :=
            <["hostname" := VStr "router-1"]>
            (<["label" := VStr "router-1"]>
            (<["bottom_label" := VStr "1 St address"]> ∅)) ]} |}.

Definition state_router_only : state :=
  unwrap (toy_form config_rid [device_X] init_state).

Definition state_with_subnet : state :=
  unwrap (toy_form config_rid [[("100", [lsp_R1_subnet])]] init_state).

(** The rewrite of one label ["<ip>:<metric>"] stored under [key]: the
    interface name is put in front when the address part has three dots
    and the lookup table has a non-empty interface for it. *)
Definition enrich_label (cfg : config) (key ip metric : string)
    (link : gmap string value) : gmap string value :=
  if (count_char "." ip =? 3)%nat
  then match interface_of cfg ip with
       | Some i => <[key := VStr (fmt3 i ip metric)]> link
       | None => link
       end
  else link.

Definition link_ip_to_ip : gmap string value :=
  <["src_label" := VStr "10.0.0.2:10"]>
  (<["trgt_label" := VStr "10.0.0.2:20"]> ∅).

Definition link_ip_only : gmap string value :=
  <["src_label" := VStr "10.0.0.2:10"]> ∅.

Definition link_ipv6 : gmap string value :=
  <["src_label" := VStr "2001:db8::1:10"]> ∅.

(** The runs of [while links: ...], with no bound on the number of
    iterations: the loop stops on the empty pool; otherwise it pops the
    candidate and runs the body, and either the body raises, or the loop
    goes on with the pool and the state the body leaves. *)
Inductive loop_run {jval : Type} (json_dumps : gmap string jval -> string)
    (json_loads : string -> result (gmap string jval)) (cfg : config)
  : list nat -> state -> result state -> Prop :=
  | loop_run_done (st : state) :
      loop_run json_dumps json_loads cfg [] st (Ok st)
  | loop_run_raise (links links' : list nat) (l : nat) (st : state) (e : exn) :
      list_pop links = Some (links', l) ->
      pack_candidate jval json_dumps json_loads cfg l links' st = Raise e ->
      loop_run json_dumps json_loads cfg links st (Raise e)
  | loop_run_next (links links' links'' : list nat) (l : nat)
      (st st' : state) (r : result state) :
      list_pop links = Some (links', l) ->
      pack_candidate jval json_dumps json_loads cfg l links' st
      = Ok (st', links'') ->
      loop_run json_dumps json_loads cfg links'' st' r ->
      loop_run json_dumps json_loads cfg links st r.

(** A raw directional link of the group [hash], as the graph builder
    stores it with descriptions disabled ([add_data=False]): the four
    correlation keys and a source label, and no description. *)
Record raw_no_data (hash : list string) (x : gmap string value) : Prop := {
  raw_hash : _make_hash_tuple x = Ok hash;
  raw_local_intf_id : is_Some (x !! "local_intf_id");
  raw_peer_intf_id : is_Some (x !! "peer_intf_id");
  raw_peer_ip : is_Some (x !! "peer_ip");
  raw_local_ip : is_Some (x !! "local_ip");
  raw_src_label : is_Some (x !! "src_label");
  raw_description : x !! "description" = None
}.

(** What stays between calls of [work]: no node id and no group key is
    ever removed from [nodes_dict] and [links_dict]. *)
Definition persists (st st' : state) : Prop :=
  (forall id, is_Some (PyDict.get id (nodes_dict st)) ->
              is_Some (PyDict.get id (nodes_dict st'))) /\
  (forall hash, is_Some (PyDict.get hash (links_dict st)) ->
                is_Some (PyDict.get hash (links_dict st'))).

(** [work] called twice on one instance, without descriptions. *)
Definition state_no_data_once : state :=
  unwrap (toy_work config_no_data [device_X] init_state).

Definition state_no_data_twice : state :=
  unwrap (toy_work config_no_data [device_X] state_no_data_once).

(** [work] called on [R1]'s record, then on [R2]'s; and called twice on
    both records. *)
Definition state_X_then_Y : state :=
  unwrap (toy_work default_config [device_Y] state_work_once).

Definition state_X_Y_once : state :=
  unwrap (toy_work default_config [device_X; device_Y] init_state).
(** * Properties *)

(** ** The order on strings used by [sorted] *)

Lemma string_compare_OT a b : String_as_OT.compare a b = String.compare a b.
Proof. revert b; induction a; destruct b; simpl; auto. Qed.

Lemma leb_iff_not_lt x y : String.leb x y = true <-> ~ String_as_OT.lt y x.
Proof.
  unfold String.leb, String_as_OT.lt.
  rewrite (string_compare_OT y x), (String.compare_antisym x y).
  destruct (String.compare y x); simpl; split; congruence.
Qed.

Lemma leb_refl x : String.leb x x = true.
Proof. destruct (String.leb_total x x); assumption. Qed.

Lemma leb_trans x y z :
  String.leb x y = true -> String.leb y z = true -> String.leb x z = true.
Proof.
  rewrite !leb_iff_not_lt. intros Hyx Hzy Hzx.
  destruct (String_as_OT.compare_spec z y) as [E | Hlt | Hlt].
  - unfold String_as_OT.eq in E. subst. contradiction.
  - contradiction.
  - apply Hyx. eapply (@StrictOrder_Transitive _ _ String_as_OT.lt_strorder); eassumption.
Qed.

Lemma leb_false_le x y : String.leb x y = false -> String.leb y x = true.
Proof. intros H. destruct (String.leb_total x y); congruence. Qed.

Lemma insert_sorted_comm x y l :
  insert_sorted x (insert_sorted y l) = insert_sorted y (insert_sorted x l).
Proof.
  induction l as [| z l IH]; simpl.
  - destruct (String.leb x y) eqn:Hxy, (String.leb y x) eqn:Hyx; try reflexivity.
    + rewrite (String.leb_antisym _ _ Hxy Hyx). reflexivity.
    + apply leb_false_le in Hxy. congruence.
  - destruct (String.leb y z) eqn:Hyz, (String.leb x z) eqn:Hxz; simpl;
      rewrite ?Hyz, ?Hxz;
      destruct (String.leb x y) eqn:Hxy, (String.leb y x) eqn:Hyx;
      try reflexivity;
      try (rewrite (String.leb_antisym _ _ Hxy Hyx); reflexivity);
      try (apply leb_false_le in Hxy; congruence);
      try (rewrite (leb_trans _ _ _ Hxy Hyz) in Hxz; discriminate);
      try (rewrite (leb_trans _ _ _ Hyx Hxz) in Hyz; discriminate).
    rewrite IH. reflexivity.
Qed.

Lemma sorted_strings_perm l1 l2 :
  Permutation l1 l2 -> sorted_strings l1 = sorted_strings l2.
Proof.
  unfold sorted_strings. induction 1; simpl.
  - reflexivity.
  - congruence.
  - apply insert_sorted_comm.
  - congruence.
Qed.

Lemma insert_sorted_perm x l : Permutation (insert_sorted x l) (x :: l).
Proof.
  induction l as [| y l IH]; simpl; [reflexivity |].
  destruct (String.leb x y); [reflexivity |].
  rewrite IH. apply perm_swap.
Qed.

Lemma sorted_strings_is_perm l : Permutation (sorted_strings l) l.
Proof.
  unfold sorted_strings. induction l as [| x l IH]; simpl; [reflexivity |].
  rewrite insert_sorted_perm. by constructor.
Qed.

Lemma insert_sorted_sorted x l :
  StronglySorted le_str l -> StronglySorted le_str (insert_sorted x l).
Proof.
  induction 1 as [| y l Hs IH Hall]; simpl.
  - repeat constructor.
  - destruct (String.leb x y) eqn:Hxy.
    + constructor; [by constructor |].
      constructor; [exact Hxy |].
      eapply Forall_impl; [exact Hall |]. intros z Hz. eapply leb_trans; eauto.
    + constructor; [exact IH |].
      eapply Permutation_Forall; [symmetry; apply insert_sorted_perm |].
      constructor; [by apply leb_false_le | exact Hall].
Qed.

Lemma sorted_strings_sorted l : StronglySorted le_str (sorted_strings l).
Proof.
  unfold sorted_strings.
  induction l; simpl; [constructor | by apply insert_sorted_sorted].
Qed.

(** ** Link group identity *)

Lemma make_hash_tuple_strings (d : gmap string value) (s t : string)
    (l : option string) :
  d !! "source" = Some (VStr s) ->
  d !! "target" = Some (VStr t) ->
  d !! "label" = VStr <$> l ->
  _make_hash_tuple d = Ok (sorted_strings [s; t; default "" l]).
Proof.
  intros Hs Ht Hl. unfold _make_hash_tuple, getitem.
  rewrite Hs, Ht, Hl. destruct l; reflexivity.
Qed.

(** C3. A link from [A] to [B] and a link from [B] to [A] that carry the
    same label, or both carry none, get the same group key; the key is the
    sorted arrangement of source, target and label, the label counting as
    the empty string when absent. *)
Theorem make_hash_tuple_symmetric (d1 d2 : gmap string value) (A B : string)
    (L : option string) :
  d1 !! "source" = Some (VStr A) ->
  d1 !! "target" = Some (VStr B) ->
  d1 !! "label" = VStr <$> L ->
  d2 !! "source" = Some (VStr B) ->
  d2 !! "target" = Some (VStr A) ->
  d2 !! "label" = VStr <$> L ->
  exists key,
    _make_hash_tuple d1 = Ok key /\
    _make_hash_tuple d2 = Ok key /\
    Permutation key [A; B; default "" L] /\
    StronglySorted le_str key.
Proof.
  intros H1s H1t H1l H2s H2t H2l.
  exists (sorted_strings [A; B; default "" L]).
  rewrite (make_hash_tuple_strings d1 A B L) by assumption.
  rewrite (make_hash_tuple_strings d2 B A L) by assumption.
  split; [reflexivity |]. split.
  - f_equal. apply sorted_strings_perm, perm_swap.
  - split; [apply sorted_strings_is_perm | apply sorted_strings_sorted].
Qed.

Lemma make_hash_tuple_symmetric_witness :
  exists key,
    _make_hash_tuple
      (<["source" := VStr "R1"]> (<["target" := VStr "R2"]>
         (<["label" := VStr "100:L2"]> ∅))) = Ok key /\
    _make_hash_tuple
      (<["source" := VStr "R2"]> (<["target" := VStr "R1"]>
         (<["label" := VStr "100:L2"]> ∅))) = Ok key /\
    Permutation key ["R1"; "R2"; "100:L2"] /\
    StronglySorted le_str key.
Proof.
  apply (make_hash_tuple_symmetric _ _ "R1" "R2" (Some "100:L2"));
    reflexivity.
Defined.

(** ** The result monad *)

Lemma bind_ok {A B : Type} (m : result A) (f : A -> result B) (b : B) :
  bind m f = Ok b -> exists a, m = Ok a /\ f a = Ok b.
Proof. destruct m as [a | e]; simpl; [eauto | discriminate]. Qed.

Lemma bind_Ok {A B : Type} (a : A) (f : A -> result B) : bind (Ok a) f = f a.
Proof. reflexivity. Qed.

Ltac bind_inv H :=
  let x := fresh "x" in
  let Hx := fresh "Hx" in
  apply bind_ok in H; destruct H as (x & Hx & H).

Tactic Notation "inv_bind" hyp(H) "as" simple_intropattern(x) ident(Hx) :=
  apply bind_ok in H; destruct H as (x & Hx & H).

Lemma getitem_ok d k v : getitem d k = Ok v <-> d !! k = Some v.
Proof. unfold getitem. destruct (d !! k); split; congruence. Qed.

(** ** The heap *)

Lemma deref_write_eq l link st : deref (write l link st) l = link.
Proof. unfold deref, write; simpl. apply lookup_total_insert_eq. Qed.

Lemma deref_write_ne l l' link st :
  l <> l' -> deref (write l link st) l' = deref st l'.
Proof. intros. unfold deref, write; simpl. by apply lookup_total_insert_ne. Qed.

Lemma deref_write l l' link st :
  deref (write l link st) l' = if decide (l = l') then link else deref st l'.
Proof.
  destruct (decide (l = l')) as [-> | Hne];
    [apply deref_write_eq | by apply deref_write_ne].
Qed.

Lemma deref_set_links_dict ld st l : deref (set_links_dict ld st) l = deref st l.
Proof. reflexivity. Qed.

Lemma set_links_dict_id st : set_links_dict (links_dict st) st = st.
Proof. by destruct st. Qed.

(** ** Insertion-ordered dictionaries *)

Section pydict.
Context {K V : Type} `{EqDecision K}.
Implicit Types (d : list (K * V)) (k : K) (v : V).

Lemma get_set_eq k v d : PyDict.get k (PyDict.set k v d) = Some v.
Proof.
  induction d as [| [k' v'] d IH]; simpl.
  - by rewrite decide_True.
  - destruct (decide (k = k')) as [-> | Hne]; simpl.
    + by rewrite decide_True.
    + by rewrite decide_False.
Qed.

Lemma get_set_ne k k' v d :
  k <> k' -> PyDict.get k' (PyDict.set k v d) = PyDict.get k' d.
Proof.
  intros Hne. induction d as [| [k0 v0] d IH]; simpl.
  - by rewrite decide_False.
  - destruct (decide (k = k0)) as [-> | Hne0]; simpl.
    + by rewrite !decide_False.
    + destruct (decide (k' = k0)); [done | exact IH].
Qed.

Lemma get_app_None k d d' :
  PyDict.get k d = None -> PyDict.get k (d ++ d') = PyDict.get k d'.
Proof.
  induction d as [| [k0 v0] d IH]; simpl; [done |].
  destruct (decide (k = k0)); [done | exact IH].
Qed.

Lemma get_app_Some k v d d' :
  PyDict.get k d = Some v -> PyDict.get k (d ++ d') = Some v.
Proof.
  induction d as [| [k0 v0] d IH]; simpl; [done |].
  destruct (decide (k = k0)); [done | exact IH].
Qed.

Lemma get_setdefault_eq k v d :
  PyDict.get k (PyDict.setdefault k v d)
  = Some (default v (PyDict.get k d)).
Proof.
  unfold PyDict.setdefault.
  destruct (PyDict.get k d) as [v' |] eqn:Hget; simpl; [done |].
  rewrite (get_app_None _ _ _ Hget). simpl. by rewrite decide_True.
Qed.

Lemma get_setdefault_ne k k' v d :
  k <> k' -> PyDict.get k' (PyDict.setdefault k v d) = PyDict.get k' d.
Proof.
  intros Hne. unfold PyDict.setdefault.
  destruct (PyDict.get k d) eqn:Hget; [done |].
  destruct (PyDict.get k' d) as [v' |] eqn:Hget'.
  - by apply get_app_Some.
  - rewrite (get_app_None _ _ _ Hget'). simpl. by rewrite decide_False.
Qed.

Lemma setdefault_present k v v' d :
  PyDict.get k d = Some v' -> PyDict.setdefault k v d = d.
Proof. intros Hget. unfold PyDict.setdefault. by rewrite Hget. Qed.

Lemma keys_set k v d :
  is_Some (PyDict.get k d) -> PyDict.keys (PyDict.set k v d) = PyDict.keys d.
Proof.
  unfold PyDict.keys.
  induction d as [| [k0 v0] d IH]; simpl; intros [x Hx]; [done |].
  destruct (decide (k = k0)) as [-> | Hne]; simpl; [done |].
  f_equal. apply IH. eauto.
Qed.

Lemma length_set k v d :
  is_Some (PyDict.get k d) -> length (PyDict.set k v d) = length d.
Proof.
  induction d as [| [k0 v0] d IH]; simpl; intros [x Hx]; [done |].
  destruct (decide (k = k0)) as [-> | Hne]; simpl; [done |].
  f_equal. apply IH. eauto.
Qed.

Lemma get_Some_elem_of k v d : PyDict.get k d = Some v -> (k, v) ∈ d.
Proof.
  induction d as [| [k0 v0] d IH]; simpl; [done |].
  destruct (decide (k = k0)) as [-> | Hne].
  - intros [= ->]. left.
  - intros Hget. right. by apply IH.
Qed.

Lemma get_is_Some_keys k d : is_Some (PyDict.get k d) <-> k ∈ PyDict.keys d.
Proof.
  unfold PyDict.keys. induction d as [| [k0 v0] d IH]; simpl.
  - split; [intros [? [=]] | by intros ?%elem_of_nil].
  - destruct (decide (k = k0)) as [-> | Hne].
    + split; [intros _; left | eauto].
    + rewrite IH. split; [by right |].
      intros [? | ?]%elem_of_cons; [done | assumption].
Qed.
End pydict.

(** ** [_add_link] *)

Section add_link_facts.
Context (jval : Type) (json_dumps : gmap string jval -> string)
        (cfg : config).

Abbreviation add_link := (_add_link jval json_dumps cfg).

Lemma link_in_true st l links :
  link_in st l links = true
  <-> exists l', l' ∈ links /\ deref st l' = deref st l.
Proof.
  unfold link_in. rewrite existsb_exists. split.
  - intros (l' & Hin & Heq). exists l'. split.
    + by apply list_elem_of_In.
    + by apply bool_decide_eq_true in Heq.
  - intros (l' & Hin & Heq). exists l'. split.
    + by apply list_elem_of_In.
    + by apply bool_decide_eq_true.
Qed.

(** What a successful call does to each component of the state. *)
Lemma add_link_ok l data st st' :
  add_link l data st = Ok st' ->
  exists link_hash,
    _make_hash_tuple (deref st l) = Ok link_hash /\
    nodes_dict st' = nodes_dict st /\
    graph_nodes st' = graph_nodes st /\
    graph_links st' = graph_links st /\
    next_loc st' = next_loc st /\
    (forall l', l' <> l -> deref st' l' = deref st l') /\
    (deref st' l = deref st l \/
     exists s, deref st' l = <["description" := VStr s]> (deref st l)) /\
    let d := PyDict.setdefault link_hash [] (links_dict st) in
    let group := default [] (PyDict.get link_hash (links_dict st)) in
    if link_in st l group
    then links_dict st' = d /\ heap st' = heap st
    else links_dict st' = PyDict.set link_hash (group ++ [l])%list d.
Proof.
  unfold _add_link. intros H. bind_inv H. exists x. split; [exact Hx |].
  cbv zeta in H. simpl links_dict in H.
  rewrite get_setdefault_eq in H. simpl default in H.
  replace (link_in (set_links_dict _ st) l) with (link_in st l) in H
    by reflexivity.
  cbv zeta.
  destruct (link_in st l _) eqn:Hin.
  - injection H as <-. simpl. repeat split; auto.
  - destruct data as [d |]; [destruct (bool_decide (d ≠ ∅) && add_data cfg) |];
      injection H as <-; simpl; repeat split; auto;
      try (intros l' Hne; rewrite deref_set_links_dict;
           by rewrite ?deref_write_ne by done).
    right. eexists. rewrite deref_set_links_dict, deref_write_eq. reflexivity.
Qed.

(** C9. A link object equal to one already in the list of its group is
    not inserted again: the call succeeds and returns the state as it
    was, so the list of the group and its length stay as they were,
    whatever [link_data] is passed. *)
Theorem add_link_idempotent (l : nat) (data : option (gmap string jval))
    (st : state) (link_hash : list string) (group : list nat) (l' : nat) :
  _make_hash_tuple (deref st l) = Ok link_hash ->
  PyDict.get link_hash (links_dict st) = Some group ->
  l' ∈ group ->
  deref st l' = deref st l ->
  add_link l data st = Ok st /\
  forall st', add_link l data st = Ok st' ->
    PyDict.get link_hash (links_dict st') = Some group /\
    length (default [] (PyDict.get link_hash (links_dict st')))
    = length group.
Proof.
  intros Hhash Hget Hin Heq.
  assert (Hcall : add_link l data st = Ok st).
  { unfold _add_link. rewrite Hhash. simpl.
    rewrite (setdefault_present _ _ _ _ Hget), set_links_dict_id, Hget.
    simpl.
    assert (Hl : link_in st l group = true) by (apply link_in_true; eauto).
    by rewrite Hl. }
  split; [exact Hcall |].
  intros st' Hst'. rewrite Hcall in Hst'. injection Hst' as <-.
  by rewrite Hget.
Qed.
End add_link_facts.

Lemma add_link_idempotent_witness :
  _add_link string toy_dumps default_config 1 (Some {["R1" := "x"]})
    state_two_equal = Ok state_two_equal /\
  forall st',
    _add_link string toy_dumps default_config 1 (Some {["R1" := "x"]})
      state_two_equal = Ok st' ->
    PyDict.get ["100:L2"; "R1"; "R2"] (links_dict st') = Some [0] /\
    length (default [] (PyDict.get ["100:L2"; "R1"; "R2"] (links_dict st')))
    = length [0].
Proof.
  apply (add_link_idempotent string toy_dumps default_config 1
           (Some {["R1" := "x"]}) state_two_equal
           ["100:L2"; "R1"; "R2"] [0] 0).
  - vm_compute. reflexivity.
  - reflexivity.
  - apply list_elem_of_here.
  - vm_compute. reflexivity.
Defined.

(** ** Splitting labels *)

Lemma string_app_assoc (a b c : string) : (a ++ b) ++ c = a ++ b ++ c.
Proof.
  induction a as [| x a IH]; [done |].
  change (String x ((a ++ b) ++ c) = String x (a ++ b ++ c)). by f_equal.
Qed.

Lemma split_on_nonempty sep s : split_on sep s <> [].
Proof. destruct s as [| c s]; simpl; [done |]. by repeat case_match. Qed.

Lemma split_on_one sep s b :
  split_on sep s = [b] -> s = b /\ count_char sep b = 0.
Proof.
  revert b. induction s as [| c s IH]; simpl; intros b H.
  - by injection H as <-.
  - destruct (Ascii.eqb c sep) eqn:Hc.
    + injection H as <- H. by apply split_on_nonempty in H.
    + destruct (split_on sep s) as [| p ps] eqn:Hs.
      * by apply split_on_nonempty in Hs.
      * injection H as <- ->. destruct (IH p eq_refl) as [-> Hcount].
        simpl. by rewrite Hc.
Qed.

Lemma split_on_two sep s a b :
  split_on sep s = [a; b] ->
  s = a ++ String sep b /\ count_char sep a = 0 /\ count_char sep b = 0.
Proof.
  revert a. induction s as [| c s IH]; simpl; intros a H; [done |].
  destruct (Ascii.eqb c sep) eqn:Hc.
  - injection H as <- H. apply Ascii.eqb_eq in Hc as ->.
    by apply split_on_one in H as [-> ?].
  - destruct (split_on sep s) as [| p ps] eqn:Hs; [done |].
    injection H as <- ->. destruct (IH p eq_refl) as (-> & Hp & Hb).
    simpl. by rewrite Hc.
Qed.

Lemma split_on_colon_free sep s : count_char sep s = 0 -> split_on sep s = [s].
Proof.
  induction s as [| c s IH]; simpl; [done |].
  destruct (Ascii.eqb c sep); [done |]. intros H. by rewrite IH.
Qed.

Lemma split_on_join sep a b :
  count_char sep a = 0 ->
  split_on sep (a ++ String sep b) = a :: split_on sep b.
Proof.
  induction a as [| c a IH]; simpl.
  - by rewrite Ascii.eqb_refl.
  - destruct (Ascii.eqb c sep); [done |]. intros H. by rewrite IH.
Qed.

Lemma split2_fmt2 a b :
  count_char ":" a = 0 -> count_char ":" b = 0 ->
  split2 (VStr (fmt2 a b)) = Ok (a, b).
Proof.
  intros Ha Hb. unfold split2, fmt2.
  change (":" ++ b) with (String ":" b).
  by rewrite split_on_join, (split_on_colon_free _ b).
Qed.

Lemma split2_ok v a b :
  split2 v = Ok (a, b) ->
  v = VStr (a ++ ":" ++ b) /\ count_char ":" a = 0 /\ count_char ":" b = 0.
Proof.
  destruct v as [| s]; simpl; [done |].
  destruct (split_on ":" s) as [| a' [| b' [| ? ?]]] eqn:Hs; try done.
  intros [= <- <-]. apply split_on_two in Hs as (-> & ? & ?). done.
Qed.

(** ** [_pack_links]: pairing *)

Section pack_facts.
Context (jval : Type) (json_dumps : gmap string jval -> string)
        (json_loads : string -> result (gmap string jval))
        (cfg : config).

Abbreviation add_link := (_add_link jval json_dumps cfg).
Abbreviation merge := (merge_pair jval json_dumps json_loads cfg).
Abbreviation pair_with := (try_pair jval json_dumps json_loads cfg).

Lemma add_link_lookup l data st st' l' k :
  add_link l data st = Ok st' ->
  k <> "description" ->
  deref st' l' !! k = deref st l' !! k.
Proof.
  intros H Hk. apply add_link_ok in H as (h & _ & _ & _ & _ & _ & Hne & Heq & _).
  destruct (decide (l' = l)) as [-> | Hl]; [| by rewrite Hne].
  destruct Heq as [-> | [s ->]]; [done |]. by rewrite lookup_insert_ne.
Qed.

Lemma merge_pair_label l l2 links st st' i :
  merge l l2 links st = Ok (st', i) ->
  exists label label_2,
    deref st l !! "label" = Some label /\
    deref st l2 !! "label" = Some label_2 /\
    (label = label_2 -> deref st' l !! "label" = Some label) /\
    (label <> label_2 ->
     exists pid_1 level_1 pid_2 level_2,
       label = VStr (pid_1 ++ ":" ++ level_1) /\
       label_2 = VStr (pid_2 ++ ":" ++ level_2) /\
       count_char ":" pid_1 = 0 /\ count_char ":" level_1 = 0 /\
       count_char ":" pid_2 = 0 /\ count_char ":" level_2 = 0 /\
       deref st' l !! "label"
       = Some (VStr (if decide (pid_1 = pid_2)
                     then pid_1 ++ ":" ++ level_1
                     else pid_1 ++ "-" ++ pid_2 ++ ":" ++ level_1))).
Proof.
  unfold merge_pair. intros H.
  bind_inv H. rename x into src_label_2.
  bind_inv H. rename x into d1. bind_inv H. rename x into d2.
  bind_inv H. rename x into st2. rename Hx2 into Hadd.
  bind_inv H. rename x into label. rename Hx2 into Hlabel.
  bind_inv H. rename x into label_2. rename Hx2 into Hlabel_2.
  bind_inv H. rename x into st3. rename Hx2 into Hst3.
  destruct (index_where _ links) as [i' |]; [| done].
  injection H as -> ->.
  apply getitem_ok in Hlabel, Hlabel_2.
  rewrite (add_link_lookup _ _ _ _ _ _ Hadd) in Hlabel by done.
  rewrite (add_link_lookup _ _ _ _ _ _ Hadd) in Hlabel_2 by done.
  rewrite deref_write_eq, lookup_insert_ne in Hlabel by done.
  rewrite deref_write in Hlabel_2.
  assert (Hl2 : deref st l2 !! "label" = Some label_2).
  { destruct (decide (l = l2)) as [<- | Hne]; [| done].
    by rewrite lookup_insert_ne in Hlabel_2. }
  assert (Hl1 : deref st l !! "label" = Some label) by done.
  assert (Hl1' : deref st2 l !! "label" = Some label).
  { rewrite (add_link_lookup _ _ _ _ _ _ Hadd) by done.
    by rewrite deref_write_eq, lookup_insert_ne. }
  exists label, label_2. split; [done |]. split; [done |].
  destruct (decide (label = label_2)) as [-> | Hne].
  - rewrite bool_decide_eq_false_2 in Hst3 by (by intros ?).
    injection Hst3 as <-. split; [done | by intros ?].
  - rewrite bool_decide_eq_true_2 in Hst3 by done.
    split; [done |]. intros _.
    bind_inv Hst3. rename x into new_label. injection Hst3 as <-.
    unfold merge_label in Hx2.
    bind_inv Hx2. destruct x as [pid_1 level_1].
    bind_inv Hx2. destruct x as [pid_2 level_2].
    injection Hx2 as <-.
    apply split2_ok in Hx3 as (-> & ? & ?).
    apply split2_ok in Hx4 as (-> & ? & ?).
    exists pid_1, level_1, pid_2, level_2.
    repeat (split; [done |]).
    rewrite deref_write_eq, lookup_insert_eq. unfold fmt2.
    destruct (decide (pid_1 = pid_2)) as [-> | Hp].
    + by rewrite bool_decide_eq_true_2.
    + rewrite bool_decide_eq_false_2 by done.
      by rewrite !string_app_assoc.
Qed.

(** C1. When the scan of one correlation branch finds a partner and the
    merge completes, both links carry a label; if the two labels are
    equal the merged link keeps it, and if they differ each is of the
    form [pid:level] with no further colon, and the merged link's label
    is [pid1:level1] when the pids agree and [pid1-pid2:level1] when they
    do not. *)
Theorem try_pair_label (peer_key local_key : string) (local peer : value)
    (l : nat) (links : list nat) (st st' : state) (i : nat) :
  pair_with peer_key local_key local peer l links st = Ok (st', Some i) ->
  exists l2 label label_2,
    find_pair st peer_key local_key local peer links = Ok (Some l2) /\
    deref st l !! "label" = Some label /\
    deref st l2 !! "label" = Some label_2 /\
    (label = label_2 -> deref st' l !! "label" = Some label) /\
    (label <> label_2 ->
     exists pid_1 level_1 pid_2 level_2,
       label = VStr (pid_1 ++ ":" ++ level_1) /\
       label_2 = VStr (pid_2 ++ ":" ++ level_2) /\
       count_char ":" pid_1 = 0 /\ count_char ":" level_1 = 0 /\
       count_char ":" pid_2 = 0 /\ count_char ":" level_2 = 0 /\
       deref st' l !! "label"
       = Some (VStr (if decide (pid_1 = pid_2)
                     then pid_1 ++ ":" ++ level_1
                     else pid_1 ++ "-" ++ pid_2 ++ ":" ++ level_1))).
Proof.
  unfold try_pair. intros H. bind_inv H.
  destruct x as [l2 |]; [| done].
  bind_inv H. destruct x as [st'' i']. injection H as -> ->.
  apply merge_pair_label in Hx0 as (label & label_2 & ? & ? & ? & ?).
  exists l2, label, label_2. done.
Qed.
End pack_facts.

Lemma try_pair_label_witness :
  exists l2 label label_2,
    find_pair state_two_pids "peer_intf_id" "local_intf_id"
      (VStr "Gi1") (VStr "Gi2") [0] = Ok (Some l2) /\
    deref state_two_pids 1 !! "label" = Some label /\
    deref state_two_pids l2 !! "label" = Some label_2 /\
    (label = label_2 ->
     deref state_two_pids_merged 1 !! "label" = Some label) /\
    (label <> label_2 ->
     exists pid_1 level_1 pid_2 level_2,
       label = VStr (pid_1 ++ ":" ++ level_1) /\
       label_2 = VStr (pid_2 ++ ":" ++ level_2) /\
       count_char ":" pid_1 = 0 /\ count_char ":" level_1 = 0 /\
       count_char ":" pid_2 = 0 /\ count_char ":" level_2 = 0 /\
       deref state_two_pids_merged 1 !! "label"
       = Some (VStr (if decide (pid_1 = pid_2)
                     then pid_1 ++ ":" ++ level_1
                     else pid_1 ++ "-" ++ pid_2 ++ ":" ++ level_1))).
Proof.
  apply (try_pair_label string toy_dumps toy_loads default_config
           "peer_intf_id" "local_intf_id" (VStr "Gi1") (VStr "Gi2")
           1 [0] state_two_pids state_two_pids_merged 0).
  vm_compute. reflexivity.
Defined.

(** The labels ["100:L1"] and ["200:L1"] merge into ["100-200:L1"], and
    a pair of equal labels keeps its label, through the whole pipeline. *)
Example merged_label_two_pids :
  sent_labels "label" (toy_work default_config parsed_two_pids init_state)
  = Some [Some (VStr "100-200:L1")].
Proof. vm_compute. reflexivity. Qed.

Example merged_label_same_pid :
  sent_labels "label"
    (toy_work default_config [device_X; device_Y] init_state)
  = Some [Some (VStr "100:L2")].
Proof. vm_compute. reflexivity. Qed.

(** ** [_lookup_ip_interfaces] *)

(** C6. On a link whose source label holds an interface id and whose
    target label holds an address known to the lookup table, the loop
    body returns the link as it was: the [continue] taken for the source
    label also skips the target label, which the code under
    [# modify target label] would have rewritten. *)
Theorem lookup_link_skips_target_label :
  lookup_link config_with_interface link_intf_to_ip = Ok link_intf_to_ip /\
  lookup_trgt_label config_with_interface link_intf_to_ip
  = Ok (<["trgt_label" := VStr "Gi2:10.0.0.2:10"]> link_intf_to_ip) /\
  sent_labels "trgt_label"
    (toy_work config_with_interface
       [[("100", [lsp_R2_ip])]; device_X] init_state)
  = Some [Some (VStr "10.0.0.2:10")].
Proof. vm_compute. done. Qed.

(** When the source label does look like an address the target label is
    visited and rewritten. *)
Example lookup_link_rewrites_target_label :
  lookup_link config_with_interface
    (<["src_label" := VStr "10.0.0.1:10"]> link_intf_to_ip)
  = Ok (<["trgt_label" := VStr "Gi2:10.0.0.2:10"]>
          (<["src_label" := VStr "10.0.0.1:10"]> link_intf_to_ip)).
Proof. vm_compute. reflexivity. Qed.

(** ** [_load_ip_lookup_data] *)

Lemma foldl_insert_str_None (k : string) (kvs : list (string * string))
    (d : gmap string value) :
  d !! k = None -> k ∉ kvs.*1 ->
  foldl (fun d kv => <[kv.1 := VStr kv.2]> d) d kvs !! k = None.
Proof.
  revert d. induction kvs as [| [k' v] kvs IH]; simpl; intros d Hd Hk; [done |].
  apply IH.
  - rewrite lookup_insert_ne; [done |]. intros ->. apply Hk. left.
  - intros ?. apply Hk. by right.
Qed.

Lemma foldl_insert_none_None (k : string) (ks : list string)
    (d : gmap string value) :
  d !! k = None -> k ∉ ks ->
  foldl (fun d key => <[key := VNone]> d) d ks !! k = None.
Proof.
  revert d. induction ks as [| k' ks IH]; simpl; intros d Hd Hk; [done |].
  apply IH.
  - rewrite lookup_insert_ne; [done |]. intros ->. apply Hk. left.
  - intros ?. apply Hk. by right.
Qed.

Lemma dict_row_no_field (k : string) (fieldnames row : list string) :
  k ∉ fieldnames -> dict_row fieldnames row !! k = None.
Proof.
  intros Hk. unfold dict_row. apply foldl_insert_none_None.
  - apply foldl_insert_str_None; [done |].
    intros ((k' & v) & -> & Hin)%list_elem_of_fmap.
    apply Hk. by eapply elem_of_zip_l.
  - intros Hin. apply Hk. by eapply subseteq_drop.
Qed.

Lemma rows_by_ip_acc (rows : list (gmap string value))
    (table : gmap value (gmap string value)) ip row :
  foldl (fun table r =>
           match r !! "ip" with
           | Some ip => <[ip := r]> table
           | None => table
           end) table rows !! ip = Some row ->
  table !! ip = Some row \/ (row ∈ rows /\ row !! "ip" = Some ip).
Proof.
  revert table. induction rows as [| r rows IH]; simpl; intros table H; [by left |].
  apply IH in H as [H | [Hin Hip]].
  - destruct (r !! "ip") as [ip' |] eqn:Hr; [| by left].
    destruct (decide (ip' = ip)) as [-> | Hne].
    + rewrite lookup_insert_eq in H. injection H as ->. right. split; [left | done].
    + rewrite lookup_insert_ne in H by done. by left.
  - right. split; [by right | done].
Qed.

Lemma rows_by_ip_skip (rows : list (gmap string value))
    (table : gmap value (gmap string value)) :
  Forall (fun r => r !! "ip" = None) rows ->
  foldl (fun table r =>
           match r !! "ip" with
           | Some ip => <[ip := r]> table
           | None => table
           end) table rows = table.
Proof.
  induction 1 as [| r rows Hr _ IH]; simpl; [done |]. by rewrite Hr.
Qed.

Lemma rows_by_ip_snoc (rows : list (gmap string value)) (r : gmap string value) :
  rows_by_ip (rows ++ [r])
  = match r !! "ip" with
    | Some ip => <[ip := r]> (rows_by_ip rows)
    | None => rows_by_ip rows
    end.
Proof. unfold rows_by_ip. by rewrite foldl_app. Qed.

(** The table holds, under each key, the last row with that address. *)
Lemma rows_by_ip_last (rows : list (gmap string value)) (k : value) :
  rows_by_ip rows !! k = last (filter (fun r => r !! "ip" = Some k) rows).
Proof.
  induction rows as [| r rows IH] using rev_ind; [done |].
  rewrite rows_by_ip_snoc, filter_app, filter_cons, filter_nil.
  destruct (r !! "ip") as [ip |] eqn:Hr.
  - destruct (decide (ip = k)) as [-> | Hne].
    + rewrite lookup_insert_eq, decide_True by done. by rewrite last_snoc.
    + rewrite lookup_insert_ne, decide_False by congruence.
      by rewrite app_nil_r.
  - rewrite decide_False by congruence. by rewrite app_nil_r.
Qed.

Lemma foldl_insert_str_is_Some (k : string) (kvs : list (string * string))
    (d : gmap string value) :
  is_Some (d !! k) \/ k ∈ kvs.*1 ->
  is_Some (foldl (fun d kv => <[kv.1 := VStr kv.2]> d) d kvs !! k).
Proof.
  revert d. induction kvs as [| [k' v] kvs IH]; simpl; intros d H.
  - destruct H as [H | H]; [done | by apply elem_of_nil in H].
  - apply IH. destruct (decide (k = k')) as [-> | Hne].
    + left. rewrite lookup_insert_eq. eauto.
    + destruct H as [H | H].
      * left. by rewrite lookup_insert_ne.
      * right. apply elem_of_cons in H as [H | H]; [done | exact H].
Qed.

Lemma foldl_insert_none_is_Some (k : string) (ks : list string)
    (d : gmap string value) :
  is_Some (d !! k) ->
  is_Some (foldl (fun d key => <[key := VNone]> d) d ks !! k).
Proof.
  revert d. induction ks as [| k' ks IH]; simpl; intros d H; [done |].
  apply IH. destruct (decide (k = k')) as [-> | Hne].
  - rewrite lookup_insert_eq. eauto.
  - by rewrite lookup_insert_ne.
Qed.

Lemma foldl_insert_none_VNone (k : string) (ks : list string)
    (d : gmap string value) :
  d !! k = Some VNone \/ k ∈ ks ->
  foldl (fun d key => <[key := VNone]> d) d ks !! k = Some VNone.
Proof.
  revert d. induction ks as [| k' ks IH]; simpl; intros d H.
  - destruct H as [H | H]; [done | by apply elem_of_nil in H].
  - apply IH. destruct (decide (k = k')) as [-> | Hne].
    + left. by rewrite lookup_insert_eq.
    + destruct H as [H | H].
      * left. by rewrite lookup_insert_ne.
      * right. apply elem_of_cons in H as [H | H]; [done | exact H].
Qed.

Lemma fst_zip_take {A B : Type} (l : list A) (k : list B) :
  (zip l k).*1 = take (length k) l.
Proof.
  revert k. induction l as [| x l IH]; intros [| y k]; simpl; try done.
  by rewrite IH.
Qed.

(** [csv.DictReader] gives every row all the field names as keys. *)
Lemma dict_row_field (k : string) (fieldnames row : list string) :
  k ∈ fieldnames -> is_Some (dict_row fieldnames row !! k).
Proof.
  intros Hk. unfold dict_row.
  rewrite <- (take_drop (length row) fieldnames) in Hk.
  apply elem_of_app in Hk as [Hk | Hk].
  - apply foldl_insert_none_is_Some, foldl_insert_str_is_Some.
    right. by rewrite fst_zip_take.
  - rewrite foldl_insert_none_VNone; [eauto | by right].
Qed.

(** A field the row is too short to reach is [None]. *)
Lemma dict_row_short (k : string) (fieldnames row : list string) :
  k ∈ drop (length row) fieldnames ->
  dict_row fieldnames row !! k = Some VNone.
Proof. intros Hk. unfold dict_row. apply foldl_insert_none_VNone. by right. Qed.

Lemma last_filter_is_Some {A : Type} (P : A -> Prop)
    `{forall x, Decision (P x)} (l : list A) (x : A) :
  x ∈ l -> P x -> is_Some (last (filter P l)).
Proof.
  intros Hin HP.
  assert (Hx : x ∈ filter P l) by (by apply list_elem_of_filter).
  destruct (filter P l) as [| y l'] using rev_ind.
  - by apply elem_of_nil in Hx.
  - rewrite last_snoc. eauto.
Qed.

(** C8, as the code has it.  A non-empty path that cannot be opened
    raises the I/O error, and an error raised while the records are read
    propagates; in both cases nothing is loaded.  Otherwise the load
    completes, and the table holds under each key the last row of the
    file that has this key as its [ip], and nothing else.  A header
    without an [ip] column is no error: every row is skipped and the
    table is empty.  With an [ip] column in the header no row is skipped:
    every row has an [ip] key and its key is in the table, and a row too
    short to reach the column has [None] there and makes [None] a key of
    the table. *)
Theorem load_ip_lookup_data_spec
    (open_csv : string -> option (result (list (list string))))
    (path : string) :
  path <> "" ->
  (open_csv path = None ->
   _load_ip_lookup_data open_csv (LookupPath path) = Raise OSError) /\
  (forall e, open_csv path = Some (Raise e) ->
   _load_ip_lookup_data open_csv (LookupPath path) = Raise e) /\
  (forall records, open_csv path = Some (Ok records) ->
     exists table,
       _load_ip_lookup_data open_csv (LookupPath path) = Ok table /\
       (forall k,
          table !! k
          = last (filter (fun r => r !! "ip" = Some k) (dict_reader records))) /\
       (forall fieldnames body, records = fieldnames :: body ->
          ("ip" ∉ fieldnames -> table = ∅) /\
          ("ip" ∈ fieldnames ->
             (forall row, row ∈ dict_reader records ->
                exists k, row !! "ip" = Some k /\ is_Some (table !! k)) /\
             (forall raw, raw ∈ body -> raw <> [] ->
                "ip" ∈ drop (length raw) fieldnames ->
                is_Some (table !! VNone))))).
Proof.
  intros Hpath. unfold _load_ip_lookup_data.
  apply String.eqb_neq in Hpath. rewrite Hpath.
  split; [by intros -> |]. split; [by intros e -> |].
  intros records ->. rewrite bind_Ok. eexists. split; [reflexivity |].
  split; [apply rows_by_ip_last |].
  intros fieldnames body ->. split.
  - intros Hip. unfold rows_by_ip. apply rows_by_ip_skip. simpl.
    apply Forall_fmap, Forall_forall. intros row _.
    by apply dict_row_no_field.
  - intros Hip. split.
    + intros row Hrow.
      assert (Hkey : is_Some (row !! "ip")).
      { simpl in Hrow. apply list_elem_of_fmap in Hrow as (raw & -> & _).
        by apply dict_row_field. }
      destruct Hkey as [k Hk]. exists k. split; [done |].
      rewrite rows_by_ip_last. by eapply last_filter_is_Some.
    + intros raw Hraw Hne Hshort. rewrite rows_by_ip_last.
      apply (last_filter_is_Some _ _ (dict_row fieldnames raw)).
      * simpl. apply list_elem_of_fmap. exists raw. split; [done |].
        by apply list_elem_of_filter.
      * by apply dict_row_short.
Qed.

Lemma load_ip_lookup_data_spec_witness :
  (open_csv_with_ip "lookup.csv" = None ->
   _load_ip_lookup_data open_csv_with_ip (LookupPath "lookup.csv")
   = Raise OSError) /\
  (forall e, open_csv_with_ip "lookup.csv" = Some (Raise e) ->
   _load_ip_lookup_data open_csv_with_ip (LookupPath "lookup.csv")
   = Raise e) /\
  (forall records, open_csv_with_ip "lookup.csv" = Some (Ok records) ->
     exists table,
       _load_ip_lookup_data open_csv_with_ip (LookupPath "lookup.csv")
       = Ok table /\
       (forall k,
          table !! k
          = last (filter (fun r => r !! "ip" = Some k) (dict_reader records))) /\
       (forall fieldnames body, records = fieldnames :: body ->
          ("ip" ∉ fieldnames -> table = ∅) /\
          ("ip" ∈ fieldnames ->
             (forall row, row ∈ dict_reader records ->
                exists k, row !! "ip" = Some k /\ is_Some (table !! k)) /\
             (forall raw, raw ∈ body -> raw <> [] ->
                "ip" ∈ drop (length raw) fieldnames ->
                is_Some (table !! VNone))))).
Proof.
  apply (load_ip_lookup_data_spec open_csv_with_ip "lookup.csv").
  discriminate.
Defined.

(** The claim as stated fails on two files.  The header of
    [csv_without_ip] has no [ip] column, yet the load succeeds, with the
    empty table.  In [csv_with_ip] the row [R2] has no ip entry, yet it is
    not skipped: it is stored under the key [None]. *)
Lemma load_missing_ip_column_no_error :
  ("ip" ∉ ["hostname"; "interface"]) /\
  open_csv_without_ip "lookup.csv"
  = Some (Ok (["hostname"; "interface"]
              :: [["router-1"; "Gi1"]; ["router-2"; "Gi2"]])) /\
  _load_ip_lookup_data open_csv_without_ip (LookupPath "lookup.csv") = Ok ∅ /\
  ~ (exists e,
       _load_ip_lookup_data open_csv_without_ip (LookupPath "lookup.csv")
       = Raise e) /\
  open_csv_with_ip "lookup.csv"
  = Some (Ok [["hostname"; "ip"; "interface"]; ["R1"; "10.0.0.1"; "Gi1"];
              ["R2"]; []; ["R1b"; "10.0.0.1"; "Gi9"]]) /\
  exists table,
    _load_ip_lookup_data open_csv_with_ip (LookupPath "lookup.csv")
    = Ok table /\
    table !! VNone
    = Some (<["hostname" := VStr "R2"]> (<["ip" := VNone]>
              (<["interface" := VNone]> ∅))).
Proof.
  split; [| split; [reflexivity | split; [| split; [| split]]]].
  - intros H. repeat (apply elem_of_cons in H as [H | H]; [discriminate H |]).
    by apply elem_of_nil in H.
  - vm_compute. reflexivity.
  - intros [e H]. vm_compute in H. discriminate H.
  - reflexivity.
  - eexists. split; [reflexivity |]. vm_compute. reflexivity.
Qed.

(** An unreadable path raises, an error of the reader propagates, and
    rows are keyed by their [ip] field, the later of two rows with one
    address replacing the earlier. *)
Example load_unreadable_path :
  _load_ip_lookup_data (fun _ => None) (LookupPath "missing.csv")
  = Raise OSError /\
  _load_ip_lookup_data open_csv_with_ip (LookupPath "binary.csv")
  = Raise UnicodeDecodeError.
Proof. split; reflexivity. Qed.

Example load_short_row :
  _load_ip_lookup_data open_csv_with_ip (LookupPath "lookup.csv")
  = Ok (<[VStr "10.0.0.1" :=
            <["hostname" := VStr "R1b"]> (<["ip" := VStr "10.0.0.1"]>
              (<["interface" := VStr "Gi9"]> ∅))]>
        (<[VNone :=
             <["hostname" := VStr "R2"]> (<["ip" := VNone]>
               (<["interface" := VNone]> ∅))]> ∅)).
Proof. vm_compute. reflexivity. Qed.

(** ** Stripping the correlation keys *)

Lemma strip_stripped link : stripped (strip link).
Proof.
  unfold stripped, strip.
  repeat split;
    repeat (first [apply lookup_delete_eq | rewrite lookup_delete_ne by done]).
Qed.

Lemma stripped_insert k v link :
  k <> "local_intf_id" -> k <> "peer_intf_id" ->
  k <> "peer_ip" -> k <> "local_ip" ->
  stripped link -> stripped (<[k := v]> link).
Proof.
  intros ? ? ? ? (? & ? & ? & ?).
  unfold stripped. by rewrite !lookup_insert_ne.
Qed.

Lemma pop_correlation_ok link a b c d link' :
  pop_correlation link = Ok (a, b, c, d, link') ->
  link' = strip link /\
  link !! "local_intf_id" = Some a /\ link !! "peer_intf_id" = Some b /\
  link !! "peer_ip" = Some c /\ link !! "local_ip" = Some d.
Proof.
  unfold pop_correlation, dict_pop. intros H.
  destruct (link !! "local_intf_id") as [a' |] eqn:Ha; [| done]. simpl in H.
  rewrite lookup_delete_ne in H by done.
  destruct (link !! "peer_intf_id") as [b' |] eqn:Hb; [| done]. simpl in H.
  rewrite !lookup_delete_ne in H by done.
  destruct (link !! "peer_ip") as [c' |] eqn:Hc; [| done]. simpl in H.
  rewrite !lookup_delete_ne in H by done.
  destruct (link !! "local_ip") as [d' |] eqn:Hd; [| done]. simpl in H.
  by injection H as <- <- <- <- <-.
Qed.

Lemma pop_correlation_present link a b c d :
  link !! "local_intf_id" = Some a -> link !! "peer_intf_id" = Some b ->
  link !! "peer_ip" = Some c -> link !! "local_ip" = Some d ->
  pop_correlation link = Ok (a, b, c, d, strip link).
Proof.
  intros Ha Hb Hc Hd. unfold pop_correlation, dict_pop.
  rewrite Ha. simpl. rewrite lookup_delete_ne, Hb by done. simpl.
  rewrite !lookup_delete_ne, Hc by done. simpl.
  by rewrite !lookup_delete_ne, Hd by done.
Qed.

(** ** The packing relation *)

Lemma pack_rel_refl st : pack_rel st st.
Proof.
  unfold pack_rel. split_and!; auto.
  intros hash. exists []. by rewrite app_nil_r.
Qed.

Lemma pack_rel_trans st1 st2 st3 :
  pack_rel st1 st2 -> pack_rel st2 st3 -> pack_rel st1 st3.
Proof.
  intros (Hg & Hn & Hd & Hl & Hs & Hk & Ha)
         (Hg' & Hn' & Hd' & Hl' & Hs' & Hk' & Ha').
  unfold pack_rel. split_and!; try congruence; auto.
  intros hash. destruct (Ha hash) as (add & Hadd & Hall).
  destruct (Ha' hash) as (add' & Hadd' & Hall').
  exists (add ++ add')%list. split.
  - by rewrite Hadd', Hadd, app_assoc.
  - apply Forall_app. split; [| done].
    eapply Forall_impl; [exact Hall |]. auto.
Qed.

Lemma pack_rel_write l link st :
  (stripped (deref st l) -> stripped link) -> pack_rel st (write l link st).
Proof.
  intros Hs. unfold pack_rel. split_and!; auto.
  - intros l' Hl'. rewrite deref_write. case_decide; [subst; auto | done].
  - intros hash. exists []. by rewrite app_nil_r.
Qed.

Section pack_rel_facts.
Context (jval : Type) (json_dumps : gmap string jval -> string)
        (json_loads : string -> result (gmap string jval))
        (cfg : config).

Abbreviation add_link' := (_add_link jval json_dumps cfg).
Abbreviation merge' := (merge_pair jval json_dumps json_loads cfg).
Abbreviation pair_with' := (try_pair jval json_dumps json_loads cfg).
Abbreviation candidate' := (pack_candidate jval json_dumps json_loads cfg).
Abbreviation loop' := (pack_loop jval json_dumps json_loads cfg).
Abbreviation group' := (pack_group jval json_dumps json_loads cfg).
Abbreviation keys_loop' := (for_keys jval json_dumps json_loads cfg).
Abbreviation pack' := (_pack_links jval json_dumps json_loads cfg).

Lemma add_link_pack_rel l data st st' :
  stripped (deref st l) -> add_link' l data st = Ok st' -> pack_rel st st'.
Proof.
  intros Hs H.
  apply add_link_ok in H
    as (h & _ & Hn & Hgn & Hgl & Hnl & Hne & Heq & Hld).
  cbv zeta in Hld.
  assert (Hmono : forall l', stripped (deref st l') -> stripped (deref st' l')).
  { intros l' Hl'. destruct (decide (l' = l)) as [-> | Hl]; [| by rewrite Hne].
    destruct Heq as [-> | [s ->]]; [done |]. by apply stripped_insert. }
  unfold pack_rel. split_and!; auto.
  - intros hash Hsome. destruct (link_in st l _).
    + destruct Hld as [-> _].
      destruct (decide (h = hash)) as [-> | Hh].
      * rewrite get_setdefault_eq. eauto.
      * by rewrite get_setdefault_ne.
    + rewrite Hld. destruct (decide (h = hash)) as [-> | Hh].
      * rewrite get_set_eq. eauto.
      * by rewrite get_set_ne, get_setdefault_ne.
  - intros hash. unfold group_of. destruct (link_in st l _).
    + destruct Hld as [-> _]. exists []. rewrite app_nil_r. split; [| done].
      destruct (decide (h = hash)) as [-> | Hh].
      * by rewrite get_setdefault_eq.
      * by rewrite get_setdefault_ne.
    + rewrite Hld. destruct (decide (h = hash)) as [-> | Hh].
      * rewrite get_set_eq. exists [l]. split; [done |].
        constructor; [by apply Hmono | done].
      * rewrite get_set_ne, get_setdefault_ne by done.
        exists []. by rewrite app_nil_r.
Qed.

Lemma pack_rel_stripped st st' l :
  pack_rel st st' -> stripped (deref st l) -> stripped (deref st' l).
Proof. intros (_ & _ & _ & _ & Hs & _). apply Hs. Qed.

Lemma merge_pair_pack_rel l l2 links st st' i :
  stripped (deref st l) -> merge' l l2 links st = Ok (st', i) ->
  pack_rel st st'.
Proof.
  intros Hs H. unfold merge_pair in H.
  inv_bind H as src_label_2 Hsrc.
  inv_bind H as d1 Hd1. inv_bind H as d2 Hd2.
  inv_bind H as st2 Hadd.
  inv_bind H as label Hlabel.
  inv_bind H as label_2 Hlabel_2.
  inv_bind H as st3 Hst3.
  destruct (index_where _ links); [| done]. injection H as -> ->.
  set (st1 := write l (<["trgt_label" := src_label_2]> (deref st l)) st) in *.
  assert (H1 : pack_rel st st1).
  { apply pack_rel_write. intros _. by apply stripped_insert. }
  assert (H2 : pack_rel st1 st2).
  { eapply add_link_pack_rel; [| exact Hadd].
    eapply pack_rel_stripped; eauto. }
  assert (H3 : pack_rel st2 st').
  { destruct (bool_decide (label ≠ label_2)).
    - inv_bind Hst3 as new_label Hnew. injection Hst3 as <-.
      apply pack_rel_write. intros ?. by apply stripped_insert.
    - injection Hst3 as <-. apply pack_rel_refl. }
  eauto using pack_rel_trans.
Qed.

Lemma try_pair_pack_rel peer_key local_key local peer l links st st' found :
  stripped (deref st l) ->
  pair_with' peer_key local_key local peer l links st = Ok (st', found) ->
  pack_rel st st'.
Proof.
  intros Hs H. unfold try_pair in H. inv_bind H as [l2 |] Hfind.
  - inv_bind H as [st'' i] Hmerge. injection H as -> _.
    by eapply merge_pair_pack_rel.
  - injection H as -> _. apply pack_rel_refl.
Qed.

Lemma pack_candidate_pack_rel l links st st' links' :
  candidate' l links st = Ok (st', links') -> pack_rel st st'.
Proof.
  intros H. unfold pack_candidate in H.
  inv_bind H as [[[[a b] c] d] link] Hpop.
  apply pop_correlation_ok in Hpop as (-> & _).
  set (st1 := write l (strip (deref st l)) st) in *.
  assert (H1 : pack_rel st st1).
  { apply pack_rel_write. intros _. apply strip_stripped. }
  assert (Hs1 : stripped (deref st1 l)).
  { unfold st1. rewrite deref_write_eq. apply strip_stripped. }
  inv_bind H as [st2 found] Hpair.
  assert (H2 : pack_rel st1 st2).
  { destruct (truthy a && truthy b).
    - by eapply try_pair_pack_rel.
    - destruct (truthy d && truthy c).
      + by eapply try_pair_pack_rel.
      + injection Hpair as <- _. apply pack_rel_refl. }
  destruct found as [i |].
  - injection H as <- _. eauto using pack_rel_trans.
  - inv_bind H as st3 Hadd. injection H as <- _.
    apply (pack_rel_trans _ st2); [eauto using pack_rel_trans |].
    eapply add_link_pack_rel; [| exact Hadd].
    eapply pack_rel_stripped; eauto.
Qed.

Lemma pack_loop_pack_rel fuel links st st' :
  loop' fuel links st = Ok st' -> pack_rel st st'.
Proof.
  revert links st. induction fuel as [| fuel IH]; simpl; intros links st H.
  - injection H as <-. apply pack_rel_refl.
  - destruct (list_pop links) as [[links' l] |].
    + inv_bind H as [st1 links1] Hcand.
      apply pack_candidate_pack_rel in Hcand.
      apply IH in H. eauto using pack_rel_trans.
    + injection H as <-. apply pack_rel_refl.
Qed.

(** The state a group is packed from: its list replaced by a new empty
    list. *)
Lemma pack_group_ok hash st st' :
  group' hash st = Ok st' ->
  (st' = st /\ length (group_of st hash) <= 1) \/
  (1 < length (group_of st hash) /\
   pack_rel (set_links_dict (PyDict.set hash [] (links_dict st)) st) st').
Proof.
  unfold pack_group, group_of. intros H.
  destruct (PyDict.get hash (links_dict st)) as [links |]; [| done].
  simpl. destruct (length links <=? 1)%nat eqn:Hlen.
  - injection H as <-. left. split; [done |]. by apply Nat.leb_le.
  - right. split; [by apply Nat.leb_gt |]. by eapply pack_loop_pack_rel.
Qed.

Lemma group_of_reset_eq hash st :
  group_of (set_links_dict (PyDict.set hash [] (links_dict st)) st) hash = [].
Proof. unfold group_of. simpl. by rewrite get_set_eq. Qed.

Lemma group_of_reset_ne hash hash' st :
  hash <> hash' ->
  group_of (set_links_dict (PyDict.set hash [] (links_dict st)) st) hash'
  = group_of st hash'.
Proof. intros Hne. unfold group_of. simpl. by rewrite get_set_ne. Qed.

Lemma for_keys_strips size hashes st st' hash :
  keys_loop' size hashes st = Ok st' ->
  Forall (fun l => stripped (deref st l)) (group_of st hash) \/
  (1 < length (group_of st hash) /\ hash ∈ hashes) ->
  Forall (fun l => stripped (deref st' l)) (group_of st' hash).
Proof.
  revert st. induction hashes as [| k ks IH]; simpl; intros st H Hcase.
  - injection H as <-. destruct Hcase as [? | [_ Hin]]; [done |].
    by apply elem_of_nil in Hin.
  - inv_bind H as st1 Hgroup.
    destruct (length (links_dict st1) =? size)%nat; [| done].
    apply (IH _ H). clear IH H.
    apply pack_group_ok in Hgroup as [[-> Hlen] | [Hlen Hrel]].
    + destruct Hcase as [? | [Hlong Hin]]; [by left |].
      right. split; [done |].
      apply elem_of_cons in Hin as [-> | Hin]; [lia | done].
    + destruct Hrel as (_ & _ & _ & _ & Hmono & _ & Hadd).
      destruct (Hadd hash) as (added & Hgrp & Hall).
      destruct (decide (k = hash)) as [-> | Hk].
      * left. rewrite Hgrp, group_of_reset_eq. done.
      * rewrite group_of_reset_ne in Hgrp by done.
        destruct Hcase as [Hold | [Hlong Hin]].
        -- left. rewrite Hgrp. apply Forall_app. split; [| done].
           eapply Forall_impl; [exact Hold |]. intros l. apply Hmono.
        -- right. split.
           ++ rewrite Hgrp, length_app. lia.
           ++ apply elem_of_cons in Hin as [-> | Hin]; done.
Qed.

(** C7, as the code has it.  When [_pack_links] completes, every group
    that held more than one link beforehand holds only links without any
    of the four correlation keys. *)
Theorem pack_links_strips (st st' : state) (hash : list string)
    (links : list nat) :
  pack' st = Ok st' ->
  PyDict.get hash (links_dict st) = Some links ->
  1 < length links ->
  forall l, l ∈ group_of st' hash ->
    deref st' l !! "local_intf_id" = None /\
    deref st' l !! "peer_intf_id" = None /\
    deref st' l !! "peer_ip" = None /\
    deref st' l !! "local_ip" = None.
Proof.
  intros Hpack Hget Hlen l Hl.
  assert (Hall : Forall (fun l => stripped (deref st' l)) (group_of st' hash)).
  { eapply for_keys_strips; [exact Hpack |]. right. split.
    - unfold group_of. by rewrite Hget.
    - apply get_is_Some_keys. eauto. }
  rewrite Forall_forall in Hall. by apply Hall.
Qed.
End pack_rel_facts.

Lemma pack_links_strips_witness :
  deref state_R1_R2_packed 1 !! "local_intf_id" = None /\
  deref state_R1_R2_packed 1 !! "peer_intf_id" = None /\
  deref state_R1_R2_packed 1 !! "peer_ip" = None /\
  deref state_R1_R2_packed 1 !! "local_ip" = None.
Proof.
  apply (pack_links_strips string toy_dumps toy_loads default_config
           state_R1_R2_raw state_R1_R2_packed ["100:L2"; "R1"; "R2"] [0; 1]).
  - vm_compute. reflexivity.
  - vm_compute. reflexivity.
  - simpl. lia.
  - vm_compute. apply list_elem_of_here.
Defined.

(** The claim as stated fails on a group of one link: [_pack_links] skips
    the group, the link keeps its four correlation keys, and they are part
    of the payload handed to the drawing. *)
Lemma single_link_keeps_correlation_keys :
  toy_pack default_config state_R1_raw = Ok state_R1_raw /\
  group_of state_R1_raw ["100:L2"; "R1"; "R2"] = [0] /\
  deref state_R1_raw 0 !! "local_intf_id" = Some (VStr "Gi1") /\
  deref state_R1_raw 0 !! "peer_intf_id" = Some (VStr "Gi2") /\
  deref state_R1_raw 0 !! "peer_ip" = Some VNone /\
  deref state_R1_raw 0 !! "local_ip" = Some VNone /\
  sent_labels "local_intf_id" (toy_work default_config [device_X] init_state)
  = Some [Some (VStr "Gi1")] /\
  sent_labels "peer_intf_id" (toy_work default_config [device_X] init_state)
  = Some [Some (VStr "Gi2")] /\
  sent_labels "peer_ip" (toy_work default_config [device_X] init_state)
  = Some [Some VNone] /\
  sent_labels "local_ip" (toy_work default_config [device_X] init_state)
  = Some [Some VNone].
Proof. vm_compute. done. Qed.

(** ** Loops *)

Lemma for_each_rel {A : Type} (R : state -> state -> Prop)
    (body : A -> state -> result state) (xs : list A) (st st' : state) :
  (forall s, R s s) ->
  (forall s1 s2 s3, R s1 s2 -> R s2 s3 -> R s1 s3) ->
  (forall x s s', body x s = Ok s' -> R s s') ->
  for_each body xs st = Ok st' -> R st st'.
Proof.
  intros Hrefl Htrans Hbody. revert st.
  induction xs as [| x xs IH]; simpl; intros st H.
  - injection H as <-. apply Hrefl.
  - inv_bind H as st1 Hx. eauto.
Qed.

(** ** State accumulated across calls of [work] *)

Section work_facts.
Context (fnmatchcase : string -> string -> bool) (jval : Type)
        (json_dumps : gmap string jval -> string)
        (json_loads : string -> result (gmap string jval))
        (adj_json : string -> adjacency -> jval)
        (dumps_lsp : lsp -> string) (cfg : config).

Abbreviation form_w :=
  (_form_base_graph_dict fnmatchcase jval json_dumps adj_json dumps_lsp cfg).
Abbreviation pack_w := (_pack_links jval json_dumps json_loads cfg).
Abbreviation work_w :=
  (work fnmatchcase jval json_dumps json_loads adj_json dumps_lsp cfg).

Lemma same_graph_links_refl st : same_graph_links st st.
Proof. reflexivity. Qed.

Lemma same_graph_links_trans s1 s2 s3 :
  same_graph_links s1 s2 -> same_graph_links s2 s3 -> same_graph_links s1 s3.
Proof. unfold same_graph_links. congruence. Qed.

Lemma add_node_graph_links node node_data st st' :
  _add_node dumps_lsp cfg node node_data st = Ok st' ->
  same_graph_links st st'.
Proof.
  unfold _add_node. intros H. inv_bind H as id Hid.
  destruct (PyDict.get id (nodes_dict st)); by injection H as <-.
Qed.

Lemma add_link_graph_links l data st st' :
  _add_link jval json_dumps cfg l data st = Ok st' -> same_graph_links st st'.
Proof. intros H. by apply add_link_ok in H as (h & _ & _ & _ & ? & _). Qed.

Lemma process_lsp_graph_links r isis_pid st st' :
  _process_lsp fnmatchcase jval json_dumps adj_json dumps_lsp cfg r isis_pid st
  = Ok st' ->
  same_graph_links st st'.
Proof.
  unfold _process_lsp. intros H.
  inv_bind H as st1 Hnode. apply add_node_graph_links in Hnode.
  inv_bind H as st2 Hlinks.
  apply (for_each_rel same_graph_links) in Hlinks;
    [| exact same_graph_links_refl | exact same_graph_links_trans |].
  - destruct (add_connected cfg).
    + apply (for_each_rel same_graph_links) in H;
        [| exact same_graph_links_refl | exact same_graph_links_trans |].
      * eauto using same_graph_links_trans.
      * intros n s s' Hn. unfold process_network in Hn.
        inv_bind Hn as s1 Hs1. apply add_node_graph_links in Hs1.
        apply add_link_graph_links in Hn. unfold same_graph_links in *.
        simpl in Hn. congruence.
    + injection H as <-. eauto using same_graph_links_trans.
  - intros a s s' Ha. unfold process_adjacency in Ha.
    destruct (filtered fnmatchcase cfg a); [by injection Ha as <- |].
    by apply add_link_graph_links in Ha.
Qed.

Lemma form_base_graph_dict_graph_links parsed st st' :
  form_w parsed st = Ok st' -> same_graph_links st st'.
Proof.
  unfold _form_base_graph_dict.
  apply (for_each_rel same_graph_links);
    [exact same_graph_links_refl | exact same_graph_links_trans |].
  intros d s s'. unfold process_device.
  apply (for_each_rel same_graph_links);
    [exact same_graph_links_refl | exact same_graph_links_trans |].
  intros [isis_pid lsps] s1 s1'. unfold process_isis.
  apply (for_each_rel same_graph_links);
    [exact same_graph_links_refl | exact same_graph_links_trans |].
  intros r s2 s2'. apply process_lsp_graph_links.
Qed.

Lemma for_keys_graph_links size hashes st st' :
  for_keys jval json_dumps json_loads cfg size hashes st = Ok st' ->
  same_graph_links st st'.
Proof.
  revert st. induction hashes as [| k ks IH]; simpl; intros st H.
  - by injection H as <-.
  - inv_bind H as st1 Hgroup.
    destruct (length (links_dict st1) =? size)%nat; [| done].
    apply IH in H.
    apply pack_group_ok in Hgroup as [[-> _] | [_ (Hg & _)]]; [done |].
    unfold same_graph_links in *. simpl in Hg. congruence.
Qed.

Lemma lookup_rid_graph_links st st' :
  _lookup_rid cfg st = Ok st' -> same_graph_links st st'.
Proof.
  unfold _lookup_rid. intros H. inv_bind H as nd Hnd. by injection H as <-.
Qed.

Lemma lookup_ip_interfaces_graph_links st st' :
  _lookup_ip_interfaces cfg st = Ok st' -> same_graph_links st st'.
Proof.
  unfold _lookup_ip_interfaces.
  generalize (PyDict.values (links_dict st)). intros groups.
  apply (for_each_rel same_graph_links);
    [exact same_graph_links_refl | exact same_graph_links_trans |].
  intros links s s'.
  apply (for_each_rel same_graph_links);
    [exact same_graph_links_refl | exact same_graph_links_trans |].
  intros l s1 s1' H. unfold lookup_link_at in H.
  inv_bind H as link Hlink. by injection H as <-.
Qed.

Lemma work_graph_links parsed st st' :
  work_w parsed st = Ok st' ->
  graph_links st'
  = (graph_links st ++ concat (PyDict.values (links_dict st')))%list.
Proof.
  unfold work. intros H.
  inv_bind H as st1 Hform. apply form_base_graph_dict_graph_links in Hform.
  inv_bind H as st2 Hpack. apply for_keys_graph_links in Hpack.
  inv_bind H as st3 Hlookup. injection H as <-. simpl.
  f_equal. unfold same_graph_links in *.
  destruct (bool_decide (ip_lookup_data cfg ≠ ∅)).
  - inv_bind Hlookup as st2' Hrid. apply lookup_rid_graph_links in Hrid.
    apply lookup_ip_interfaces_graph_links in Hlookup.
    unfold same_graph_links in *. congruence.
  - injection Hlookup as <-. congruence.
Qed.

Lemma persists_refl st : persists st st.
Proof. by split. Qed.

Lemma persists_trans s1 s2 s3 :
  persists s1 s2 -> persists s2 s3 -> persists s1 s3.
Proof. intros [H1 H2] [H1' H2']. split; auto. Qed.

Lemma get_set_is_Some {K V : Type} `{EqDecision K} (k k' : K) (v : V) d :
  is_Some (PyDict.get k' d) -> is_Some (PyDict.get k' (PyDict.set k v d)).
Proof.
  intros H. destruct (decide (k = k')) as [-> | Hne].
  - rewrite get_set_eq. eauto.
  - by rewrite get_set_ne.
Qed.

Lemma get_setdefault_is_Some {K V : Type} `{EqDecision K} (k k' : K) (v : V) d :
  is_Some (PyDict.get k' d) ->
  is_Some (PyDict.get k' (PyDict.setdefault k v d)).
Proof.
  intros H. destruct (decide (k = k')) as [-> | Hne].
  - rewrite get_setdefault_eq. eauto.
  - by rewrite get_setdefault_ne.
Qed.

Lemma add_node_persists node node_data st st' :
  _add_node dumps_lsp cfg node node_data st = Ok st' -> persists st st'.
Proof.
  unfold _add_node. intros H. inv_bind H as id Hid.
  destruct (PyDict.get id (nodes_dict st)); injection H as <-;
    (split; [intros i; apply get_set_is_Some | done]).
Qed.

Lemma add_link_persists l data st st' :
  _add_link jval json_dumps cfg l data st = Ok st' -> persists st st'.
Proof.
  intros H. apply add_link_ok in H as (h & _ & Hn & _ & _ & _ & _ & _ & Hld).
  split; [by rewrite Hn |]. cbv zeta in Hld. intros hash Hhash.
  destruct (link_in _ _ _).
  - destruct Hld as [-> _]. by apply get_setdefault_is_Some.
  - rewrite Hld. by apply get_set_is_Some, get_setdefault_is_Some.
Qed.

Lemma process_lsp_persists r isis_pid st st' :
  _process_lsp fnmatchcase jval json_dumps adj_json dumps_lsp cfg r isis_pid st
  = Ok st' ->
  persists st st'.
Proof.
  unfold _process_lsp. intros H.
  inv_bind H as st1 Hnode. apply add_node_persists in Hnode.
  inv_bind H as st2 Hlinks.
  apply (for_each_rel persists) in Hlinks;
    [| exact persists_refl | exact persists_trans |].
  - destruct (add_connected cfg).
    + apply (for_each_rel persists) in H;
        [| exact persists_refl | exact persists_trans |].
      * eauto using persists_trans.
      * intros n s s' Hn. unfold process_network in Hn.
        inv_bind Hn as s1 Hs1. apply add_node_persists in Hs1.
        apply add_link_persists in Hn.
        apply (persists_trans _ _ _ Hs1).
        destruct Hn as [Hn1 Hn2]. split; [exact Hn1 | exact Hn2].
    + injection H as <-. eauto using persists_trans.
  - intros a s s' Ha. unfold process_adjacency in Ha.
    destruct (filtered fnmatchcase cfg a);
      [injection Ha as <-; apply persists_refl |].
    by apply add_link_persists in Ha.
Qed.

Lemma form_base_graph_dict_persists parsed st st' :
  form_w parsed st = Ok st' -> persists st st'.
Proof.
  unfold _form_base_graph_dict.
  apply (for_each_rel persists); [exact persists_refl | exact persists_trans |].
  intros d s s'. unfold process_device.
  apply (for_each_rel persists); [exact persists_refl | exact persists_trans |].
  intros [isis_pid lsps] s1 s1'. unfold process_isis.
  apply (for_each_rel persists); [exact persists_refl | exact persists_trans |].
  intros r s2 s2'. apply process_lsp_persists.
Qed.

Lemma for_keys_persists size hashes st st' :
  for_keys jval json_dumps json_loads cfg size hashes st = Ok st' ->
  persists st st'.
Proof.
  revert st. induction hashes as [| k ks IH]; simpl; intros st H.
  - injection H as <-. apply persists_refl.
  - inv_bind H as st1 Hgroup.
    destruct (length (links_dict st1) =? size)%nat; [| done].
    apply IH in H. refine (persists_trans _ _ _ _ H).
    apply pack_group_ok in Hgroup as [[-> _] | [_ Hrel]];
      [apply persists_refl |].
    destruct Hrel as (_ & _ & Hd & _ & _ & Hk & _). simpl in Hd.
    split; [by rewrite Hd |].
    intros hash Hhash. apply Hk. simpl. by apply get_set_is_Some.
Qed.

Lemma lookup_rid_nodes_get nd nd' id :
  lookup_rid_nodes cfg nd = Ok nd' ->
  is_Some (PyDict.get id nd) -> is_Some (PyDict.get id nd').
Proof.
  revert nd'. induction nd as [| [id0 node] nd IH]; simpl; intros nd' H.
  - by injection H as <-.
  - inv_bind H as node' Hnode. inv_bind H as rest Hrest.
    injection H as <-. simpl.
    destruct (decide (id = id0)); [eauto | by apply IH].
Qed.

Lemma lookup_rid_persists st st' :
  _lookup_rid cfg st = Ok st' -> persists st st'.
Proof.
  unfold _lookup_rid. intros H. inv_bind H as nd Hnd. injection H as <-.
  split; [| done]. intros id. simpl. by apply lookup_rid_nodes_get.
Qed.

Lemma lookup_ip_interfaces_persists st st' :
  _lookup_ip_interfaces cfg st = Ok st' -> persists st st'.
Proof.
  unfold _lookup_ip_interfaces.
  generalize (PyDict.values (links_dict st)). intros groups.
  apply (for_each_rel persists); [exact persists_refl | exact persists_trans |].
  intros links s s'.
  apply (for_each_rel persists); [exact persists_refl | exact persists_trans |].
  intros l s1 s1' H. unfold lookup_link_at in H.
  inv_bind H as link Hlink. injection H as <-. by split.
Qed.

Lemma work_persists parsed st st' :
  work_w parsed st = Ok st' -> persists st st'.
Proof.
  unfold work. intros H.
  inv_bind H as st1 Hform. apply form_base_graph_dict_persists in Hform.
  inv_bind H as st2 Hpack. apply for_keys_persists in Hpack.
  inv_bind H as st3 Hlookup. injection H as <-.
  assert (H23 : persists st2 st3).
  { destruct (bool_decide (ip_lookup_data cfg ≠ ∅)).
    - inv_bind Hlookup as st2' Hrid. apply lookup_rid_persists in Hrid.
      apply lookup_ip_interfaces_persists in Hlookup.
      eauto using persists_trans.
    - injection Hlookup as <-. apply persists_refl. }
  apply (persists_trans _ _ _ Hform), (persists_trans _ _ _ Hpack).
  destruct H23 as [Hn Hl]. split; [exact Hn | exact Hl].
Qed.

(** C10, as the code has it.  The list of link objects handed to the
    drawing is only ever extended, and no node id or group key leaves
    [nodes_dict] and [links_dict].  A call of [work] that completes sends
    what the list held before, followed by every link [links_dict] holds
    at the end of the call.  So when a second call completes, every link
    sent by the first call is sent again, and a link sent by the first
    call that [links_dict] still holds after the second is sent at least
    twice, while a link that [links_dict] no longer holds is in the second
    payload as often as in the first. *)
Theorem work_accumulates_links (parsed_1 parsed_2 : list device)
    (st st1 st2 : state) :
  work_w parsed_1 st = Ok st1 ->
  work_w parsed_2 st1 = Ok st2 ->
  graph_links st1
  = (graph_links st ++ concat (PyDict.values (links_dict st1)))%list /\
  graph_links st2
  = (graph_links st1 ++ concat (PyDict.values (links_dict st2)))%list /\
  persists st st1 /\ persists st1 st2 /\
  (forall l, l ∈ graph_links st1 -> l ∈ graph_links st2) /\
  (forall l, l ∈ graph_links st1 ->
             l ∈ concat (PyDict.values (links_dict st2)) ->
             2 <= count_occ Nat.eq_dec (graph_links st2) l) /\
  (forall l, l ∉ concat (PyDict.values (links_dict st2)) ->
             count_occ Nat.eq_dec (graph_links st2) l
             = count_occ Nat.eq_dec (graph_links st1) l).
Proof.
  intros H1 H2.
  pose proof (work_persists _ _ _ H1) as Hp1.
  pose proof (work_persists _ _ _ H2) as Hp2.
  apply work_graph_links in H1. apply work_graph_links in H2.
  split; [done |]. split; [done |]. split; [done |]. split; [done |].
  split; [| split].
  - intros l Hl. rewrite H2. apply elem_of_app. by left.
  - intros l Hl Hl'. rewrite H2, count_occ_app.
    apply list_elem_of_In, (count_occ_In Nat.eq_dec) in Hl, Hl'. lia.
  - intros l Hl. rewrite H2, count_occ_app.
    rewrite list_elem_of_In in Hl.
    apply (count_occ_not_In Nat.eq_dec) in Hl. lia.
Qed.
End work_facts.

Lemma work_accumulates_links_witness :
  graph_links state_no_data_once
  = (graph_links init_state
     ++ concat (PyDict.values (links_dict state_no_data_once)))%list /\
  graph_links state_no_data_twice
  = (graph_links state_no_data_once
     ++ concat (PyDict.values (links_dict state_no_data_twice)))%list /\
  persists init_state state_no_data_once /\
  persists state_no_data_once state_no_data_twice /\
  (forall l, l ∈ graph_links state_no_data_once ->
             l ∈ graph_links state_no_data_twice) /\
  (forall l, l ∈ graph_links state_no_data_once ->
             l ∈ concat (PyDict.values (links_dict state_no_data_twice)) ->
             2 <= count_occ Nat.eq_dec (graph_links state_no_data_twice) l) /\
  (forall l, l ∉ concat (PyDict.values (links_dict state_no_data_twice)) ->
             count_occ Nat.eq_dec (graph_links state_no_data_twice) l
             = count_occ Nat.eq_dec (graph_links state_no_data_once) l).
Proof.
  apply (work_accumulates_links glob_match string toy_dumps toy_loads
           toy_adj_json toy_dumps_lsp config_no_data
           [device_X] [device_X] init_state
           state_no_data_once state_no_data_twice).
  - vm_compute. reflexivity.
  - vm_compute. reflexivity.
Defined.

(** The claim as stated fails on two instances.  When [work] is called
    twice on the records of [R1] and [R2], the first call sends the one
    merged link, and the second call raises, so that it sends nothing:
    the raw links it builds join the group of the merged link, which has
    no correlation keys for the scan to read.  When [work] is called on
    [R1]'s record and then on [R2]'s, both calls complete, but the link
    sent by the first call is in the second payload once, not twice: the
    packing of the second call has merged it away from [links_dict]. *)
Lemma work_twice_not_duplicated :
  toy_work default_config [device_X; device_Y] init_state
  = Ok state_X_Y_once /\
  graph_links state_X_Y_once = [1] /\
  toy_work default_config [device_X; device_Y] state_X_Y_once
  = Raise (KeyError "peer_intf_id") /\
  toy_work default_config [device_X] init_state = Ok state_work_once /\
  toy_work default_config [device_Y] state_work_once = Ok state_X_then_Y /\
  graph_links state_work_once = [0] /\
  graph_links state_X_then_Y = [0; 1] /\
  PyDict.values (links_dict state_X_then_Y) = [[1]] /\
  count_occ Nat.eq_dec (graph_links state_X_then_Y) 0 = 1.
Proof. vm_compute. done. Qed.

(** Without descriptions the second sighting of an adjacency is equal to
    the stored link and is not inserted, and the one link object is sent
    twice by the second call; with descriptions the stored link differs
    from the fresh one by its description, a second object is inserted,
    and the second payload holds the old object followed by the new. *)
Example work_twice_payloads :
  graph_links state_no_data_twice = [0; 0] /\
  graph_links state_work_once = [0] /\
  graph_links state_work_twice = [0; 1].
Proof. vm_compute. done. Qed.

(** ** Node deduplication *)

Section pydict_more.
Context {K V : Type} `{EqDecision K}.
Implicit Types (d : list (K * V)) (k : K) (v : V).

Lemma get_None_keys k d : PyDict.get k d = None <-> k ∉ PyDict.keys d.
Proof.
  rewrite <- get_is_Some_keys. rewrite <- eq_None_not_Some. done.
Qed.

Lemma set_absent k v d :
  PyDict.get k d = None -> PyDict.set k v d = (d ++ [(k, v)])%list.
Proof.
  induction d as [| [k0 v0] d IH]; simpl; [done |].
  destruct (decide (k = k0)); [done |]. intros Hget. by rewrite IH.
Qed.

Lemma elem_of_set k v d kv :
  kv ∈ PyDict.set k v d -> kv = (k, v) \/ kv ∈ d.
Proof.
  induction d as [| [k0 v0] d IH]; simpl.
  - intros ->%list_elem_of_singleton. by left.
  - destruct (decide (k = k0)) as [-> | Hne].
    + intros [-> | Hin]%elem_of_cons; [by left | right; by right].
    + intros [-> | Hin]%elem_of_cons; [right; left |].
      destruct (IH Hin) as [-> | ?]; [by left | right; by right].
Qed.

Lemma keys_set_absent k v d :
  PyDict.get k d = None ->
  PyDict.keys (PyDict.set k v d) = (PyDict.keys d ++ [k])%list.
Proof.
  intros Hget. rewrite (set_absent _ _ _ Hget).
  unfold PyDict.keys. by rewrite fmap_app.
Qed.

Lemma get_elem_of_NoDup k v d :
  NoDup (PyDict.keys d) -> (k, v) ∈ d -> PyDict.get k d = Some v.
Proof.
  unfold PyDict.keys.
  induction d as [| [k0 v0] d IH]; simpl; intros Hnd Hin.
  - by apply elem_of_nil in Hin.
  - apply NoDup_cons in Hnd as [Hk0 Hnd].
    apply elem_of_cons in Hin as [[= -> ->] | Hin].
    + by rewrite decide_True.
    + destruct (decide (k = k0)) as [-> | Hne]; [| by apply IH].
      exfalso. apply Hk0. apply list_elem_of_fmap. by exists (k0, v).
Qed.
End pydict_more.

Lemma fill_missing_lookup (node stored : gmap string value) (k : string) :
  fill_missing node stored !! k = (stored ∪ node) !! k.
Proof.
  unfold fill_missing. revert k.
  apply (map_fold_weak_ind
           (fun r m => forall k, r !! k = (stored ∪ m) !! k)).
  - intros k. by rewrite (right_id_L ∅ (∪)).
  - intros i x m r Hm IH k.
    assert (Hri : r !! i = stored !! i).
    { rewrite IH. by apply lookup_union_l. }
    destruct (decide (k = i)) as [-> | Hk].
    + rewrite Hri. destruct (stored !! i) as [v |] eqn:Hs.
      * rewrite Hri. symmetry. by apply lookup_union_Some_l.
      * rewrite lookup_insert_eq, lookup_union_r by done.
        by rewrite lookup_insert_eq.
    + assert (Hgoal : (stored ∪ <[i:=x]> m) !! k = (stored ∪ m) !! k).
      { rewrite !lookup_union. by rewrite lookup_insert_ne. }
      rewrite Hgoal, <- IH.
      destruct (r !! i); [done | by rewrite lookup_insert_ne].
Qed.

Section node_facts.
Context (dumps_lsp : lsp -> string) (cfg : config).

Abbreviation add_node := (_add_node dumps_lsp cfg).

Lemma add_node_new node node_data st id :
  node !! "id" = Some id ->
  PyDict.get id (nodes_dict st) = None ->
  exists node',
    add_node node node_data st
    = Ok (set_nodes_dict (PyDict.set id node' (nodes_dict st)) st) /\
    forall k, k <> "description" -> node' !! k = node !! k.
Proof.
  intros Hid Hget. unfold _add_node, getitem. rewrite Hid. simpl.
  rewrite Hget. eexists. split; [reflexivity |].
  intros k Hk. destruct node_data; [destruct (add_data cfg) |]; try done.
  by rewrite lookup_insert_ne.
Qed.

Lemma add_node_seen node node_data st id stored :
  node !! "id" = Some id ->
  PyDict.get id (nodes_dict st) = Some stored ->
  exists stored',
    add_node node node_data st
    = Ok (set_nodes_dict (PyDict.set id stored' (nodes_dict st)) st) /\
    (forall k v, stored !! k = Some v -> stored' !! k = Some v) /\
    (forall k, stored !! k = None -> k <> "description" ->
               stored' !! k = node !! k).
Proof.
  intros Hid Hget. unfold _add_node, getitem. rewrite Hid. simpl.
  rewrite Hget. eexists. split; [reflexivity |].
  assert (Hkeep : forall k v, stored !! k = Some v ->
                              fill_missing node stored !! k = Some v).
  { intros k v Hk. rewrite fill_missing_lookup. by apply lookup_union_Some_l. }
  assert (Hfill : forall k, stored !! k = None ->
                            fill_missing node stored !! k = node !! k).
  { intros k Hk. rewrite fill_missing_lookup. by apply lookup_union_r. }
  destruct (fill_missing node stored !! "description") as [d |] eqn:Hdesc.
  { split; [exact Hkeep | by intros k Hk _; apply Hfill]. }
  destruct node_data as [r |]; [destruct (add_data cfg) |].
  - split.
    + intros k v Hk. destruct (decide (k = "description")) as [-> | Hne].
      * rewrite (Hkeep _ _ Hk) in Hdesc. discriminate.
      * rewrite lookup_insert_ne by done. by apply Hkeep.
    + intros k Hk Hne. rewrite lookup_insert_ne by done. by apply Hfill.
  - split; [exact Hkeep | by intros k Hk _; apply Hfill].
  - split; [exact Hkeep | by intros k Hk _; apply Hfill].
Qed.

Lemma node_step_refl st : nodes_ok st -> node_step [] st st.
Proof.
  intros Hok. split; [done |]. split.
  - intros id. split; [by left |]. intros [? | ?%elem_of_nil]; done.
  - intros id node k v ? ?. eauto.
Qed.

Lemma node_step_trans ids1 ids2 st1 st2 st3 :
  node_step ids1 st1 st2 -> node_step ids2 st2 st3 ->
  node_step (ids1 ++ ids2) st1 st3.
Proof.
  intros (_ & Hk1 & Hm1) (Hok & Hk2 & Hm2). split; [done |]. split.
  - intros id. rewrite Hk2, Hk1, elem_of_app. tauto.
  - intros id node k v Hget Hv.
    destruct (Hm1 _ _ _ _ Hget Hv) as (node1 & Hget1 & Hv1). eauto.
Qed.

Lemma node_step_same_nodes st st' :
  nodes_ok st -> nodes_dict st' = nodes_dict st -> node_step [] st st'.
Proof.
  intros Hok Heq. unfold node_step, nodes_ok, nodes_mono. rewrite Heq.
  split; [done |]. split.
  - intros id. split; [by left |]. intros [? | ?%elem_of_nil]; done.
  - eauto.
Qed.

Lemma add_node_step node node_data st id :
  node !! "id" = Some id -> nodes_ok st ->
  exists st',
    add_node node node_data st = Ok st' /\ node_step [id] st st' /\
    heap st' = heap st /\ next_loc st' = next_loc st /\
    links_dict st' = links_dict st /\ graph_links st' = graph_links st.
Proof.
  intros Hid [Hnd Hall].
  destruct (PyDict.get id (nodes_dict st)) as [stored |] eqn:Hget.
  - destruct (add_node_seen node node_data st id stored Hid Hget)
      as (stored' & -> & Hkeep & _).
    eexists. split; [reflexivity |]. split; [| done].
    assert (Hsid : stored !! "id" = Some id).
    { rewrite Forall_forall in Hall.
      by apply (Hall (id, stored)), get_Some_elem_of. }
    unfold node_step, nodes_ok, nodes_mono. simpl. split_and!.
    + by rewrite keys_set by eauto.
    + apply Forall_forall. intros kv [-> | Hin]%elem_of_set; simpl.
      * by apply Hkeep.
      * rewrite Forall_forall in Hall. by apply Hall.
    + intros id'. rewrite keys_set by eauto. split; [by left |].
      intros [? | ->%list_elem_of_singleton]; [done |].
      apply get_is_Some_keys. eauto.
    + intros id' node0 k v Hget0 Hv.
      destruct (decide (id = id')) as [<- | Hne].
      * rewrite get_set_eq. eexists. split; [done |].
        rewrite Hget in Hget0. injection Hget0 as <-. by apply Hkeep.
      * rewrite get_set_ne by done. eauto.
  - destruct (add_node_new node node_data st id Hid Hget)
      as (node' & -> & Hsame).
    eexists. split; [reflexivity |]. split; [| done].
    unfold node_step, nodes_ok, nodes_mono. simpl. split_and!.
    + rewrite keys_set_absent by done. apply NoDup_app.
      split; [done |]. split; [| apply NoDup_singleton].
      intros x Hx ->%list_elem_of_singleton. by apply get_None_keys in Hget.
    + apply Forall_forall. intros kv [-> | Hin]%elem_of_set; simpl.
      * by rewrite Hsame.
      * rewrite Forall_forall in Hall. by apply Hall.
    + intros id'. rewrite keys_set_absent by done. apply elem_of_app.
    + intros id' node0 k v Hget0 Hv.
      destruct (decide (id = id')) as [<- | Hne]; [congruence |].
      rewrite get_set_ne by done. eauto.
Qed.
End node_facts.

Section build_facts.
Context (fnmatchcase : string -> string -> bool) (jval : Type)
        (json_dumps : gmap string jval -> string)
        (adj_json : string -> adjacency -> jval)
        (dumps_lsp : lsp -> string) (cfg : config).

Abbreviation form_b :=
  (_form_base_graph_dict fnmatchcase jval json_dumps adj_json dumps_lsp cfg).
Abbreviation lsp_b :=
  (_process_lsp fnmatchcase jval json_dumps adj_json dumps_lsp cfg).
Abbreviation adjacency_b :=
  (process_adjacency fnmatchcase jval json_dumps adj_json cfg).
Abbreviation network_b := (process_network jval json_dumps dumps_lsp cfg).

Lemma add_link_total l data st link_hash :
  _make_hash_tuple (deref st l) = Ok link_hash ->
  exists st', _add_link jval json_dumps cfg l data st = Ok st'.
Proof.
  intros Hhash. unfold _add_link. rewrite Hhash. simpl.
  destruct (link_in _ l _); eauto.
Qed.

Lemma deref_alloc link st : deref (alloc link st).2 (alloc link st).1 = link.
Proof. unfold deref, alloc. simpl. apply lookup_total_insert_eq. Qed.

Lemma make_hash_tuple_adjacency_link r isis_pid a :
  exists link_hash, _make_hash_tuple (adjacency_link r isis_pid a) = Ok link_hash.
Proof.
  eexists.
  apply (make_hash_tuple_strings _ (lsp_hostname r) (adj_peer_name a)
           (Some (fmt2 isis_pid (str_replace "Level-" "L" (lsp_level r)))));
    reflexivity.
Qed.

Lemma make_hash_tuple_subnet_link r n :
  exists link_hash, _make_hash_tuple (subnet_link r n) = Ok link_hash.
Proof.
  eexists.
  apply (make_hash_tuple_strings _ (lsp_hostname r) (net_network n)
           (Some (lsp_level r))); reflexivity.
Qed.

Lemma process_adjacency_nodes r isis_pid a st :
  exists st', adjacency_b r isis_pid a st = Ok st' /\
              nodes_dict st' = nodes_dict st.
Proof.
  unfold process_adjacency. destruct (filtered fnmatchcase cfg a); [eauto |].
  destruct (alloc _ st) as [l st1] eqn:Halloc.
  assert (Hderef : deref st1 l = adjacency_link r isis_pid a).
  { pose proof (deref_alloc (adjacency_link r isis_pid a) st) as H.
    by rewrite Halloc in H. }
  destruct (make_hash_tuple_adjacency_link r isis_pid a) as [h Hh].
  rewrite <- Hderef in Hh.
  destruct (add_link_total l (Some (adjacency_data jval adj_json r isis_pid a))
              st1 h Hh) as [st' Hst'].
  exists st'. split; [done |].
  apply add_link_ok in Hst' as (_ & _ & -> & _).
  by injection Halloc as _ <-.
Qed.

Lemma process_adjacencies_nodes r isis_pid links st :
  exists st', for_each (adjacency_b r isis_pid) links st = Ok st' /\
              nodes_dict st' = nodes_dict st.
Proof.
  revert st. induction links as [| a links IH]; simpl; intros st; [eauto |].
  destruct (process_adjacency_nodes r isis_pid a st) as (st1 & -> & H1).
  simpl. destruct (IH st1) as (st' & -> & H'). exists st'.
  split; [done | congruence].
Qed.

Lemma node_step_ids ids ids' st st' :
  (forall id, id ∈ ids <-> id ∈ ids') ->
  node_step ids st st' -> node_step ids' st st'.
Proof.
  intros Hids (Hok & Hkeys & Hmono). split; [done |]. split; [| done].
  intros id. by rewrite Hkeys, Hids.
Qed.

Lemma process_network_step r n st :
  nodes_ok st ->
  exists st', network_b r n st = Ok st' /\
              node_step [VStr (net_network n)] st st'.
Proof.
  intros Hok. unfold process_network.
  destruct (add_node_step dumps_lsp cfg (subnet_node n) None st
              (VStr (net_network n)) eq_refl Hok)
    as (st1 & -> & Hstep & _). rewrite bind_Ok.
  destruct (alloc _ st1) as [l st2] eqn:Halloc.
  assert (Hderef : deref st2 l = subnet_link r n).
  { pose proof (deref_alloc (subnet_link r n) st1) as H.
    by rewrite Halloc in H. }
  destruct (make_hash_tuple_subnet_link r n) as [h Hh].
  rewrite <- Hderef in Hh.
  destruct (add_link_total l None st2 h Hh) as [st' Hst'].
  exists st'. split; [done |].
  apply add_link_ok in Hst' as (_ & _ & Hnodes & _).
  assert (Hnodes' : nodes_dict st' = nodes_dict st1).
  { rewrite Hnodes. by injection Halloc as _ <-. }
  destruct Hstep as (Hok1 & Hkeys & Hmono).
  unfold node_step, nodes_ok, nodes_mono. by rewrite Hnodes'.
Qed.

Lemma for_each_step {A : Type} (body : A -> state -> result state)
    (ids : A -> list value) (xs : list A) :
  (forall x st, nodes_ok st ->
     exists st', body x st = Ok st' /\ node_step (ids x) st st') ->
  forall st, nodes_ok st ->
    exists st', for_each body xs st = Ok st' /\ node_step (xs ≫= ids) st st'.
Proof.
  intros Hbody. induction xs as [| x xs IH]; simpl; intros st Hok.
  - exists st. split; [done | by apply node_step_refl].
  - destruct (Hbody x st Hok) as (st1 & -> & Hstep1). simpl.
    destruct (IH st1) as (st' & -> & Hstep'); [apply Hstep1 |].
    exists st'. split; [done |]. by eapply node_step_trans.
Qed.

Lemma process_lsp_step r isis_pid st :
  nodes_ok st ->
  exists st', lsp_b r isis_pid st = Ok st' /\ node_step (lsp_ids cfg r) st st'.
Proof.
  intros Hok. unfold _process_lsp.
  destruct (add_node_step dumps_lsp cfg (router_node r) (Some r) st
              (VStr (lsp_hostname r)) eq_refl Hok)
    as (st1 & -> & Hstep1 & _). simpl.
  destruct (process_adjacencies_nodes r isis_pid (lsp_links r) st1)
    as (st2 & -> & Hnodes2). simpl.
  assert (Hok1 : nodes_ok st1) by apply Hstep1.
  assert (Hstep2 : node_step [] st1 st2)
    by (by apply node_step_same_nodes).
  assert (Hok2 : nodes_ok st2) by apply Hstep2.
  unfold lsp_ids. destruct (add_connected cfg).
  - destruct (for_each_step (network_b r)
                (fun n => [VStr (net_network n)]) (lsp_networks r)
                (process_network_step r) st2 Hok2) as (st' & -> & Hstep3).
    exists st'. split; [done |].
    eapply node_step_ids;
      [| exact (node_step_trans _ _ _ _ _ Hstep1
                  (node_step_trans _ _ _ _ _ Hstep2 Hstep3))].
    intros id. simpl. rewrite !elem_of_cons, list_elem_of_bind, list_elem_of_fmap.
    split.
    + intros [-> | (n & ->%list_elem_of_singleton & Hn)]; eauto.
    + intros [-> | (n & -> & Hn)]; [by left | right].
      exists n. split; [by apply list_elem_of_singleton | done].
  - exists st2. split; [done |].
    eapply node_step_ids;
      [| exact (node_step_trans _ _ _ _ _ Hstep1 Hstep2)].
    done.
Qed.

Lemma form_base_graph_dict_step parsed st :
  nodes_ok st ->
  exists st', form_b parsed st = Ok st' /\
              node_step (parsed_ids cfg parsed) st st'.
Proof.
  unfold _form_base_graph_dict, parsed_ids. revert st.
  apply for_each_step. intros d. unfold process_device.
  apply for_each_step. intros [isis_pid lsps]. unfold process_isis. simpl.
  apply for_each_step. intros r. apply process_lsp_step.
Qed.
End build_facts.

Section node_dedup.
Context (fnmatchcase : string -> string -> bool) (jval : Type)
        (json_dumps : gmap string jval -> string)
        (adj_json : string -> adjacency -> jval)
        (dumps_lsp : lsp -> string) (cfg : config).

(** C4. From a state whose nodes are stored once each under their own id,
    graph building always completes and leaves exactly one node per id:
    the keys are the old ones and the reported ids, without repetition,
    each node carries its key as [id], and so the ids of the node list are
    pairwise different.  Every attribute a stored node had is still there
    with the same value.  On a repeat sighting [_add_node] keeps every
    attribute the stored node has and takes from the new dictionary only
    attributes the stored node lacks. *)
Theorem form_base_graph_dict_nodes (parsed : list device) (st : state) :
  nodes_ok st ->
  exists st',
    _form_base_graph_dict fnmatchcase jval json_dumps adj_json dumps_lsp cfg
      parsed st = Ok st' /\
    NoDup (PyDict.keys (nodes_dict st')) /\
    (forall id node, (id, node) ∈ nodes_dict st' -> node !! "id" = Some id) /\
    NoDup ((fun node : gmap string value => node !! "id")
             <$> PyDict.values (nodes_dict st')) /\
    (forall id, id ∈ PyDict.keys (nodes_dict st')
                <-> id ∈ PyDict.keys (nodes_dict st)
                    \/ id ∈ parsed_ids cfg parsed) /\
    (forall id node k v,
       PyDict.get id (nodes_dict st) = Some node -> node !! k = Some v ->
       exists node', PyDict.get id (nodes_dict st') = Some node' /\
                     node' !! k = Some v) /\
    (forall node node_data s id stored,
       node !! "id" = Some id ->
       PyDict.get id (nodes_dict s) = Some stored ->
       exists stored',
         _add_node dumps_lsp cfg node node_data s
         = Ok (set_nodes_dict (PyDict.set id stored' (nodes_dict s)) s) /\
         (forall k v, stored !! k = Some v -> stored' !! k = Some v) /\
         (forall k, stored !! k = None -> k <> "description" ->
                    stored' !! k = node !! k)).
Proof.
  intros Hok.
  destruct (form_base_graph_dict_step fnmatchcase jval json_dumps adj_json
              dumps_lsp cfg parsed st Hok)
    as (st' & Hform & [Hnd Hall] & Hkeys & Hmono).
  exists st'. split; [exact Hform |]. split; [exact Hnd |].
  rewrite Forall_forall in Hall.
  split; [intros id node Hin; apply (Hall (id, node) Hin) |].
  split; [| split; [exact Hkeys | split; [exact Hmono |]]].
  - assert (Hids : (fun node : gmap string value => node !! "id")
                     <$> PyDict.values (nodes_dict st')
                   = Some <$> PyDict.keys (nodes_dict st')).
    { unfold PyDict.values, PyDict.keys. rewrite <- !list_fmap_compose.
      apply list_fmap_ext. intros i kv Hi. simpl.
      apply Hall. by eapply list_elem_of_lookup_2. }
    rewrite Hids. apply NoDup_fmap_2; [apply _ | exact Hnd].
  - intros. by apply add_node_seen.
Qed.
End node_dedup.

Lemma nodes_ok_init : nodes_ok init_state.
Proof. split; [apply NoDup_nil_2 | apply Forall_nil_2]. Qed.

Lemma form_base_graph_dict_nodes_witness :
  exists st',
    toy_form default_config [device_X; device_X; device_Y] init_state
    = Ok st' /\
    NoDup (PyDict.keys (nodes_dict st')) /\
    (forall id node, (id, node) ∈ nodes_dict st' -> node !! "id" = Some id) /\
    NoDup ((fun node : gmap string value => node !! "id")
             <$> PyDict.values (nodes_dict st')) /\
    (forall id, id ∈ PyDict.keys (nodes_dict st')
                <-> id ∈ PyDict.keys (nodes_dict init_state)
                    \/ id ∈ parsed_ids default_config
                              [device_X; device_X; device_Y]) /\
    (forall id node k v,
       PyDict.get id (nodes_dict init_state) = Some node ->
       node !! k = Some v ->
       exists node', PyDict.get id (nodes_dict st') = Some node' /\
                     node' !! k = Some v) /\
    (forall node node_data s id stored,
       node !! "id" = Some id ->
       PyDict.get id (nodes_dict s) = Some stored ->
       exists stored',
         _add_node toy_dumps_lsp default_config node node_data s
         = Ok (set_nodes_dict (PyDict.set id stored' (nodes_dict s)) s) /\
         (forall k v, stored !! k = Some v -> stored' !! k = Some v) /\
         (forall k, stored !! k = None -> k <> "description" ->
                    stored' !! k = node !! k)).
Proof.
  apply (form_base_graph_dict_nodes glob_match string toy_dumps toy_adj_json
           toy_dumps_lsp default_config [device_X; device_X; device_Y]
           init_state).
  exact nodes_ok_init.
Defined.

(** A hostname reported three times is stored once, and a later sighting
    that proposes ["Subnet"] does not change the bottom label ["Node"]. *)
Example node_stored_once :
  (fun st => PyDict.keys (nodes_dict st))
    (unwrap (toy_form default_config [device_X; device_X; device_Y] init_state))
  = [VStr "R1"; VStr "R2"] /\
  stored_attribute "R1" "bottom_label"
    (toy_form config_connected [[("100", [lsp_R1_subnet])]] init_state)
  = Some (VStr "Node").
Proof. vm_compute. done. Qed.

(** ** Filter exclusion *)

Lemma links_view_with_nodes st1 st2 :
  links_view st1 = links_view st2 ->
  st2 = with_nodes (nodes_dict st2) (graph_nodes st2) st1.
Proof.
  destruct st1, st2. unfold links_view, with_nodes. simpl.
  by intros [= -> -> -> ->].
Qed.

Lemma links_view_of_with_nodes nd gn st :
  links_view (with_nodes nd gn st) = links_view st.
Proof. reflexivity. Qed.

Section with_nodes_facts.
Context (jval : Type) (json_dumps : gmap string jval -> string)
        (cfg : config).

Lemma add_link_with_nodes nd gn l data st :
  _add_link jval json_dumps cfg l data (with_nodes nd gn st)
  = rmap (with_nodes nd gn) (_add_link jval json_dumps cfg l data st).
Proof.
  unfold _add_link.
  change (deref (with_nodes nd gn st) l) with (deref st l).
  destruct (_make_hash_tuple (deref st l)) as [h | e]; [| done]. simpl.
  change (link_in (set_links_dict ?d (with_nodes nd gn st)))
    with (link_in (set_links_dict d st)).
  destruct (link_in _ l _); [done |].
  destruct data as [d |]; [| done].
  destruct (bool_decide (d ≠ ∅) && add_data cfg); done.
Qed.

Lemma add_link_links_view l data st1 st2 :
  links_view st1 = links_view st2 ->
  rmap links_view (_add_link jval json_dumps cfg l data st1)
  = rmap links_view (_add_link jval json_dumps cfg l data st2).
Proof.
  intros H. rewrite (links_view_with_nodes _ _ H), add_link_with_nodes.
  by destruct (_add_link jval json_dumps cfg l data st1).
Qed.
End with_nodes_facts.

Lemma for_each_links_only {A : Type} (body : A -> state -> result state)
    (xs : list A) :
  (forall x, links_only (body x)) -> links_only (for_each body xs).
Proof.
  intros Hbody nd gn. induction xs as [| x xs IH]; simpl; intros st; [done |].
  rewrite Hbody. destruct (body x st) as [st1 | e]; simpl; [apply IH | done].
Qed.

Lemma links_only_agree (f : state -> result state) :
  links_only f -> (forall st, exists st', f st = Ok st') -> links_agree f f.
Proof.
  intros Honly Htotal st1 st2 Hview.
  destruct (Htotal st1) as [st1' H1].
  exists st1', (with_nodes (nodes_dict st2) (graph_nodes st2) st1').
  split; [done |]. split; [| done].
  by rewrite (links_view_with_nodes _ _ Hview), Honly, H1.
Qed.

Lemma links_agree_seq (f1 g1 f2 g2 : state -> result state) :
  links_agree f1 g1 -> links_agree f2 g2 ->
  links_agree (fun st => bind (f1 st) f2) (fun st => bind (g1 st) g2).
Proof.
  intros H1 H2 st1 st2 Hview.
  destruct (H1 _ _ Hview) as (s1 & s2 & -> & -> & Hview').
  simpl. by apply H2.
Qed.

Lemma for_each_links_agree {A : Type} (body1 body2 : A -> state -> result state)
    (xs : list A) :
  (forall x, links_agree (body1 x) (body2 x)) ->
  links_agree (for_each body1 xs) (for_each body2 xs).
Proof.
  intros Hbody. induction xs as [| x xs IH]; simpl; intros st1 st2 Hview.
  - by exists st1, st2.
  - destruct (Hbody x _ _ Hview) as (s1 & s2 & -> & -> & Hview').
    simpl. by apply IH.
Qed.

Lemma for_each_fmap {A B : Type} (f : A -> B)
    (body : B -> state -> result state) (xs : list A) (st : state) :
  for_each body (f <$> xs) st = for_each (fun x => body (f x)) xs st.
Proof.
  revert st. induction xs as [| x xs IH]; simpl; intros st; [done |].
  destruct (body (f x) st); simpl; [apply IH | done].
Qed.

Lemma for_each_filter {A : Type} (keep : A -> bool)
    (body : A -> state -> result state) (xs : list A) (st : state) :
  (forall x s, keep x = false -> body x s = Ok s) ->
  for_each body (List.filter keep xs) st = for_each body xs st.
Proof.
  intros Hskip. revert st. induction xs as [| x xs IH]; simpl; intros st; [done |].
  destruct (keep x) eqn:Hx; simpl.
  - destruct (body x st); simpl; [apply IH | done].
  - rewrite (Hskip x st Hx). simpl. apply IH.
Qed.

Section filter_facts.
Context (fnmatchcase : string -> string -> bool) (jval : Type)
        (json_dumps : gmap string jval -> string)
        (adj_json : string -> adjacency -> jval)
        (dumps_lsp : lsp -> string) (cfg : config).

Abbreviation form_f :=
  (_form_base_graph_dict fnmatchcase jval json_dumps adj_json dumps_lsp cfg).
Abbreviation lsp_f :=
  (_process_lsp fnmatchcase jval json_dumps adj_json dumps_lsp cfg).
Abbreviation adjacency_f :=
  (process_adjacency fnmatchcase jval json_dumps adj_json cfg).
Abbreviation network_f := (process_network jval json_dumps dumps_lsp cfg).

Lemma process_adjacency_filtered r isis_pid a st :
  filtered fnmatchcase cfg a = true -> adjacency_f r isis_pid a st = Ok st.
Proof. intros H. unfold process_adjacency. by rewrite H. Qed.

Lemma process_adjacency_links_only r isis_pid a :
  links_only (adjacency_f r isis_pid a).
Proof.
  intros nd gn st. unfold process_adjacency.
  destruct (filtered fnmatchcase cfg a); [done |].
  change (alloc ?link (with_nodes nd gn st))
    with ((alloc link st).1, with_nodes nd gn (alloc link st).2).
  destruct (alloc _ st) as [l st1]. simpl. apply add_link_with_nodes.
Qed.

Lemma add_node_agree node node_data node_data' id :
  node !! "id" = Some id ->
  links_agree (_add_node dumps_lsp cfg node node_data)
              (_add_node dumps_lsp cfg node node_data').
Proof.
  intros Hid st1 st2 Hview.
  assert (Hstep : forall data st, exists st',
            _add_node dumps_lsp cfg node data st = Ok st' /\
            links_view st' = links_view st).
  { intros data st.
    destruct (PyDict.get id (nodes_dict st)) as [stored |] eqn:Hget.
    - destruct (add_node_seen dumps_lsp cfg node data st id stored Hid Hget)
        as (stored' & -> & _). eauto.
    - destruct (add_node_new dumps_lsp cfg node data st id Hid Hget)
        as (node' & -> & _). eauto. }
  destruct (Hstep node_data st1) as (st1' & -> & H1).
  destruct (Hstep node_data' st2) as (st2' & -> & H2).
  exists st1', st2'. split; [done |]. split; [done | congruence].
Qed.

Lemma process_network_agree r n : links_agree (network_f r n) (network_f r n).
Proof.
  unfold process_network.
  apply (links_agree_seq
           (_add_node dumps_lsp cfg (subnet_node n) None)
           (_add_node dumps_lsp cfg (subnet_node n) None)).
  - by apply (add_node_agree _ _ _ (VStr (net_network n))).
  - apply links_only_agree.
    + intros nd gn st.
      change (alloc ?link (with_nodes nd gn st))
        with ((alloc link st).1, with_nodes nd gn (alloc link st).2).
      destruct (alloc _ st) as [l st1]. simpl. apply add_link_with_nodes.
    + intros st. destruct (alloc _ st) as [l st1] eqn:Halloc.
      assert (Hderef : deref st1 l = subnet_link r n).
      { pose proof (deref_alloc (subnet_link r n) st) as H.
        by rewrite Halloc in H. }
      destruct (make_hash_tuple_subnet_link r n) as [h Hh].
      rewrite <- Hderef in Hh. by eapply add_link_total.
Qed.

Lemma process_lsp_unfiltered r isis_pid :
  links_agree (lsp_f r isis_pid)
              (lsp_f (unfiltered_lsp fnmatchcase cfg r) isis_pid).
Proof.
  unfold _process_lsp.
  apply (links_agree_seq
           (_add_node dumps_lsp cfg (router_node r) (Some r))
           (_add_node dumps_lsp cfg (router_node r)
              (Some (unfiltered_lsp fnmatchcase cfg r)))).
  { by apply (add_node_agree _ _ _ (VStr (lsp_hostname r))). }
  apply (links_agree_seq
           (for_each (adjacency_f r isis_pid) (lsp_links r))
           (for_each (adjacency_f r isis_pid)
              (List.filter (fun a => negb (filtered fnmatchcase cfg a))
                 (lsp_links r)))).
  - intros st1 st2 Hview. rewrite for_each_filter.
    + revert st1 st2 Hview. apply links_only_agree.
      * apply for_each_links_only. intros a.
        apply process_adjacency_links_only.
      * intros st.
        destruct (process_adjacencies_nodes fnmatchcase jval json_dumps
                    adj_json cfg r isis_pid (lsp_links r) st) as (st' & ? & _).
        eauto.
    + intros a s Ha. apply process_adjacency_filtered.
      by apply negb_false_iff.
  - destruct (add_connected cfg).
    + exact (for_each_links_agree (network_f r) (network_f r)
               (lsp_networks r) (process_network_agree r)).
    + intros st1 st2 Hview. by exists st1, st2.
Qed.

(** C5. An adjacency whose local IP, or the empty string when it has
    none, matches one of the filter patterns passes through the loop body
    without any effect: no link object is created and nothing is inserted.
    Graph building on the parsed records therefore always completes with
    the same heap of links and the same [links_dict] as on the records
    with every such adjacency removed, which is all the later stages take
    their links from. *)
Theorem filtered_adjacency_excluded (parsed : list device) (st : state) :
  (forall r isis_pid a s,
     existsb (fnmatchcase (default "" (adj_local_ip a))) (ptp_filter cfg)
     = true ->
     adjacency_f r isis_pid a s = Ok s) /\
  exists st1 st2,
    form_f parsed st = Ok st1 /\
    form_f (unfiltered fnmatchcase cfg parsed) st = Ok st2 /\
    heap st1 = heap st2 /\ links_dict st1 = links_dict st2 /\
    links_view st1 = links_view st2.
Proof.
  split; [intros r isis_pid a s; apply process_adjacency_filtered |].
  assert (Hagree : links_agree (form_f parsed)
                     (form_f (unfiltered fnmatchcase cfg parsed))).
  { unfold _form_base_graph_dict, unfiltered.
    intros st1 st2 Hview. rewrite for_each_fmap. revert st1 st2 Hview.
    apply for_each_links_agree. intros d. unfold process_device.
    intros st1 st2 Hview. rewrite for_each_fmap. revert st1 st2 Hview.
    apply for_each_links_agree. intros [isis_pid lsps]. unfold process_isis.
    simpl. intros st1 st2 Hview. rewrite for_each_fmap. revert st1 st2 Hview.
    apply for_each_links_agree. intros r. apply process_lsp_unfiltered. }
  destruct (Hagree st st eq_refl) as (st1 & st2 & H1 & H2 & Hview).
  exists st1, st2. split; [done |]. split; [done |].
  split; [| split; [| done]]; by injection Hview.
Qed.
End filter_facts.

(** ** Pairing within one group *)

Lemma make_hash_tuple_ext (x y : gmap string value) :
  x !! "source" = y !! "source" -> x !! "target" = y !! "target" ->
  x !! "label" = y !! "label" ->
  _make_hash_tuple x = _make_hash_tuple y.
Proof.
  intros Hs Ht Hl. unfold _make_hash_tuple, getitem. by rewrite Hs, Ht, Hl.
Qed.

Lemma strip_lookup link k :
  k <> "local_intf_id" -> k <> "peer_intf_id" ->
  k <> "peer_ip" -> k <> "local_ip" ->
  strip link !! k = link !! k.
Proof. intros. unfold strip. by rewrite !lookup_delete_ne. Qed.

Lemma make_hash_tuple_strip link :
  _make_hash_tuple (strip link) = _make_hash_tuple link.
Proof. apply make_hash_tuple_ext; by rewrite strip_lookup. Qed.

Lemma index_where_ext {A : Type} (p q : A -> bool) (l : list A) :
  (forall x, x ∈ l -> p x = q x) -> index_where p l = index_where q l.
Proof.
  induction l as [| x l IH]; simpl; intros H; [done |].
  rewrite (H x) by left. rewrite IH; [done |]. intros y Hy. apply H. by right.
Qed.

Lemma is_pair_eval peer_key local_key local peer link u v :
  link !! peer_key = Some u -> link !! local_key = Some v ->
  is_pair peer_key local_key local peer link
  = Ok (bool_decide (u = local) && bool_decide (v = peer)).
Proof.
  intros Hu Hv. unfold is_pair, getitem. rewrite Hu. simpl.
  destruct (bool_decide (u = local)); simpl; [by rewrite Hv | done].
Qed.

Lemma find_pair_ext st st' peer_key local_key local peer links :
  (forall x, x ∈ links -> deref st' x = deref st x) ->
  find_pair st' peer_key local_key local peer links
  = find_pair st peer_key local_key local peer links.
Proof.
  induction links as [| x links IH]; simpl; intros H; [done |].
  rewrite (H x) by left. rewrite IH; [done |]. intros y Hy. apply H. by right.
Qed.

Section pairing_facts.
Context (jval : Type) (json_dumps : gmap string jval -> string)
        (json_loads : string -> result (gmap string jval))
        (cfg : config).

Abbreviation add_link_p := (_add_link jval json_dumps cfg).
Abbreviation merge_p := (merge_pair jval json_dumps json_loads cfg).
Abbreviation candidate_p := (pack_candidate jval json_dumps json_loads cfg).
Abbreviation loop_p := (pack_loop jval json_dumps json_loads cfg).
Abbreviation group_p := (pack_group jval json_dumps json_loads cfg).

(** The loop body, with the two correlation branches read as one. *)
Lemma pack_candidate_eq l links st a b c d :
  deref st l !! "local_intf_id" = Some a ->
  deref st l !! "peer_intf_id" = Some b ->
  deref st l !! "peer_ip" = Some c ->
  deref st l !! "local_ip" = Some d ->
  candidate_p l links st
  = let st1 := write l (strip (deref st l)) st in
    bind (chosen_partner st1 a b c d links) (fun found =>
      match found with
      | Some l2 =>
          bind (merge_p l l2 links st1) (fun r => Ok (r.1, delete r.2 links))
      | None => bind (add_link_p l None st1) (fun st3 => Ok (st3, links))
      end).
Proof.
  intros Ha Hb Hc Hd. unfold pack_candidate.
  rewrite (pop_correlation_present _ _ _ _ _ Ha Hb Hc Hd). simpl.
  unfold chosen_partner, try_pair.
  destruct (truthy a && truthy b).
  - destruct (find_pair _ _ _ _ _ _) as [[l2 |] | e]; simpl; try done.
    by destruct (merge_pair _ _ _ _ _ _ _ _) as [[st' i] | e].
  - destruct (truthy d && truthy c); [| done].
    destruct (find_pair _ _ _ _ _ _) as [[l2 |] | e]; simpl; try done.
    by destruct (merge_pair _ _ _ _ _ _ _ _) as [[st' i] | e].
Qed.

Lemma add_link_no_data l st st' :
  add_link_p l None st = Ok st' -> heap st' = heap st.
Proof.
  unfold _add_link. intros H. inv_bind H as h Hh. cbv zeta in H.
  destruct (link_in _ l _); by injection H as <-.
Qed.

(** A link that is not yet listed under its key is appended. *)
Lemma add_link_fresh l data st hash :
  _make_hash_tuple (deref st l) = Ok hash ->
  link_in st l (group_of st hash) = false ->
  exists st',
    add_link_p l data st = Ok st' /\
    group_of st' hash = (group_of st hash ++ [l])%list /\
    (forall hash', hash' <> hash -> group_of st' hash' = group_of st hash') /\
    (forall x, x <> l -> deref st' x = deref st x) /\
    (forall k, k <> "description" -> deref st' l !! k = deref st l !! k) /\
    (data = None -> deref st' l = deref st l) /\
    (is_Some (PyDict.get hash (links_dict st)) ->
     length (links_dict st') = length (links_dict st)).
Proof.
  intros Hhash Hin.
  destruct (add_link_total jval json_dumps cfg l data st hash Hhash)
    as [st' Hst'].
  exists st'. split; [done |].
  assert (Hnone : data = None -> heap st' = heap st).
  { intros ->. by apply (add_link_no_data l). }
  apply add_link_ok in Hst'
    as (h & Hh & _ & _ & _ & _ & Hne & Heq & Hld).
  rewrite Hhash in Hh. injection Hh as <-. cbv zeta in Hld.
  unfold group_of in Hin. rewrite Hin in Hld.
  unfold group_of. rewrite Hld. split_and!.
  - by rewrite get_set_eq.
  - intros hash' Hne'. by rewrite get_set_ne, get_setdefault_ne.
  - exact Hne.
  - intros k Hk. destruct Heq as [-> | [s ->]]; [done |].
    by rewrite lookup_insert_ne.
  - intros Hd. unfold deref. by rewrite (Hnone Hd).
  - intros [g Hg]. rewrite length_set.
    + by rewrite (setdefault_present _ _ _ _ Hg).
    + rewrite get_setdefault_eq. eauto.
Qed.

Lemma link_in_false st l links :
  (forall x, x ∈ links -> deref st x <> deref st l) ->
  link_in st l links = false.
Proof.
  intros H. apply not_true_is_false. intros Hin.
  apply link_in_true in Hin as (x & Hx & Heq). by apply (H x).
Qed.

Lemma group_of_write l link st hash :
  group_of (write l link st) hash = group_of st hash.
Proof. reflexivity. Qed.

(** The merge of a candidate with the partner the scan found. *)
Lemma merge_pair_spec l l2 links st hash s2 d1s d1 d2s d2
    pid1 lvl1 pid2 lvl2 i :
  l <> l2 -> l ∉ links -> l ∉ group_of st hash ->
  index_where (fun x => bool_decide (deref st x = deref st l2)) links = Some i ->
  _make_hash_tuple (deref st l) = Ok hash ->
  is_Some (PyDict.get hash (links_dict st)) ->
  (forall x, x ∈ group_of st hash -> deref st x !! "trgt_label" <> Some s2) ->
  deref st l2 !! "src_label" = Some s2 ->
  deref st l !! "description" = Some (VStr d1s) -> json_loads d1s = Ok d1 ->
  deref st l2 !! "description" = Some (VStr d2s) -> json_loads d2s = Ok d2 ->
  deref st l !! "label" = Some (VStr (fmt2 pid1 lvl1)) ->
  count_char ":" pid1 = 0 -> count_char ":" lvl1 = 0 ->
  deref st l2 !! "label" = Some (VStr (fmt2 pid2 lvl2)) ->
  count_char ":" pid2 = 0 -> count_char ":" lvl2 = 0 ->
  exists st',
    merge_p l l2 links st = Ok (st', i) /\
    group_of st' hash = (group_of st hash ++ [l])%list /\
    (forall hash', hash' <> hash -> group_of st' hash' = group_of st hash') /\
    (forall x, x <> l -> deref st' x = deref st x) /\
    deref st' l !! "trgt_label" = Some s2 /\
    (forall k, k <> "trgt_label" -> k <> "description" -> k <> "label" ->
               deref st' l !! k = deref st l !! k) /\
    length (links_dict st') = length (links_dict st).
Proof.
  intros Hne Hlinks Hgroup Hidx Hhash Hkey Htrgt Hsrc Hd1 Hl1 Hd2 Hl2
         Hlab1 Hp1 Hv1 Hlab2 Hp2 Hv2.
  unfold merge_pair. rewrite (proj2 (getitem_ok _ _ _) Hsrc), bind_Ok.
  set (st1 := write l (<["trgt_label" := s2]> (deref st l)) st).
  assert (Hst1l : deref st1 l = <["trgt_label" := s2]> (deref st l))
    by apply deref_write_eq.
  assert (Hst1x : forall x, x <> l -> deref st1 x = deref st x).
  { intros x Hx. by apply deref_write_ne. }
  unfold loads_description.
  rewrite Hst1l, (Hst1x l2) by done.
  rewrite (proj2 (getitem_ok _ "description" (VStr d1s)))
    by (by rewrite lookup_insert_ne).
  rewrite bind_Ok, Hl1, bind_Ok.
  rewrite (proj2 (getitem_ok _ _ _) Hd2), bind_Ok, Hl2, bind_Ok.
  assert (Hhash1 : _make_hash_tuple (deref st1 l) = Ok hash).
  { rewrite <- Hhash, Hst1l. apply make_hash_tuple_ext;
      by rewrite lookup_insert_ne. }
  assert (Hin1 : link_in st1 l (group_of st1 hash) = false).
  { apply link_in_false. intros x Hx Heq.
    change (group_of st1 hash) with (group_of st hash) in Hx.
    assert (Hxl : x <> l) by (by intros ->).
    rewrite (Hst1x x Hxl), Hst1l in Heq.
    apply (Htrgt x Hx). by rewrite Heq, lookup_insert_eq. }
  destruct (add_link_fresh l (Some (d2 ∪ d1)) st1 hash Hhash1 Hin1)
    as (st2 & -> & Hg2 & Hg2' & Hx2 & Hk2 & _ & Hlen2).
  rewrite bind_Ok.
  assert (Hlab1' : deref st2 l !! "label" = Some (VStr (fmt2 pid1 lvl1))).
  { rewrite Hk2 by done. by rewrite Hst1l, lookup_insert_ne. }
  assert (Hlab2' : deref st2 l2 !! "label" = Some (VStr (fmt2 pid2 lvl2))).
  { by rewrite Hx2, Hst1x by done. }
  rewrite (proj2 (getitem_ok _ _ _) Hlab1'), bind_Ok.
  rewrite (proj2 (getitem_ok _ _ _) Hlab2'), bind_Ok.
  assert (Hst3 : exists st3,
    (if bool_decide (VStr (fmt2 pid1 lvl1) ≠ VStr (fmt2 pid2 lvl2))
     then bind (merge_label (VStr (fmt2 pid1 lvl1)) (VStr (fmt2 pid2 lvl2)))
            (fun new_label =>
               Ok (write l (<["label" := VStr new_label]> (deref st2 l)) st2))
     else Ok st2) = Ok st3 /\
    links_dict st3 = links_dict st2 /\
    (forall x, x <> l -> deref st3 x = deref st2 x) /\
    (forall k, k <> "label" -> deref st3 l !! k = deref st2 l !! k)).
  { destruct (bool_decide _).
    - unfold merge_label. rewrite !split2_fmt2 by done. simpl.
      eexists. split; [reflexivity |]. split; [done |]. split.
      + intros x Hx. by apply deref_write_ne.
      + intros k Hk. by rewrite deref_write_eq, lookup_insert_ne.
    - exists st2. done. }
  destruct Hst3 as (st3 & -> & Hld3 & Hx3 & Hk3). rewrite bind_Ok.
  assert (Hidx3 : index_where
            (fun x => bool_decide (deref st3 x = deref st3 l2)) links = Some i).
  { rewrite <- Hidx. apply index_where_ext. intros x Hx.
    assert (Hxl : x <> l) by (by intros ->).
    by rewrite !Hx3, !Hx2, !Hst1x by done. }
  rewrite Hidx3. exists st3. split; [done |].
  assert (Hgrp : forall h, group_of st3 h = group_of st2 h).
  { intros h. unfold group_of. by rewrite Hld3. }
  split_and!.
  - by rewrite Hgrp, Hg2.
  - intros hash' Hh. by rewrite Hgrp, Hg2'.
  - intros x Hx. by rewrite Hx3, Hx2, Hst1x.
  - rewrite Hk3, Hk2 by done. by rewrite Hst1l, lookup_insert_eq.
  - intros k Hk1 Hk2' Hk3'. rewrite Hk3, Hk2 by done.
    by rewrite Hst1l, lookup_insert_ne.
  - rewrite Hld3. by apply Hlen2.
Qed.


Lemma find_pair_total st peer_key local_key local peer links :
  (forall x, x ∈ links ->
     is_Some (deref st x !! peer_key) /\ is_Some (deref st x !! local_key)) ->
  exists r, find_pair st peer_key local_key local peer links = Ok r.
Proof.
  induction links as [| x links IH]; simpl; intros H; [eauto |].
  destruct (H x) as [[u Hu] [v Hv]]; [left |].
  rewrite (is_pair_eval _ _ _ _ _ _ _ Hu Hv). simpl.
  destruct (_ && _); [eauto |]. apply IH. intros y Hy. apply H. by right.
Qed.

Lemma is_pair_true peer_key local_key local peer link :
  is_pair peer_key local_key local peer link = Ok true <->
  link !! peer_key = Some local /\ link !! local_key = Some peer.
Proof.
  unfold is_pair, getitem. split.
  - destruct (link !! peer_key) as [u |]; simpl; [| done].
    case_bool_decide; [subst | done].
    destruct (link !! local_key) as [v |]; simpl; [| done].
    intros [= H]. by apply bool_decide_eq_true in H as ->.
  - intros [-> ->]. simpl. by rewrite !bool_decide_eq_true_2.
Qed.

Lemma find_pair_Some st peer_key local_key local peer links l2 :
  find_pair st peer_key local_key local peer links = Ok (Some l2) ->
  l2 ∈ links /\
  deref st l2 !! peer_key = Some local /\
  deref st l2 !! local_key = Some peer /\
  exists i,
    index_where (fun x => bool_decide (deref st x = deref st l2)) links
    = Some i /\ links !! i = Some l2.
Proof.
  induction links as [| x links IH]; simpl; intros H; [done |].
  inv_bind H as m Hm. destruct m.
  - injection H as <-. apply is_pair_true in Hm as [Hu Hv].
    split; [left |]. split; [done |]. split; [done |].
    exists 0. by rewrite bool_decide_eq_true_2.
  - destruct (IH H) as (Hin & Hu & Hv & i & Hi & Hlook).
    split; [by right |]. split; [done |]. split; [done |].
    exists (S i). split; [| done].
    rewrite bool_decide_eq_false_2; [by rewrite Hi |].
    intros Heq. rewrite <- Heq in Hu, Hv.
    assert (Htrue : is_pair peer_key local_key local peer (deref st x) = Ok true)
      by (by apply is_pair_true).
    congruence.
Qed.

Lemma find_pair_None st peer_key local_key local peer links x :
  find_pair st peer_key local_key local peer links = Ok None ->
  x ∈ links ->
  ~ (deref st x !! peer_key = Some local /\
     deref st x !! local_key = Some peer).
Proof.
  induction links as [| y links IH]; simpl; intros H Hx.
  - by apply elem_of_nil in Hx.
  - inv_bind H as m Hm. destruct m; [done |].
    apply elem_of_cons in Hx as [-> | Hx]; [| by apply IH].
    intros Hpair. apply is_pair_true in Hpair. congruence.
Qed.

(** The candidate finds no partner and goes to the output as it is,
    without its correlation keys. *)
Lemma pack_candidate_unpaired l links st hash a b c d :
  deref st l !! "local_intf_id" = Some a ->
  deref st l !! "peer_intf_id" = Some b ->
  deref st l !! "peer_ip" = Some c ->
  deref st l !! "local_ip" = Some d ->
  chosen_partner (write l (strip (deref st l)) st) a b c d links = Ok None ->
  _make_hash_tuple (deref st l) = Ok hash ->
  is_Some (PyDict.get hash (links_dict st)) ->
  (forall x, x ∈ group_of st hash ->
             x <> l /\ deref st x <> strip (deref st l)) ->
  exists st',
    candidate_p l links st = Ok (st', links) /\
    group_of st' hash = (group_of st hash ++ [l])%list /\
    (forall x, x <> l -> deref st' x = deref st x) /\
    deref st' l = strip (deref st l) /\
    length (links_dict st') = length (links_dict st).
Proof.
  intros Ha Hb Hc Hd Hnone Hhash Hkey Hgroup.
  rewrite (pack_candidate_eq l links st a b c d Ha Hb Hc Hd). cbv zeta.
  rewrite Hnone, bind_Ok.
  set (st1 := write l (strip (deref st l)) st).
  assert (Hst1l : deref st1 l = strip (deref st l)) by apply deref_write_eq.
  assert (Hst1x : forall x, x <> l -> deref st1 x = deref st x).
  { intros x Hx. by apply deref_write_ne. }
  assert (Hhash1 : _make_hash_tuple (deref st1 l) = Ok hash).
  { by rewrite Hst1l, make_hash_tuple_strip. }
  assert (Hin1 : link_in st1 l (group_of st1 hash) = false).
  { apply link_in_false. intros x Hx.
    destruct (Hgroup x Hx) as [Hxl Hneq]. by rewrite Hst1x, Hst1l. }
  destruct (add_link_fresh l None st1 hash Hhash1 Hin1)
    as (st2 & -> & Hg2 & _ & Hx2 & _ & Hsame & Hlen2).
  rewrite bind_Ok. exists st2. split; [done |]. split_and!.
  - exact Hg2.
  - intros x Hx. by rewrite Hx2, Hst1x.
  - by rewrite Hsame.
  - by apply Hlen2.
Qed.

(** The candidate is merged with the partner the scan found, and the
    partner leaves the pool. *)
Lemma pack_candidate_paired l l2 links st hash a b c d :
  directional json_loads hash (deref st l) ->
  directional json_loads hash (deref st l2) ->
  deref st l !! "local_intf_id" = Some a ->
  deref st l !! "peer_intf_id" = Some b ->
  deref st l !! "peer_ip" = Some c ->
  deref st l !! "local_ip" = Some d ->
  chosen_partner (write l (strip (deref st l)) st) a b c d links
  = Ok (Some l2) ->
  l ∉ links -> l ∉ group_of st hash ->
  is_Some (PyDict.get hash (links_dict st)) ->
  (forall x, x ∈ group_of st hash ->
             deref st x !! "trgt_label" <> deref st l2 !! "src_label") ->
  exists st' i,
    candidate_p l links st = Ok (st', delete i links) /\
    links !! i = Some l2 /\
    group_of st' hash = (group_of st hash ++ [l])%list /\
    (forall x, x <> l -> deref st' x = deref st x) /\
    deref st' l !! "trgt_label" = deref st l2 !! "src_label" /\
    deref st' l !! "source" = deref st l !! "source" /\
    deref st' l !! "target" = deref st l !! "target" /\
    deref st' l !! "src_label" = deref st l !! "src_label" /\
    stripped (deref st' l) /\
    length (links_dict st') = length (links_dict st).
Proof.
  intros Hdir Hdir2 Ha Hb Hc Hd Hfound Hlinks Hgroup Hkey Htrgt.
  rewrite (pack_candidate_eq l links st a b c d Ha Hb Hc Hd). cbv zeta.
  rewrite Hfound, bind_Ok.
  set (st1 := write l (strip (deref st l)) st) in *.
  assert (Hst1l : deref st1 l = strip (deref st l)) by apply deref_write_eq.
  assert (Hst1x : forall x, x <> l -> deref st1 x = deref st x).
  { intros x Hx. by apply deref_write_ne. }
  assert (Hfind : exists i,
            l2 ∈ links /\
            index_where (fun x => bool_decide (deref st1 x = deref st1 l2)) links
            = Some i /\ links !! i = Some l2).
  { unfold chosen_partner in Hfound.
    destruct (truthy a && truthy b).
    - apply find_pair_Some in Hfound as (? & _ & _ & i & ? & ?). eauto.
    - destruct (truthy d && truthy c); [| done].
      apply find_pair_Some in Hfound as (? & _ & _ & i & ? & ?). eauto. }
  destruct Hfind as (i & Hl2in & Hidx & Hlook).
  assert (Hne : l <> l2) by (by intros ->).
  destruct Hdir as [Hhash _ _ _ _ _ _ (pid1 & lvl1 & Hlab1 & Hp1 & Hv1)
                      (d1s & d1 & Hd1 & Hl1)].
  destruct Hdir2 as [_ _ _ _ _ [s2 Hs2] _ (pid2 & lvl2 & Hlab2 & Hp2 & Hv2)
                       (d2s & d2 & Hd2 & Hl2)].
  destruct (merge_pair_spec l l2 links st1 hash s2 d1s d1 d2s d2
              pid1 lvl1 pid2 lvl2 i)
    as (st' & -> & Hg' & _ & Hx' & Ht' & Hk' & Hlen'); try done.
  - by rewrite Hst1l, make_hash_tuple_strip.
  - intros x Hx. change (group_of st1 hash) with (group_of st hash) in Hx.
    assert (Hxl : x <> l) by (by intros ->).
    rewrite Hst1x by done. rewrite <- Hs2. by apply Htrgt.
  - by rewrite Hst1x.
  - by rewrite Hst1l, strip_lookup.
  - by rewrite Hst1x.
  - by rewrite Hst1l, strip_lookup.
  - by rewrite Hst1x.
  - rewrite bind_Ok. simpl. exists st', i. split; [done |]. split_and!.
    + exact Hlook.
    + exact Hg'.
    + intros x Hx. by rewrite Hx', Hst1x.
    + by rewrite Ht', Hs2.
    + rewrite Hk' by done. by rewrite Hst1l, strip_lookup.
    + rewrite Hk' by done. by rewrite Hst1l, strip_lookup.
    + rewrite Hk' by done. by rewrite Hst1l, strip_lookup.
    + unfold stripped. rewrite !Hk' by done. rewrite Hst1l.
      apply strip_stripped.
    + exact Hlen'.
Qed.


Lemma pack_loop_S fuel links st :
  loop_p (S fuel) links st
  = match list_pop links with
    | None => Ok st
    | Some (links', l) =>
        bind (candidate_p l links' st) (fun r => loop_p fuel r.2 r.1)
    end.
Proof.
  simpl. destruct (list_pop links) as [[links' l] |]; [| done].
  by destruct (candidate_p l links' st) as [[st' links''] | e].
Qed.

Lemma chosen_partner_total st a b c d links :
  (forall x, x ∈ links ->
     is_Some (deref st x !! "local_intf_id") /\
     is_Some (deref st x !! "peer_intf_id") /\
     is_Some (deref st x !! "peer_ip") /\
     is_Some (deref st x !! "local_ip")) ->
  exists r, chosen_partner st a b c d links = Ok r /\
            forall l2, r = Some l2 -> l2 ∈ links.
Proof.
  intros H. unfold chosen_partner.
  assert (Hsome : forall pk lk local peer r,
            find_pair st pk lk local peer links = Ok r ->
            forall l2, r = Some l2 -> l2 ∈ links).
  { intros pk lk local peer r Hr l2 ->. by apply find_pair_Some in Hr as [? _]. }
  destruct (truthy a && truthy b).
  - destruct (find_pair_total st "peer_intf_id" "local_intf_id" a b links)
      as [r Hr]; [intros x Hx; destruct (H x Hx) as (? & ? & _); done |].
    exists r. split; [done | by eapply Hsome].
  - destruct (truthy d && truthy c).
    + destruct (find_pair_total st "peer_ip" "local_ip" d c links)
        as [r Hr]; [intros x Hx; destruct (H x Hx) as (_ & _ & ? & ?); done |].
      exists r. split; [done | by eapply Hsome].
    + exists None. split; [done | done].
Qed.

Lemma chosen_partner_nil st a b c d : chosen_partner st a b c d [] = Ok None.
Proof. unfold chosen_partner. by repeat case_match. Qed.

(** An interface-id pair is found by the interface-id scan. *)
Lemma chosen_partner_intf_pair st l2 links x y a b c d :
  intf_pair x y ->
  x !! "local_intf_id" = Some a -> x !! "peer_intf_id" = Some b ->
  l2 ∈ links -> deref st l2 = y ->
  chosen_partner st a b c d links <> Ok None.
Proof.
  intros (a' & b' & Hxa & Hxb & Hya & Hyb & Hta & Htb) Ha Hb Hin Hy Hnone.
  rewrite Hxa in Ha. rewrite Hxb in Hb.
  injection Ha as <-. injection Hb as <-.
  unfold chosen_partner in Hnone. rewrite Hta, Htb in Hnone. simpl in Hnone.
  apply (find_pair_None _ _ _ _ _ _ l2 Hnone Hin). by rewrite Hy.
Qed.

Lemma intf_pair_sym x y : intf_pair x y -> intf_pair y x.
Proof. intros (a & b & ? & ? & ? & ? & ? & ?). exists b, a. done. Qed.

(** The last link of a pool, next to one merged link in the output. *)
Lemma pack_loop_last fuel y m st hash :
  directional json_loads hash (deref st y) ->
  group_of st hash = [m] -> is_Some (PyDict.get hash (links_dict st)) ->
  y <> m -> is_Some (deref st m !! "trgt_label") ->
  exists st',
    loop_p (S (S fuel)) [y] st = Ok st' /\
    group_of st' hash = [m; y] /\
    deref st' y = strip (deref st y) /\
    deref st' m = deref st m /\
    length (links_dict st') = length (links_dict st).
Proof.
  intros Hdir Hgroup Hkey Hne [t Ht].
  pose proof Hdir as [Hhash [a Ha] [b Hb] [c Hc] [d Hd] _ Htrgt _ _].
  rewrite pack_loop_S. simpl list_pop.
  destruct (pack_candidate_unpaired y [] st hash a b c d)
    as (st' & -> & Hg' & Hx' & Hy' & Hlen'); try done.
  - apply chosen_partner_nil.
  - intros x. rewrite Hgroup. intros ->%list_elem_of_singleton.
    split; [done |]. intros Heq.
    rewrite Heq, strip_lookup, Htrgt in Ht by done. done.
  - rewrite bind_Ok. simpl. exists st'. split; [done |].
    rewrite Hg', Hgroup. split; [done |]. split; [done |].
    split; [by apply Hx' | done].
Qed.


Lemma group_of_cons_is_Some st hash x links :
  group_of st hash = x :: links ->
  is_Some (PyDict.get hash (links_dict st)).
Proof.
  unfold group_of. destruct (PyDict.get hash (links_dict st)); [eauto | done].
Qed.

(** Without a description on the candidate the merge raises at
    [json.loads(link["description"])], after the target label is set and
    before anything is added to the output. *)
Lemma merge_pair_no_description l l2 links st :
  is_Some (deref st l2 !! "src_label") ->
  deref st l !! "description" = None ->
  merge_p l l2 links st = Raise (KeyError "description").
Proof.
  intros [s Hs] Hd. unfold merge_pair, getitem. rewrite Hs, bind_Ok.
  cbv zeta. unfold loads_description at 1, getitem.
  by rewrite deref_write_eq, lookup_insert_ne, Hd.
Qed.

Lemma pack_candidate_no_description l l2 links st a b c d :
  deref st l !! "local_intf_id" = Some a ->
  deref st l !! "peer_intf_id" = Some b ->
  deref st l !! "peer_ip" = Some c ->
  deref st l !! "local_ip" = Some d ->
  chosen_partner (write l (strip (deref st l)) st) a b c d links
  = Ok (Some l2) ->
  l2 <> l ->
  is_Some (deref st l2 !! "src_label") ->
  deref st l !! "description" = None ->
  candidate_p l links st = Raise (KeyError "description").
Proof.
  intros Ha Hb Hc Hd Hfound Hne Hsrc Hdesc.
  rewrite (pack_candidate_eq l links st a b c d Ha Hb Hc Hd). cbv zeta.
  rewrite Hfound, bind_Ok. rewrite merge_pair_no_description; [done | |].
  - by rewrite deref_write_ne.
  - by rewrite deref_write_eq, strip_lookup.
Qed.

(** C2. The claim fails on links that carry no description, which is
    what the graph builder stores when [add_data] is off.  In a group of
    three such links of which exactly two form a valid interface-id
    pair, packing does not produce two entries: whichever link is the
    unpaired one, the first merge raises [KeyError('description')]. *)
Theorem pack_group_three_no_data (st : state) (hash : list string)
    (la lb lc : nat) :
  PyDict.get hash (links_dict st) = Some [la; lb; lc] ->
  NoDup [la; lb; lc] ->
  raw_no_data hash (deref st la) ->
  raw_no_data hash (deref st lb) ->
  raw_no_data hash (deref st lc) ->
  one_intf_pair (deref st la) (deref st lb) (deref st lc) ->
  group_p hash st = Raise (KeyError "description").
Proof.
  intros Hget Hnd Hra Hrb Hrc Hone.
  apply NoDup_cons in Hnd as [Hla Hnd].
  apply NoDup_cons in Hnd as [Hlb _].
  assert (Hab : la <> lb) by (intros ->; apply Hla; left).
  assert (Hac : la <> lc) by (intros ->; apply Hla; right; left).
  assert (Hbc : lb <> lc) by (intros ->; apply Hlb; left).
  unfold pack_group. rewrite Hget. simpl length.
  change (3 <=? 1)%nat with false. cbv iota.
  set (st0 := set_links_dict (PyDict.set hash [] (links_dict st)) st).
  assert (Hg0 : group_of st0 hash = []) by apply group_of_reset_eq.
  assert (Hk0 : is_Some (PyDict.get hash (links_dict st0))).
  { unfold st0. simpl. rewrite get_set_eq. eauto. }
  change (deref st la) with (deref st0 la) in *.
  change (deref st lb) with (deref st0 lb) in *.
  change (deref st lc) with (deref st0 lc) in *.
  clearbody st0. clear Hget.
  pose proof Hra as [_ [aa Haa] [ab Hab'] [ac Hac'] [ad Had] Hasrc Hadesc].
  pose proof Hrb as [_ [ba Hba] [bb Hbb] [bc Hbc'] [bd Hbd] Hbsrc Hbdesc].
  pose proof Hrc as [Hchash [ca Hca] [cb Hcb] [cc Hcc] [cd Hcd] Hcsrc Hcdesc].
  rewrite pack_loop_S. simpl list_pop.
  set (st1 := write lc (strip (deref st0 lc)) st0).
  destruct (chosen_partner_total st1 ca cb cc cd [la; lb]) as (r & Hr & Hin).
  { intros x Hx. unfold st1.
    apply elem_of_cons in Hx as [-> | Hx];
      [| apply list_elem_of_singleton in Hx as ->];
      rewrite deref_write_ne by done; eauto. }
  destruct r as [l2 |].
  { (* the last link finds a partner: the merge raises *)
    assert (Hl2 : l2 <> lc /\ is_Some (deref st0 l2 !! "src_label")).
    { specialize (Hin l2 eq_refl).
      apply elem_of_cons in Hin as [-> | Hin];
        [| apply list_elem_of_singleton in Hin as ->]; done. }
    destruct Hl2 as [Hne Hsrc].
    by rewrite (pack_candidate_no_description lc l2 [la; lb] st0 ca cb cc cd). }
  (* the last link finds none: it is the unpaired one *)
  assert (Hpair : intf_pair (deref st0 la) (deref st0 lb)).
  { destruct Hone as [(H & _ & _) | [(_ & H & _) | (_ & _ & H)]]; [done | |];
      exfalso; apply intf_pair_sym in H.
    - apply (chosen_partner_intf_pair st1 la [la; lb] _ _ ca cb cc cd H);
        [done | done | left | by apply deref_write_ne | done].
    - apply (chosen_partner_intf_pair st1 lb [la; lb] _ _ ca cb cc cd H);
        [done | done | right; left | by apply deref_write_ne | done]. }
  destruct (pack_candidate_unpaired lc [la; lb] st0 hash ca cb cc cd)
    as (st2 & -> & _ & Hx2 & _ & _); try done.
  { intros x. rewrite Hg0. intros Hx. by apply elem_of_nil in Hx. }
  rewrite bind_Ok. cbn [fst snd]. rewrite pack_loop_S. simpl list_pop.
  assert (Hdb : deref st2 lb = deref st0 lb) by (by apply Hx2).
  assert (Hda : deref st2 la = deref st0 la) by (by apply Hx2).
  set (st3 := write lb (strip (deref st2 lb)) st2).
  destruct (chosen_partner_total st3 ba bb bc bd [la]) as (r & Hr' & Hin').
  { intros x Hx. apply list_elem_of_singleton in Hx as ->. unfold st3.
    rewrite deref_write_ne, Hda by done. eauto. }
  destruct r as [l2 |].
  - specialize (Hin' l2 eq_refl). apply list_elem_of_singleton in Hin' as ->.
    rewrite (pack_candidate_no_description lb la [la] st2 ba bb bc bd);
      [done | by rewrite Hdb | by rewrite Hdb | by rewrite Hdb
      | by rewrite Hdb | exact Hr' | done | by rewrite Hda | by rewrite Hdb].
  - exfalso. apply intf_pair_sym in Hpair.
    apply (chosen_partner_intf_pair st3 la [la] _ _ ba bb bc bd Hpair);
      [done | done | left | | done].
    unfold st3. by rewrite deref_write_ne, Hda.
Qed.

(** X13. A group of exactly one link is left as it is.  A group of three
    raw directional links that carry a description and a label of the
    form [pid:level], of which exactly two form a valid interface-id
    pair, is packed into exactly two entries: one merged link [m], whose
    target label is the source label of its partner [p] and which keeps
    its own source, target and source label, and the one remaining link
    [u], which is the link it was apart from the four correlation keys
    that every candidate gives up. *)
Theorem pack_group_three (st : state) (hash : list string) (la lb lc : nat) :
  PyDict.get hash (links_dict st) = Some [la; lb; lc] ->
  NoDup [la; lb; lc] ->
  directional json_loads hash (deref st la) ->
  directional json_loads hash (deref st lb) ->
  directional json_loads hash (deref st lc) ->
  one_intf_pair (deref st la) (deref st lb) (deref st lc) ->
  (forall s h l, PyDict.get h (links_dict s) = Some [l] -> group_p h s = Ok s) /\
  exists st' m p u,
    group_p hash st = Ok st' /\
    Permutation [m; p; u] [la; lb; lc] /\
    (group_of st' hash = [m; u] \/ group_of st' hash = [u; m]) /\
    length (group_of st' hash) = 2 /\
    deref st' m !! "trgt_label" = deref st p !! "src_label" /\
    deref st' m !! "source" = deref st m !! "source" /\
    deref st' m !! "target" = deref st m !! "target" /\
    deref st' m !! "src_label" = deref st m !! "src_label" /\
    stripped (deref st' m) /\
    deref st' u = strip (deref st u).
Proof.
  intros Hget Hnd Hda Hdb Hdc Hone.
  split.
  { intros s h l Hs. unfold pack_group. by rewrite Hs. }
  apply NoDup_cons in Hnd as [Hla Hnd].
  apply NoDup_cons in Hnd as [Hlb _].
  assert (Hab : la <> lb) by (intros ->; apply Hla; left).
  assert (Hac : la <> lc) by (intros ->; apply Hla; right; left).
  assert (Hbc : lb <> lc) by (intros ->; apply Hlb; left).
  unfold pack_group. rewrite Hget. simpl length.
  change (3 <=? 1)%nat with false. cbv iota.
  set (st0 := set_links_dict (PyDict.set hash [] (links_dict st)) st).
  assert (Hg0 : group_of st0 hash = []) by apply group_of_reset_eq.
  assert (Hk0 : is_Some (PyDict.get hash (links_dict st0))).
  { unfold st0. simpl. rewrite get_set_eq. eauto. }
  change (deref st la) with (deref st0 la) in *.
  change (deref st lb) with (deref st0 lb) in *.
  change (deref st lc) with (deref st0 lc) in *.
  rewrite pack_loop_S. change (list_pop [la; lb; lc]) with (Some ([la; lb], lc)).
  cbv iota beta.
  pose proof Hdc as [_ [a Ha] [b Hb] [c Hc] [d Hd] _ HtC _ _].
  pose proof Hda as [_ [aA HaA] [bA HbA] [cA HcA] [dA HdA] [sA HsA] _ _ _].
  pose proof Hdb as [_ [aB HaB] [bB HbB] [cB HcB] [dB HdB] [sB HsB] _ _ _].
  set (st1 := write lc (strip (deref st0 lc)) st0).
  assert (H1a : deref st1 la = deref st0 la) by (by apply deref_write_ne).
  assert (H1b : deref st1 lb = deref st0 lb) by (by apply deref_write_ne).
  destruct (chosen_partner_total st1 a b c d [la; lb]) as (r & Hr & Hrin).
  { intros x [-> | ->%list_elem_of_singleton]%elem_of_cons.
    - rewrite H1a. eauto.
    - rewrite H1b. eauto. }
  destruct r as [x |].
  - (* the first candidate finds a partner *)
    specialize (Hrin x eq_refl).
    assert (Hdx : directional json_loads hash (deref st0 x)).
    { by apply elem_of_cons in Hrin as [-> | ->%list_elem_of_singleton]. }
    destruct (pack_candidate_paired lc x [la; lb] st0 hash a b c d)
      as (st2 & i & -> & Hlook & Hg2 & Hx2 & Ht2 & Hs2 & Htg2 & Hsl2 & Hstr2 & _);
      try done.
    { intros [? | ?%list_elem_of_singleton]%elem_of_cons; congruence. }
    { rewrite Hg0. apply not_elem_of_nil. }
    { intros y. rewrite Hg0. by intros ?%elem_of_nil. }
    rewrite bind_Ok. cbn [fst snd].
    rewrite Hg0 in Hg2. simpl in Hg2.
    assert (Hk2 : is_Some (PyDict.get hash (links_dict st2)))
      by (by eapply group_of_cons_is_Some).
    apply elem_of_cons in Hrin as [-> | ->%list_elem_of_singleton].
    + assert (i = 0) as ->.
      { destruct i as [| [| i]]; [done | simpl in Hlook; congruence |].
        simpl in Hlook. by rewrite lookup_nil in Hlook. }
      simpl delete.
      destruct (pack_loop_last 0 lb lc st2 hash)
        as (st' & -> & Hg' & Hu' & Hm' & _); try done.
      { by rewrite Hx2. }
      { rewrite Ht2, HsA. eauto. }
      exists st', lc, la, lb. split; [done |].
      rewrite Hg', Hm', Hu', (Hx2 lb) by done.
      split_and!;
        [| by left | done | exact Ht2 | exact Hs2 | exact Htg2 | exact Hsl2
         | exact Hstr2 | done].
      change [lc; la; lb] with ([lc] ++ [la; lb])%list.
      change [la; lb; lc] with ([la; lb] ++ [lc])%list.
      apply Permutation_app_comm.
    + assert (i = 1) as ->.
      { destruct i as [| [| i]]; [simpl in Hlook; congruence | done |].
        simpl in Hlook. by rewrite lookup_nil in Hlook. }
      simpl delete.
      destruct (pack_loop_last 0 la lc st2 hash)
        as (st' & -> & Hg' & Hu' & Hm' & _); try done.
      { by rewrite Hx2. }
      { rewrite Ht2, HsB. eauto. }
      exists st', lc, lb, la. split; [done |].
      rewrite Hg', Hm', Hu', (Hx2 la) by done.
      split_and!;
        [| by left | done | exact Ht2 | exact Hs2 | exact Htg2 | exact Hsl2
         | exact Hstr2 | done].
      etrans; [| apply (Permutation_app_comm [lc] [la; lb])].
      simpl. apply perm_skip, perm_swap.
  - (* the first candidate finds none: the pair is the other two *)
    assert (Hpair : intf_pair (deref st0 la) (deref st0 lb)).
    { destruct Hone as [(? & _) | [(_ & Hp & _) | (_ & _ & Hp)]]; [done | |];
        exfalso; apply intf_pair_sym in Hp.
      - apply (chosen_partner_intf_pair st1 la [la; lb] _ _ a b c d Hp);
          [done | done | left | done | done].
      - apply (chosen_partner_intf_pair st1 lb [la; lb] _ _ a b c d Hp);
          [done | done | right; left | done | done]. }
    destruct (pack_candidate_unpaired lc [la; lb] st0 hash a b c d)
      as (st2 & -> & Hg2 & Hx2 & Hlc2 & _); try done.
    { apply Hdc. }
    { intros y. rewrite Hg0. by intros ?%elem_of_nil. }
    rewrite bind_Ok. cbn [fst snd].
    rewrite Hg0 in Hg2. simpl in Hg2.
    assert (Hk2 : is_Some (PyDict.get hash (links_dict st2)))
      by (by eapply group_of_cons_is_Some).
    rewrite pack_loop_S. change (list_pop [la; lb]) with (Some ([la], lb)).
    cbv iota beta.
    assert (H2a : deref st2 la = deref st0 la) by (by apply Hx2).
    assert (H2b : deref st2 lb = deref st0 lb) by (by apply Hx2).
    set (st3 := write lb (strip (deref st2 lb)) st2).
    assert (Hchosen : chosen_partner st3 aB bB cB dB [la] = Ok (Some la)).
    { destruct Hpair as (a0 & b0 & HAa & HAb & HBa & HBb & Hta & Htb).
      assert (aB = b0) as -> by congruence.
      assert (bB = a0) as -> by congruence.
      unfold chosen_partner. rewrite Htb, Hta. simpl.
      assert (H3a : deref st3 la = deref st0 la).
      { unfold st3. by rewrite deref_write_ne. }
      rewrite (is_pair_eval _ _ _ _ _ b0 a0) by (by rewrite H3a).
      simpl. by rewrite !bool_decide_eq_true_2. }
    destruct (pack_candidate_paired lb la [la] st2 hash aB bB cB dB)
      as (st' & i & -> & Hlook & Hg' & Hx' & Ht' & Hs' & Htg' & Hsl' & Hstr' & _);
      try done; try (by rewrite ?H2a, ?H2b).
    { by intros ?%list_elem_of_singleton. }
    { rewrite Hg2. by intros ?%list_elem_of_singleton. }
    { intros y. rewrite Hg2. intros ->%list_elem_of_singleton.
      rewrite Hlc2, strip_lookup, HtC, H2a, HsA by done. done. }
    assert (i = 0) as ->.
    { destruct i as [| i]; [done |].
      simpl in Hlook. by rewrite lookup_nil in Hlook. }
    rewrite bind_Ok. cbn [fst snd]. simpl delete. rewrite pack_loop_S.
    simpl list_pop. cbv iota.
    exists st', lb, la, lc. split; [done |].
    rewrite Hg', Hg2, Ht', Hs', Htg', Hsl', H2a, H2b, (Hx' lc), Hlc2 by done.
    split_and!; [| by right | done ..].
    simpl. apply perm_swap.
Qed.

End pairing_facts.

Lemma directional_state_three (l : nat) :
  l ∈ [0; 1; 2] ->
  directional toy_loads ["100:L2"; "R1"; "R2"] (deref state_three l).
Proof.
  intros Hl.
  repeat (apply elem_of_cons in Hl as [-> | Hl]);
    [| | | by apply elem_of_nil in Hl];
    (split;
     [ vm_compute; reflexivity
     | eexists; vm_compute; reflexivity
     | eexists; vm_compute; reflexivity
     | eexists; vm_compute; reflexivity
     | eexists; vm_compute; reflexivity
     | eexists; vm_compute; reflexivity
     | vm_compute; reflexivity
     | exists "100", "L2"; vm_compute; done
     | do 2 eexists; split; vm_compute; reflexivity ]).
Defined.

Lemma one_intf_pair_state_three :
  one_intf_pair (deref state_three 0) (deref state_three 1)
    (deref state_three 2).
Proof.
  right. left. split; [| split].
  - intros (a & b & H1 & H2 & H3 & H4 & _).
    vm_compute in H1, H2, H3, H4. congruence.
  - exists (VStr "Gi1"), (VStr "Gi2"). vm_compute. done.
  - intros (a & b & H1 & H2 & H3 & H4 & _).
    vm_compute in H1, H2, H3, H4. congruence.
Defined.

Lemma pack_group_three_witness :
  (forall s h l,
     PyDict.get h (links_dict s) = Some [l] ->
     pack_group string toy_dumps toy_loads default_config h s = Ok s) /\
  exists st' m p u,
    toy_pack_group ["100:L2"; "R1"; "R2"] state_three = Ok st' /\
    Permutation [m; p; u] [0; 1; 2] /\
    (group_of st' ["100:L2"; "R1"; "R2"] = [m; u] \/
     group_of st' ["100:L2"; "R1"; "R2"] = [u; m]) /\
    length (group_of st' ["100:L2"; "R1"; "R2"]) = 2 /\
    deref st' m !! "trgt_label" = deref state_three p !! "src_label" /\
    deref st' m !! "source" = deref state_three m !! "source" /\
    deref st' m !! "target" = deref state_three m !! "target" /\
    deref st' m !! "src_label" = deref state_three m !! "src_label" /\
    stripped (deref st' m) /\
    deref st' u = strip (deref state_three u).
Proof.
  apply (pack_group_three string toy_dumps toy_loads default_config
           state_three ["100:L2"; "R1"; "R2"] 0 1 2).
  - vm_compute. reflexivity.
  - apply NoDup_cons. split.
    + intros H. repeat (apply elem_of_cons in H as [H | H]; [discriminate H |]).
      by apply elem_of_nil in H.
    + apply NoDup_cons. split; [| apply NoDup_singleton].
      intros H. apply list_elem_of_singleton in H. discriminate H.
  - apply directional_state_three. left.
  - apply directional_state_three. right. left.
  - apply directional_state_three. right. right. left.
  - exact one_intf_pair_state_three.
Defined.

(** The same group through [_pack_links]: the last link pairs with the
    first, the middle one stays, and the group has two entries. *)
Example pack_links_three :
  group_of (unwrap (toy_pack default_config state_three))
    ["100:L2"; "R1"; "R2"] = [2; 1] /\
  deref (unwrap (toy_pack default_config state_three)) 2 !! "trgt_label"
  = Some (VStr "Gi1:10") /\
  deref (unwrap (toy_pack default_config state_three)) 1
  = strip (deref state_three 1) /\
  toy_pack default_config state_R1_raw = Ok state_R1_raw.
Proof. vm_compute. done. Qed.

Lemma raw_no_data_state_three (l : nat) :
  l ∈ [0; 1; 2] ->
  raw_no_data ["100:L2"; "R1"; "R2"] (deref state_three_no_data l).
Proof.
  intros Hl.
  repeat (apply elem_of_cons in Hl as [-> | Hl]);
    [| | | by apply elem_of_nil in Hl];
    (split;
     [ vm_compute; reflexivity
     | eexists; vm_compute; reflexivity
     | eexists; vm_compute; reflexivity
     | eexists; vm_compute; reflexivity
     | eexists; vm_compute; reflexivity
     | eexists; vm_compute; reflexivity
     | vm_compute; reflexivity ]).
Qed.

Lemma one_intf_pair_state_three_no_data :
  one_intf_pair (deref state_three_no_data 0) (deref state_three_no_data 1)
    (deref state_three_no_data 2).
Proof.
  right. left. split; [| split].
  - intros (a & b & H1 & H2 & H3 & H4 & _).
    vm_compute in H1, H2, H3, H4. congruence.
  - exists (VStr "Gi1"), (VStr "Gi2"). vm_compute. done.
  - intros (a & b & H1 & H2 & H3 & H4 & _).
    vm_compute in H1, H2, H3, H4. congruence.
Qed.

Lemma pack_group_three_no_data_witness :
  pack_group string toy_dumps toy_loads config_no_data
    ["100:L2"; "R1"; "R2"] state_three_no_data
  = Raise (KeyError "description").
Proof.
  apply (pack_group_three_no_data string toy_dumps toy_loads config_no_data
           state_three_no_data ["100:L2"; "R1"; "R2"] 0 1 2).
  - vm_compute. reflexivity.
  - apply NoDup_cons. split.
    + intros H. repeat (apply elem_of_cons in H as [H | H]; [discriminate H |]).
      by apply elem_of_nil in H.
    + apply NoDup_cons. split; [| apply NoDup_singleton].
      intros H. apply list_elem_of_singleton in H. discriminate H.
  - apply raw_no_data_state_three. left.
  - apply raw_no_data_state_three. right. left.
  - apply raw_no_data_state_three. right. right. left.
  - exact one_intf_pair_state_three_no_data.
Defined.

(** The same through the pipeline with [add_data=False]: the three-link
    group is what the graph builder stores, [_pack_links] raises on it,
    and so does [work]; [work] raises as well on the plain case of two
    routers that report each other, where the one pair there is would
    merge. *)
Example pack_links_no_data_raises :
  group_of state_three_no_data ["100:L2"; "R1"; "R2"] = [0; 1; 2] /\
  toy_pack config_no_data state_three_no_data
  = Raise (KeyError "description") /\
  toy_work config_no_data [[("100", [lsp_R1_two])]; device_Y] init_state
  = Raise (KeyError "description") /\
  toy_work config_no_data [device_X; device_Y] init_state
  = Raise (KeyError "description").
Proof. vm_compute. done. Qed.

(** * Further properties of the code *)

(** ** The [while links] loop ends *)

Lemma list_pop_None {A : Type} (l : list A) : list_pop l = None -> l = [].
Proof.
  destruct l as [| y l]; simpl; [done |].
  by destruct (list_pop l) as [[? ?] |].
Qed.

Lemma list_pop_length {A : Type} (l l' : list A) (x : A) :
  list_pop l = Some (l', x) -> length l = S (length l').
Proof.
  revert l' x. induction l as [| y l IH]; simpl; intros l' x H; [done |].
  destruct (list_pop l) as [[r z] |] eqn:Hpop.
  - injection H as <- <-. simpl. f_equal. by eapply IH.
  - injection H as <- <-. by rewrite (list_pop_None l Hpop).
Qed.

Lemma length_delete_le {A : Type} (i : nat) (l : list A) :
  length (delete i l) <= length l.
Proof.
  revert i. induction l as [| x l IH]; intros [| i]; simpl; try lia.
  specialize (IH i). lia.
Qed.

Section loop_facts.
Context (jval : Type) (json_dumps : gmap string jval -> string)
        (json_loads : string -> result (gmap string jval))
        (cfg : config).

Abbreviation candidate_l := (pack_candidate jval json_dumps json_loads cfg).
Abbreviation loop_l := (pack_loop jval json_dumps json_loads cfg).

Lemma pack_candidate_length l links st st' links' :
  candidate_l l links st = Ok (st', links') -> length links' <= length links.
Proof.
  unfold pack_candidate. intros H.
  inv_bind H as [[[[a b] c] d] link] Hpop.
  inv_bind H as [st2 found] Hpair.
  destruct found as [i |].
  - injection H as _ <-. apply length_delete_le.
  - inv_bind H as st3 Hadd. by injection H as _ <-.
Qed.

Lemma pack_loop_fuel n m links st :
  length links <= n -> length links <= m ->
  loop_l n links st = loop_l m links st.
Proof.
  revert m links st. induction n as [| n IH]; intros m links st Hn Hm.
  - destruct links; [| simpl in Hn; lia]. by destruct m.
  - destruct m as [| m].
    + destruct links; [done | simpl in Hm; lia].
    + simpl. destruct (list_pop links) as [[links' l] |] eqn:Hpop; [| done].
      apply list_pop_length in Hpop.
      destruct (candidate_l l links' st) as [[st' links''] | e] eqn:Hcand;
        [| done].
      simpl. apply pack_candidate_length in Hcand. apply IH; lia.
Qed.

(** X1. The loop [while links] ends on every pool.  Every iteration
    that completes leaves a pool strictly shorter than the one it found;
    so the run of the loop is finite, and its outcome, a final state or
    the error of the iteration that raised, is what [pack_loop] gives
    with any bound of at least the length of the pool. *)
Theorem pack_loop_terminates (n : nat) (links : list nat) (st : state) :
  length links <= n ->
  loop_run json_dumps json_loads cfg links st (loop_l n links st) /\
  (forall links' l st' links'',
     list_pop links = Some (links', l) ->
     candidate_l l links' st = Ok (st', links'') ->
     length links'' < length links).
Proof.
  intros Hn. split.
  - revert links st Hn. induction n as [| n IH]; intros links st Hn.
    + destruct links; [| simpl in Hn; lia]. constructor.
    + simpl. destruct (list_pop links) as [[links' l] |] eqn:Hpop.
      * pose proof (list_pop_length _ _ _ Hpop) as Hlen.
        destruct (candidate_l l links' st) as [[st' links''] | e] eqn:Hcand.
        -- rewrite bind_Ok. eapply loop_run_next; [done | done |].
           apply IH. apply pack_candidate_length in Hcand. lia.
        -- eapply loop_run_raise; done.
      * apply list_pop_None in Hpop as ->. constructor.
  - intros links' l st' links'' Hpop Hcand.
    apply list_pop_length in Hpop. apply pack_candidate_length in Hcand. lia.
Qed.
End loop_facts.

Lemma pack_loop_terminates_witness :
  loop_run toy_dumps toy_loads default_config [0; 1; 2] state_three
    (pack_loop string toy_dumps toy_loads default_config 7 [0; 1; 2]
       state_three) /\
  (forall links' l st' links'',
     list_pop [0; 1; 2] = Some (links', l) ->
     pack_candidate string toy_dumps toy_loads default_config l links'
       state_three = Ok (st', links'') ->
     length links'' < length [0; 1; 2]).
Proof.
  apply (pack_loop_terminates string toy_dumps toy_loads default_config
           7 [0; 1; 2] state_three).
  simpl. lia.
Defined.

(** ** Group keys collide exactly on rearrangements *)

(** X2. Two links get the same group key exactly when their source,
    target and label are the same three strings in some order: not only a
    link and its reverse share a group, but also links in which a node
    name of one is the label of the other. *)
Theorem make_hash_tuple_eq_iff (d1 d2 : gmap string value)
    (s1 t1 s2 t2 : string) (l1 l2 : option string) :
  d1 !! "source" = Some (VStr s1) -> d1 !! "target" = Some (VStr t1) ->
  d1 !! "label" = VStr <$> l1 ->
  d2 !! "source" = Some (VStr s2) -> d2 !! "target" = Some (VStr t2) ->
  d2 !! "label" = VStr <$> l2 ->
  _make_hash_tuple d1 = _make_hash_tuple d2
  <-> Permutation [s1; t1; default "" l1] [s2; t2; default "" l2].
Proof.
  intros H1s H1t H1l H2s H2t H2l.
  rewrite (make_hash_tuple_strings d1 s1 t1 l1) by assumption.
  rewrite (make_hash_tuple_strings d2 s2 t2 l2) by assumption.
  split.
  - intros Heq.
    assert (Hsorted : sorted_strings [s1; t1; default "" l1]
                      = sorted_strings [s2; t2; default "" l2])
      by congruence.
    etrans; [symmetry; apply sorted_strings_is_perm |].
    rewrite Hsorted. apply sorted_strings_is_perm.
  - intros Hperm. f_equal. by apply sorted_strings_perm.
Qed.

Lemma make_hash_tuple_eq_iff_witness :
  _make_hash_tuple (adjacency_link lsp_A "100" adj_A)
  = _make_hash_tuple (adjacency_link lsp_B "200" adj_B)
  <-> Permutation ["200:L1"; "R"; default "" (Some "100:L1")]
                  ["100:L1"; "R"; default "" (Some "200:L1")].
Proof.
  apply (make_hash_tuple_eq_iff _ _ "200:L1" "R" "100:L1" "R"
           (Some "100:L1") (Some "200:L1")); reflexivity.
Defined.

(** ** The scan for a partner *)

(** X3. When several links of the pool qualify as partner, the scan takes
    the first in list order: the link it returns matches, and no link
    before it does. *)
Theorem find_pair_first_match (st : state) (peer_key local_key : string)
    (local peer : value) (links : list nat) (l2 : nat) :
  find_pair st peer_key local_key local peer links = Ok (Some l2) ->
  exists i,
    links !! i = Some l2 /\
    deref st l2 !! peer_key = Some local /\
    deref st l2 !! local_key = Some peer /\
    forall j x, j < i -> links !! j = Some x ->
      ~ (deref st x !! peer_key = Some local /\
         deref st x !! local_key = Some peer).
Proof.
  revert l2. induction links as [| y links IH]; simpl; intros l2 H; [done |].
  inv_bind H as m Hm. destruct m.
  - injection H as <-. apply is_pair_true in Hm as [Hu Hv].
    exists 0. split; [done |]. split; [done |]. split; [done |].
    intros j x Hj. lia.
  - destruct (IH l2 H) as (i & Hi & Hu & Hv & Hbefore).
    exists (S i). split; [done |]. split; [done |]. split; [done |].
    intros [| j] x Hj Hx.
    + injection Hx as <-. intros Hpair. apply is_pair_true in Hpair. congruence.
    + apply (Hbefore j x); [lia | done].
Qed.

Lemma find_pair_first_match_witness :
  exists i,
    [0; 1] !! i = Some 0 /\
    deref state_two_equal 0 !! "peer_intf_id" = Some (VStr "Gi2") /\
    deref state_two_equal 0 !! "local_intf_id" = Some (VStr "Gi1") /\
    forall j x, j < i -> [0; 1] !! j = Some x ->
      ~ (deref state_two_equal x !! "peer_intf_id" = Some (VStr "Gi2") /\
         deref state_two_equal x !! "local_intf_id" = Some (VStr "Gi1")).
Proof.
  apply (find_pair_first_match state_two_equal "peer_intf_id" "local_intf_id"
           (VStr "Gi2") (VStr "Gi1") [0; 1] 0).
  vm_compute. reflexivity.
Defined.


Section precedence_facts.
Context (jval : Type) (json_dumps : gmap string jval -> string)
        (json_loads : string -> result (gmap string jval))
        (cfg : config).

Abbreviation candidate_x := (pack_candidate jval json_dumps json_loads cfg).
Abbreviation loop_x := (pack_loop jval json_dumps json_loads cfg).
Abbreviation group_x := (pack_group jval json_dumps json_loads cfg).
Abbreviation pack_x := (_pack_links jval json_dumps json_loads cfg).


(** X5. A group of two raw directional links that pair, by mirrored
    interface ids or, when the candidate has no usable interface ids, by
    mirrored addresses, is packed into one merged link: the candidate,
    which is the last link of the group, with the source label of the
    other as its target label. *)
Theorem pack_group_two (st : state) (hash : list string) (la lb : nat) :
  PyDict.get hash (links_dict st) = Some [la; lb] ->
  la <> lb ->
  directional json_loads hash (deref st la) ->
  directional json_loads hash (deref st lb) ->
  intf_pair (deref st la) (deref st lb) \/
  ip_fallback_pair (deref st lb) (deref st la) ->
  exists st',
    group_x hash st = Ok st' /\
    group_of st' hash = [lb] /\
    deref st' lb !! "trgt_label" = deref st la !! "src_label" /\
    deref st' lb !! "source" = deref st lb !! "source" /\
    deref st' lb !! "target" = deref st lb !! "target" /\
    deref st' lb !! "src_label" = deref st lb !! "src_label" /\
    stripped (deref st' lb).
Proof.
  intros Hget Hne Hda Hdb Hpair.
  unfold pack_group. rewrite Hget. simpl length.
  change (2 <=? 1)%nat with false. cbv iota.
  set (st0 := set_links_dict (PyDict.set hash [] (links_dict st)) st).
  assert (Hg0 : group_of st0 hash = []) by apply group_of_reset_eq.
  assert (Hk0 : is_Some (PyDict.get hash (links_dict st0))).
  { unfold st0. simpl. rewrite get_set_eq. eauto. }
  change (deref st la) with (deref st0 la) in *.
  change (deref st lb) with (deref st0 lb) in *.
  rewrite pack_loop_S. change (list_pop [la; lb]) with (Some ([la], lb)).
  cbv iota beta.
  pose proof Hdb as [_ [a Ha] [b Hb] [c Hc] [d Hd] _ _ _ _].
  pose proof Hda as [_ [aA HaA] [bA HbA] [cA HcA] [dA HdA] [sA HsA] _ _ _].
  set (st1 := write lb (strip (deref st0 lb)) st0).
  assert (H1a : deref st1 la = deref st0 la).
  { unfold st1. by rewrite deref_write_ne. }
  assert (Hchosen : chosen_partner st1 a b c d [la] = Ok (Some la)).
  { unfold chosen_partner.
    destruct Hpair as [(a0 & b0 & HAa & HAb & HBa & HBb & Hta & Htb)
                      | (a' & b' & c' & d' & Ha' & Hb' & Hc' & Hd' & Hno
                         & Htd & Htc & Hpp & Hpl)].
    - assert (a = b0) as -> by congruence.
      assert (b = a0) as -> by congruence.
      rewrite Htb, Hta. simpl.
      rewrite (is_pair_eval _ _ _ _ _ b0 a0) by (by rewrite H1a).
      simpl. by rewrite !bool_decide_eq_true_2.
    - assert (a = a') as -> by congruence.
      assert (b = b') as -> by congruence.
      assert (c = c') as -> by congruence.
      assert (d = d') as -> by congruence.
      rewrite Hno, Htd, Htc. simpl.
      rewrite (is_pair_eval _ _ _ _ _ d' c') by (by rewrite H1a).
      simpl. by rewrite !bool_decide_eq_true_2. }
  destruct (pack_candidate_paired jval json_dumps json_loads cfg
              lb la [la] st0 hash a b c d)
    as (st' & i & -> & Hlook & Hg' & Hx' & Ht' & Hs' & Htg' & Hsl' & Hstr' & _);
    try done.
  { by intros ?%list_elem_of_singleton. }
  { rewrite Hg0. apply not_elem_of_nil. }
  { intros y. rewrite Hg0. by intros ?%elem_of_nil. }
  assert (i = 0) as ->.
  { destruct i as [| i]; [done |].
    simpl in Hlook. by rewrite lookup_nil in Hlook. }
  rewrite bind_Ok. cbn [fst snd]. simpl delete. rewrite pack_loop_S.
  simpl list_pop. cbv iota.
  exists st'. rewrite Hg', Hg0. done.
Qed.
End precedence_facts.


Lemma directional_state_ip_only (l : nat) :
  l ∈ [0; 1] ->
  directional toy_loads ["100:L2"; "R1"; "R2"] (deref state_ip_only l).
Proof.
  intros Hl.
  repeat (apply elem_of_cons in Hl as [-> | Hl]);
    [| | by apply elem_of_nil in Hl];
    (split;
     [ vm_compute; reflexivity
     | eexists; vm_compute; reflexivity
     | eexists; vm_compute; reflexivity
     | eexists; vm_compute; reflexivity
     | eexists; vm_compute; reflexivity
     | eexists; vm_compute; reflexivity
     | vm_compute; reflexivity
     | exists "100", "L2"; vm_compute; done
     | do 2 eexists; split; vm_compute; reflexivity ]).
Defined.

Lemma pack_group_two_witness :
  exists st',
    toy_pack_group ["100:L2"; "R1"; "R2"] state_ip_only = Ok st' /\
    group_of st' ["100:L2"; "R1"; "R2"] = [1] /\
    deref st' 1 !! "trgt_label" = deref state_ip_only 0 !! "src_label" /\
    deref st' 1 !! "source" = deref state_ip_only 1 !! "source" /\
    deref st' 1 !! "target" = deref state_ip_only 1 !! "target" /\
    deref st' 1 !! "src_label" = deref state_ip_only 1 !! "src_label" /\
    stripped (deref st' 1).
Proof.
  apply (pack_group_two string toy_dumps toy_loads default_config
           state_ip_only ["100:L2"; "R1"; "R2"] 0 1).
  - vm_compute. reflexivity.
  - discriminate.
  - apply directional_state_ip_only. left.
  - apply directional_state_ip_only. right. left.
  - right.
    exists VNone, VNone, (VStr "10.0.0.1"), (VStr "10.0.0.2").
    vm_compute. done.
Defined.

(** With the interface ids set but not mirrored the two links stay
    apart although their addresses mirror; without interface ids the
    addresses pair them. *)
Example ids_mismatch_not_merged :
  links_dict (unwrap (toy_pack default_config state_ids_mismatch))
  = [(["100:L2"; "R1"; "R2"], [1; 0])] /\
  links_dict (unwrap (toy_pack default_config state_ip_only))
  = [(["100:L2"; "R1"; "R2"], [1])].
Proof. vm_compute. done. Qed.

(** ** Packing is not repeatable *)

Lemma list_pop_elem_of {A : Type} (l : list A) :
  l <> [] -> exists l' x, list_pop l = Some (l', x) /\ x ∈ l.
Proof.
  induction l as [| y l IH]; [done |]. intros _. simpl.
  destruct l as [| z l].
  - exists [], y. split; [done | left].
  - destruct IH as (l' & x & -> & Hx); [done |].
    exists (y :: l'), x. split; [done | by right].
Qed.

Section repack_facts.
Context (jval : Type) (json_dumps : gmap string jval -> string)
        (json_loads : string -> result (gmap string jval))
        (cfg : config).

Abbreviation group_r := (pack_group jval json_dumps json_loads cfg).
Abbreviation keys_r := (for_keys jval json_dumps json_loads cfg).
Abbreviation pack_r := (_pack_links jval json_dumps json_loads cfg).

Lemma pack_group_stripped_raises hash st links :
  PyDict.get hash (links_dict st) = Some links ->
  1 < length links ->
  (forall l, l ∈ links -> deref st l !! "local_intf_id" = None) ->
  group_r hash st = Raise (KeyError "local_intf_id").
Proof.
  intros Hget Hlen Hall. unfold pack_group. rewrite Hget.
  destruct (length links <=? 1)%nat eqn:Hle; [apply Nat.leb_le in Hle; lia |].
  destruct (length links) as [| n] eqn:Hn; [lia |]. simpl.
  destruct (list_pop_elem_of links) as (links' & l & -> & Hl).
  { intros ->. simpl in Hn. lia. }
  unfold pack_candidate, pop_correlation, dict_pop.
  change (deref (set_links_dict ?d st) l) with (deref st l).
  by rewrite (Hall l Hl).
Qed.

Lemma for_keys_stripped_raises hashes st :
  (forall k, k ∈ hashes -> is_Some (PyDict.get k (links_dict st))) ->
  (forall hash links l,
     PyDict.get hash (links_dict st) = Some links -> 1 < length links ->
     l ∈ links -> deref st l !! "local_intf_id" = None) ->
  (exists hash links,
     hash ∈ hashes /\ PyDict.get hash (links_dict st) = Some links /\
     1 < length links) ->
  keys_r (length (links_dict st)) hashes st = Raise (KeyError "local_intf_id").
Proof.
  intros Hkeys Hall. induction hashes as [| k ks IH]; intros (h & g & Hin & Hg & Hlen).
  - by apply elem_of_nil in Hin.
  - simpl. destruct (Hkeys k) as [gk Hgk]; [left |].
    destruct (decide (1 < length gk)) as [Hlong | Hshort].
    + rewrite (pack_group_stripped_raises k st gk); eauto.
    + assert (Hskip : group_r k st = Ok st).
      { unfold pack_group. rewrite Hgk.
        destruct (length gk <=? 1)%nat eqn:Hle; [done |].
        apply Nat.leb_gt in Hle. lia. }
      rewrite Hskip. simpl. rewrite Nat.eqb_refl. apply IH.
      * intros k' Hk'. apply Hkeys. by right.
      * exists h, g. split; [| done].
        apply elem_of_cons in Hin as [-> | Hin]; [| done].
        rewrite Hgk in Hg. injection Hg as ->. lia.
Qed.

(** X6. [_pack_links] cannot run on its own output.  In a state where
    every group of more than one link holds only links without the key
    [local_intf_id], as packed groups do, and at least one such group
    exists, the first [link.pop("local_intf_id")] raises [KeyError]. *)
Theorem pack_links_again_raises (st : state) :
  (forall hash links l,
     PyDict.get hash (links_dict st) = Some links -> 1 < length links ->
     l ∈ links -> deref st l !! "local_intf_id" = None) ->
  (exists hash links,
     PyDict.get hash (links_dict st) = Some links /\ 1 < length links) ->
  pack_r st = Raise (KeyError "local_intf_id").
Proof.
  intros Hall (h & g & Hg & Hlen). unfold _pack_links.
  apply for_keys_stripped_raises; [| done |].
  - intros k Hk. by apply get_is_Some_keys.
  - exists h, g. split; [| done]. apply get_is_Some_keys. eauto.
Qed.
End repack_facts.

Lemma pack_links_again_raises_witness :
  toy_pack default_config state_three_packed
  = Raise (KeyError "local_intf_id").
Proof.
  apply (pack_links_again_raises string toy_dumps toy_loads default_config
           state_three_packed).
  - intros hash links l Hget Hlen Hl.
    assert (Hlinks : links = [2; 1]).
    { change (links_dict state_three_packed)
        with [(["100:L2"; "R1"; "R2"], [2; 1])] in Hget.
      simpl in Hget.
      destruct (decide (hash = ["100:L2"; "R1"; "R2"]));
        [by injection Hget as <- | discriminate Hget]. }
    subst links.
    apply elem_of_cons in Hl as [-> | Hl]; [vm_compute; reflexivity |].
    apply list_elem_of_singleton in Hl. subst l. vm_compute. reflexivity.
  - exists ["100:L2"; "R1"; "R2"], [2; 1]. split; [vm_compute; reflexivity |].
    simpl. lia.
Defined.

(** ** Sightings of one adjacency *)

Section sighting_facts.
Context (fnmatchcase : string -> string -> bool) (jval : Type)
        (json_dumps : gmap string jval -> string)
        (adj_json : string -> adjacency -> jval)
        (cfg : config).

Abbreviation adjacency_s :=
  (process_adjacency fnmatchcase jval json_dumps adj_json cfg).

Lemma add_link_described l d st hash :
  _make_hash_tuple (deref st l) = Ok hash ->
  link_in st l (group_of st hash) = false ->
  d <> ∅ -> add_data cfg = true ->
  _add_link jval json_dumps cfg l (Some d) st
  = Ok (set_links_dict
          (PyDict.set hash (group_of st hash ++ [l])%list
             (PyDict.setdefault hash [] (links_dict st)))
          (write l (<["description" := VStr (json_dumps d)]> (deref st l)) st)).
Proof.
  intros Hhash Hin Hd Hadd. unfold _add_link. rewrite Hhash, bind_Ok.
  cbv zeta. simpl links_dict. rewrite get_setdefault_eq. simpl default.
  change (link_in (set_links_dict ?x st) l) with (link_in st l).
  unfold group_of in Hin. rewrite Hin.
  rewrite bool_decide_eq_true_2 by done. rewrite Hadd. simpl.
  reflexivity.
Qed.

Lemma process_adjacency_appends r isis_pid a st hash :
  add_data cfg = true ->
  filtered fnmatchcase cfg a = false ->
  _make_hash_tuple (adjacency_link r isis_pid a) = Ok hash ->
  (forall x, x ∈ group_of st hash ->
     x < next_loc st /\ is_Some (deref st x !! "description")) ->
  exists st',
    adjacency_s r isis_pid a st = Ok st' /\
    group_of st' hash = (group_of st hash ++ [next_loc st])%list /\
    next_loc st' = S (next_loc st) /\
    deref st' (next_loc st)
    = <["description" :=
          VStr (json_dumps (adjacency_data jval adj_json r isis_pid a))]>
        (adjacency_link r isis_pid a) /\
    (forall x, x <> next_loc st -> deref st' x = deref st x).
Proof.
  intros Hadd Hfilter Hhash Hgroup. unfold process_adjacency.
  rewrite Hfilter.
  destruct (alloc (adjacency_link r isis_pid a) st) as [l st1] eqn:Halloc.
  assert (Hl : l = next_loc st) by (by injection Halloc as <- _).
  assert (Hst1 : st1 = (alloc (adjacency_link r isis_pid a) st).2)
    by (by rewrite Halloc).
  assert (Hd1 : deref st1 l = adjacency_link r isis_pid a).
  { pose proof (deref_alloc (adjacency_link r isis_pid a) st) as H.
    by rewrite Halloc in H. }
  assert (Hdx : forall x, x <> l -> deref st1 x = deref st x).
  { intros x Hx. rewrite Hst1. unfold deref, alloc. simpl.
    apply lookup_total_insert_ne. congruence. }
  assert (Hg1 : group_of st1 hash = group_of st hash) by (by rewrite Hst1).
  assert (Hin : link_in st1 l (group_of st1 hash) = false).
  { apply link_in_false. intros x Hx Heq. rewrite Hg1 in Hx.
    destruct (Hgroup x Hx) as [Hlt [v Hv]].
    rewrite Hdx, Hd1 in Heq by lia. by rewrite Heq in Hv. }
  assert (Hh1 : _make_hash_tuple (deref st1 l) = Ok hash) by (by rewrite Hd1).
  assert (Hne : adjacency_data jval adj_json r isis_pid a <> ∅).
  { unfold adjacency_data. apply insert_non_empty. }
  rewrite (add_link_described l _ st1 hash Hh1 Hin Hne Hadd).
  eexists. split; [reflexivity |].
  unfold group_of at 1. simpl links_dict. rewrite get_set_eq. simpl default.
  rewrite Hg1, Hl. split; [done |]. split; [by rewrite Hst1 |].
  split.
  - rewrite deref_set_links_dict, deref_write_eq. by rewrite <- Hl, Hd1.
  - intros x Hx. rewrite deref_set_links_dict, deref_write_ne by congruence.
    apply Hdx. congruence.
Qed.

(** X7. With descriptions enabled a repeated adjacency is never
    recognised as a duplicate.  The stored link has gained a
    [description], the freshly built one has none, so the test
    [link not in ...] succeeds: each sighting that passes the filter adds a
    link object, and two sightings of one adjacency leave two equal links
    in the group. *)
Theorem process_adjacency_twice (r : lsp) (isis_pid : string) (a : adjacency)
    (st : state) (hash : list string) :
  add_data cfg = true ->
  filtered fnmatchcase cfg a = false ->
  _make_hash_tuple (adjacency_link r isis_pid a) = Ok hash ->
  (forall x, x ∈ group_of st hash ->
     x < next_loc st /\ is_Some (deref st x !! "description")) ->
  exists st1 st2,
    adjacency_s r isis_pid a st = Ok st1 /\
    adjacency_s r isis_pid a st1 = Ok st2 /\
    group_of st2 hash
    = (group_of st hash ++ [next_loc st; S (next_loc st)])%list /\
    deref st2 (next_loc st) = deref st2 (S (next_loc st)) /\
    deref st2 (next_loc st)
    = <["description" :=
          VStr (json_dumps (adjacency_data jval adj_json r isis_pid a))]>
        (adjacency_link r isis_pid a).
Proof.
  intros Hadd Hfilter Hhash Hgroup.
  destruct (process_adjacency_appends r isis_pid a st hash Hadd Hfilter Hhash
              Hgroup) as (st1 & H1 & Hg1 & Hn1 & Hd1 & Hx1).
  destruct (process_adjacency_appends r isis_pid a st1 hash Hadd Hfilter Hhash)
    as (st2 & H2 & Hg2 & Hn2 & Hd2 & Hx2).
  { intros x. rewrite Hg1, Hn1.
    intros [Hx | ->%list_elem_of_singleton]%elem_of_app.
    - destruct (Hgroup x Hx) as [Hlt Hsome]. split; [lia |].
      rewrite Hx1 by lia. done.
    - split; [lia |]. rewrite Hd1, lookup_insert_eq. eauto. }
  exists st1, st2. split; [done |]. split; [done |].
  rewrite Hn1 in Hg2, Hd2, Hx2.
  rewrite Hg2, Hg1, <- app_assoc. split; [done |].
  rewrite Hd2, Hx2, Hd1 by lia. done.
Qed.
End sighting_facts.

Lemma process_adjacency_twice_witness :
  exists st1 st2,
    process_adjacency glob_match string toy_dumps toy_adj_json default_config
      lsp_R1 "100" adj_R1_R2 init_state = Ok st1 /\
    process_adjacency glob_match string toy_dumps toy_adj_json default_config
      lsp_R1 "100" adj_R1_R2 st1 = Ok st2 /\
    group_of st2 ["100:L2"; "R1"; "R2"]
    = (group_of init_state ["100:L2"; "R1"; "R2"]
       ++ [next_loc init_state; S (next_loc init_state)])%list /\
    deref st2 (next_loc init_state) = deref st2 (S (next_loc init_state)) /\
    deref st2 (next_loc init_state)
    = <["description" :=
          VStr (toy_dumps (adjacency_data string toy_adj_json lsp_R1 "100"
                             adj_R1_R2))]>
        (adjacency_link lsp_R1 "100" adj_R1_R2).
Proof.
  apply (process_adjacency_twice glob_match string toy_dumps toy_adj_json
           default_config lsp_R1 "100" adj_R1_R2 init_state
           ["100:L2"; "R1"; "R2"]).
  - reflexivity.
  - reflexivity.
  - vm_compute. reflexivity.
  - intros x Hx. vm_compute in Hx. by apply elem_of_nil in Hx.
Defined.

(** ** [_lookup_rid] *)

Section rid_facts.
Context (cfg : config).

Lemma lookup_rid_node_ok node :
  is_Some (node !! "top_label") ->
  exists node',
    lookup_rid_node cfg node = Ok node' /\
    (forall k, k ∉ rid_keys -> node' !! k = node !! k) /\
    (forall ip, node !! "top_label" = Some ip ->
       match ip_lookup_data cfg !! ip with
       | None => node' = node
       | Some row =>
           forall k, k ∈ rid_keys ->
             node' !! k = match row !! k with
                          | Some v => Some v
                          | None => node !! k
                          end
       end).
Proof.
  intros [ip Hip]. unfold lookup_rid_node, getitem. rewrite Hip. simpl.
  destruct (ip_lookup_data cfg !! ip) as [row |] eqn:Hrow.
  - eexists. split; [reflexivity |]. split.
    + intros k Hk. rewrite lookup_union_r; [done |].
      apply map_lookup_filter_None. right. intros v _. done.
    + intros ip' [= <-]. rewrite Hrow. intros k Hk.
      destruct (row !! k) as [v |] eqn:Hv.
      * apply lookup_union_Some_l. by apply map_lookup_filter_Some.
      * apply lookup_union_r. apply map_lookup_filter_None. by left.
  - exists node. split; [done |]. split; [done |].
    intros ip' [= <-]. by rewrite Hrow.
Qed.

Lemma lookup_rid_nodes_ok nd :
  Forall (fun kv => is_Some (kv.2 !! "top_label")) nd ->
  exists nd',
    lookup_rid_nodes cfg nd = Ok nd' /\
    Forall2 (fun kv kv' => kv'.1 = kv.1 /\
                           lookup_rid_node cfg kv.2 = Ok kv'.2) nd nd'.
Proof.
  induction 1 as [| [id node] nd Hnode _ (nd' & IH & Hall)]; simpl.
  - exists []. split; [done | constructor].
  - destruct (lookup_rid_node_ok node Hnode) as (node' & Hnode' & _).
    rewrite Hnode', bind_Ok, IH, bind_Ok.
    exists ((id, node') :: nd'). split; [done |]. by constructor.
Qed.

Lemma lookup_rid_nodes_raise nd :
  Exists (fun kv => kv.2 !! "top_label" = None) nd ->
  lookup_rid_nodes cfg nd = Raise (KeyError "top_label").
Proof.
  induction nd as [| [id node] nd IH]; intros H; [by apply Exists_nil in H |].
  simpl. unfold lookup_rid_node at 1. unfold getitem.
  destruct (node !! "top_label") as [ip |] eqn:Hip; [| done]. simpl.
  apply Exists_cons in H as [H | H]; [simpl in H; congruence |].
  rewrite (IH H). by destruct (ip_lookup_data cfg !! ip).
Qed.

(** X8. [_lookup_rid] reads [node["top_label"]] of every node: it
    completes when every node has a top label, and raises [KeyError] as
    soon as one node, such as the node of a connected subnet, has none. *)
Theorem lookup_rid_top_label (st : state) :
  (Forall (fun kv => is_Some (kv.2 !! "top_label")) (nodes_dict st) ->
   exists st', _lookup_rid cfg st = Ok st') /\
  (Exists (fun kv => kv.2 !! "top_label" = None) (nodes_dict st) ->
   _lookup_rid cfg st = Raise (KeyError "top_label")) /\
  (forall n, subnet_node n !! "top_label" = None).
Proof.
  unfold _lookup_rid. split; [| split].
  - intros H. destruct (lookup_rid_nodes_ok _ H) as (nd' & -> & _). eauto.
  - intros H. by rewrite (lookup_rid_nodes_raise _ H).
  - intros n. reflexivity.
Qed.

(** X9. When [_lookup_rid] completes it has changed nothing but the
    nodes, keeps their keys and order, and in each node changes at most
    [top_label], [bottom_label] and [label]: a node whose top label is
    not in the lookup table is left as it is, and for a node whose top
    label is, each of the three takes the value of the lookup record when
    the record has one.  Nodes stay stored once each under their id. *)
Theorem lookup_rid_effect (st st' : state) :
  _lookup_rid cfg st = Ok st' ->
  links_view st' = links_view st /\
  PyDict.keys (nodes_dict st') = PyDict.keys (nodes_dict st) /\
  Forall2 (fun kv kv' =>
             kv'.1 = kv.1 /\
             (forall k, k ∉ rid_keys -> kv'.2 !! k = kv.2 !! k) /\
             (forall ip, kv.2 !! "top_label" = Some ip ->
                match ip_lookup_data cfg !! ip with
                | None => kv'.2 = kv.2
                | Some row =>
                    forall k, k ∈ rid_keys ->
                      kv'.2 !! k = match row !! k with
                                   | Some v => Some v
                                   | None => kv.2 !! k
                                   end
                end))
          (nodes_dict st) (nodes_dict st') /\
  (nodes_ok st -> nodes_ok st').
Proof.
  unfold _lookup_rid. intros H. inv_bind H as nd' Hnd. injection H as <-.
  simpl. split; [done |].
  assert (Hall : Forall2 (fun kv kv' =>
             kv'.1 = kv.1 /\
             (forall k, k ∉ rid_keys -> kv'.2 !! k = kv.2 !! k) /\
             (forall ip, kv.2 !! "top_label" = Some ip ->
                match ip_lookup_data cfg !! ip with
                | None => kv'.2 = kv.2
                | Some row =>
                    forall k, k ∈ rid_keys ->
                      kv'.2 !! k = match row !! k with
                                   | Some v => Some v
                                   | None => kv.2 !! k
                                   end
                end)) (nodes_dict st) nd').
  { revert nd' Hnd. induction (nodes_dict st) as [| [id node] nd IH];
      simpl; intros nd' Hnd.
    - injection Hnd as <-. constructor.
    - inv_bind Hnd as node' Hnode. inv_bind Hnd as rest Hrest.
      injection Hnd as <-. constructor; [| by apply IH].
      simpl. split; [done |].
      assert (Htop : is_Some (node !! "top_label")).
      { unfold lookup_rid_node, getitem in Hnode.
        destruct (node !! "top_label"); [eauto | done]. }
      destruct (lookup_rid_node_ok node Htop) as (node'' & Hnode'' & Hrest').
      rewrite Hnode in Hnode''. by injection Hnode'' as <-. }
  assert (Hkeys : PyDict.keys nd' = PyDict.keys (nodes_dict st)).
  { unfold PyDict.keys. clear Hnd.
    induction Hall as [| kv kv' nd nd'' (Hk & _) _ IH]; [done |].
    rewrite !fmap_cons, Hk. f_equal. exact IH. }
  split; [done |]. split; [done |].
  intros [Hnd_ok Hids].
  split; [change (NoDup (PyDict.keys nd')); by rewrite Hkeys |].
  change (Forall (fun kv => kv.2 !! "id" = Some kv.1) nd').
  clear Hnd Hkeys Hnd_ok.
  induction Hall as [| kv kv' nd nd'' (Hk & Hother & _) _ IH]; [constructor |].
  apply Forall_cons in Hids as [Hid Hids].
  constructor; [| by apply IH].
  rewrite Hk, Hother; [done |].
  unfold rid_keys. intros Hin.
  repeat (apply elem_of_cons in Hin as [Hin | Hin]; [discriminate Hin |]).
  by apply elem_of_nil in Hin.
Qed.
End rid_facts.

Lemma lookup_rid_effect_witness :
  links_view (unwrap (_lookup_rid config_rid state_router_only))
  = links_view state_router_only /\
  PyDict.keys (nodes_dict (unwrap (_lookup_rid config_rid state_router_only)))
  = PyDict.keys (nodes_dict state_router_only) /\
  Forall2 (fun kv kv' =>
             kv'.1 = kv.1 /\
             (forall k, k ∉ rid_keys -> kv'.2 !! k = kv.2 !! k) /\
             (forall ip, kv.2 !! "top_label" = Some ip ->
                match ip_lookup_data config_rid !! ip with
                | None => kv'.2 = kv.2
                | Some row =>
                    forall k, k ∈ rid_keys ->
                      kv'.2 !! k = match row !! k with
                                   | Some v => Some v
                                   | None => kv.2 !! k
                                   end
                end))
          (nodes_dict state_router_only)
          (nodes_dict (unwrap (_lookup_rid config_rid state_router_only))) /\
  (nodes_ok state_router_only ->
   nodes_ok (unwrap (_lookup_rid config_rid state_router_only))).
Proof.
  apply (lookup_rid_effect config_rid state_router_only
           (unwrap (_lookup_rid config_rid state_router_only))).
  vm_compute. reflexivity.
Defined.

(** The router node takes the label and bottom label of the lookup
    record and keeps its top label; with a subnet node in the state the
    pass raises. *)
Example lookup_rid_examples :
  stored_attribute "R1" "label" (_lookup_rid config_rid state_router_only)
  = Some (VStr "router-1") /\
  stored_attribute "R1" "bottom_label" (_lookup_rid config_rid state_router_only)
  = Some (VStr "1 St address") /\
  stored_attribute "R1" "top_label" (_lookup_rid config_rid state_router_only)
  = Some (VStr "1.1.1.1") /\
  stored_attribute "R1" "id" (_lookup_rid config_rid state_router_only)
  = Some (VStr "R1") /\
  _lookup_rid config_rid state_with_subnet = Raise (KeyError "top_label").
Proof. vm_compute. done. Qed.

(** ** [_lookup_ip_interfaces]: labels *)

Lemma count_char_app c a b :
  count_char c (a ++ b) = count_char c a + count_char c b.
Proof.
  induction a as [| x a IH]; [done |].
  change (count_char c (String x (a ++ b))
          = count_char c (String x a) + count_char c b).
  simpl. rewrite IH. lia.
Qed.

Lemma split_on_length sep s :
  length (split_on sep s) = S (count_char sep s).
Proof.
  induction s as [| c s IH]; simpl; [done |].
  destruct (Ascii.eqb c sep); simpl; [by rewrite IH |].
  destruct (split_on sep s); simpl in *; lia.
Qed.

Lemma split2_value_error s :
  count_char ":" s <> 1 -> split2 (VStr s) = Raise ValueError.
Proof.
  intros H. unfold split2.
  pose proof (split_on_length ":" s) as Hlen.
  destruct (split_on ":" s) as [| a [| b [| c l]]]; try done.
  simpl in Hlen. lia.
Qed.

Lemma fmt2_truthy a b : truthy (VStr (fmt2 a b)) = true.
Proof. unfold fmt2. by destruct a. Qed.

Lemma fmt3_colons i ip metric : count_char ":" (fmt3 i ip metric) <> 1.
Proof.
  unfold fmt3. rewrite !count_char_app.
  change (count_char ":" ":") with 1. lia.
Qed.

Lemma fmt3_truthy i ip metric : truthy (VStr (fmt3 i ip metric)) = true.
Proof. unfold fmt3. by destruct i. Qed.

Section label_facts.
Context (cfg : config).

Lemma lookup_trgt_label_absent link :
  link !! "trgt_label" = None -> lookup_trgt_label cfg link = Ok link.
Proof. intros H. unfold lookup_trgt_label, dict_get. by rewrite H. Qed.

Lemma lookup_trgt_label_fmt2 link ip metric :
  link !! "trgt_label" = Some (VStr (fmt2 ip metric)) ->
  count_char ":" ip = 0 -> count_char ":" metric = 0 ->
  lookup_trgt_label cfg link
  = Ok (enrich_label cfg "trgt_label" ip metric link).
Proof.
  intros H Hip Hm. unfold lookup_trgt_label, dict_get, getitem.
  rewrite H. simpl default. rewrite fmt2_truthy, bind_Ok.
  rewrite split2_fmt2 by done. simpl. unfold enrich_label.
  destruct (count_char "." ip =? 3)%nat; simpl; [| done].
  by destruct (interface_of cfg ip).
Qed.

Lemma lookup_link_src_fmt2 link ip metric :
  link !! "src_label" = Some (VStr (fmt2 ip metric)) ->
  count_char ":" ip = 0 -> count_char ":" metric = 0 ->
  count_char "." ip = 3 ->
  lookup_link cfg link
  = lookup_trgt_label cfg (enrich_label cfg "src_label" ip metric link).
Proof.
  intros Hsrc Hip Hm Hdots.
  unfold lookup_link, dict_get, getitem. rewrite Hsrc. simpl default.
  rewrite fmt2_truthy, bind_Ok. rewrite split2_fmt2 by done. simpl.
  unfold enrich_label. rewrite Hdots. simpl.
  by destruct (interface_of cfg ip).
Qed.

Lemma enrich_src_trgt link ip metric :
  enrich_label cfg "src_label" ip metric link !! "trgt_label"
  = link !! "trgt_label".
Proof.
  unfold enrich_label. destruct (count_char "." ip =? 3)%nat; [| done].
  destruct (interface_of cfg ip); [by rewrite lookup_insert_ne | done].
Qed.

Lemma lookup_link_bad_src link s :
  link !! "src_label" = Some (VStr s) ->
  truthy (VStr s) = true ->
  count_char ":" s <> 1 ->
  lookup_link cfg link = Raise ValueError.
Proof.
  intros Hl Ht Hc. unfold lookup_link, dict_get, getitem.
  rewrite Hl. simpl default. rewrite Ht, bind_Ok.
  by rewrite split2_value_error.
Qed.

(** X10. When the source label of a link is ["<ip>:<metric>"] with three
    dots in the address part, the loop body handles both labels, each on
    its own: each label whose address part has three dots and has a
    non-empty interface in the lookup table gets the interface name in
    front, and is left as it is otherwise. *)
Theorem lookup_link_ipv4_source (link : gmap string value)
    (ip metric : string) :
  link !! "src_label" = Some (VStr (fmt2 ip metric)) ->
  count_char ":" ip = 0 -> count_char ":" metric = 0 ->
  count_char "." ip = 3 ->
  (link !! "trgt_label" = None ->
   lookup_link cfg link = Ok (enrich_label cfg "src_label" ip metric link)) /\
  (forall ip2 metric2,
     link !! "trgt_label" = Some (VStr (fmt2 ip2 metric2)) ->
     count_char ":" ip2 = 0 -> count_char ":" metric2 = 0 ->
     lookup_link cfg link
     = Ok (enrich_label cfg "trgt_label" ip2 metric2
             (enrich_label cfg "src_label" ip metric link))).
Proof.
  intros Hsrc Hip Hm Hdots.
  pose proof (lookup_link_src_fmt2 link ip metric Hsrc Hip Hm Hdots) as Hbody.
  pose proof (enrich_src_trgt link ip metric) as Htrgt.
  split.
  - intros Hnone. rewrite Hbody. apply lookup_trgt_label_absent. congruence.
  - intros ip2 metric2 H2 Hip2 Hm2. rewrite Hbody.
    apply lookup_trgt_label_fmt2; congruence.
Qed.

(** X11. A source label that is not empty and does not hold exactly one
    colon makes the loop body raise [ValueError]: a bare address or
    interface name without a metric, or a label built from an IPv6
    address. *)
Theorem lookup_link_value_error (link : gmap string value) (s : string) :
  link !! "src_label" = Some (VStr s) ->
  s <> "" ->
  count_char ":" s <> 1 ->
  lookup_link cfg link = Raise ValueError.
Proof.
  intros Hsrc Hs Hcolons.
  apply (lookup_link_bad_src link s); [done | | done].
  simpl. by destruct s.
Qed.

(** X12. The interface pass cannot be run twice over a link it has
    changed: once the source label ["<ip>:<metric>"] has been rewritten
    to ["<interface>:<ip>:<metric>"], the loop body raises [ValueError]
    on the resulting link. *)
Theorem lookup_link_not_repeatable (link : gmap string value)
    (ip metric i : string) :
  link !! "src_label" = Some (VStr (fmt2 ip metric)) ->
  link !! "trgt_label" = None ->
  count_char ":" ip = 0 -> count_char ":" metric = 0 ->
  count_char "." ip = 3 ->
  interface_of cfg ip = Some i ->
  exists link1,
    lookup_link cfg link = Ok link1 /\
    link1 !! "src_label" = Some (VStr (fmt3 i ip metric)) /\
    lookup_link cfg link1 = Raise ValueError.
Proof.
  intros Hsrc Htrgt Hip Hm Hdots Hi.
  rewrite (lookup_link_src_fmt2 link ip metric Hsrc Hip Hm Hdots).
  rewrite lookup_trgt_label_absent by (by rewrite enrich_src_trgt).
  unfold enrich_label. rewrite Hdots, Hi. simpl.
  eexists. split; [reflexivity |]. split; [by rewrite lookup_insert_eq |].
  apply (lookup_link_bad_src _ (fmt3 i ip metric)).
  - by rewrite lookup_insert_eq.
  - apply fmt3_truthy.
  - apply fmt3_colons.
Qed.
End label_facts.

Lemma lookup_link_ipv4_source_witness :
  lookup_link config_with_interface link_ip_only
  = Ok (<["src_label" := VStr "Gi2:10.0.0.2:10"]> link_ip_only) /\
  lookup_link config_with_interface link_ip_to_ip
  = Ok (<["trgt_label" := VStr "Gi2:10.0.0.2:20"]>
          (<["src_label" := VStr "Gi2:10.0.0.2:10"]> link_ip_to_ip)).
Proof.
  split.
  - exact (proj1 (lookup_link_ipv4_source config_with_interface link_ip_only
                    "10.0.0.2" "10" eq_refl eq_refl eq_refl eq_refl)
             eq_refl).
  - exact (proj2 (lookup_link_ipv4_source config_with_interface link_ip_to_ip
                    "10.0.0.2" "10" eq_refl eq_refl eq_refl eq_refl)
             "10.0.0.2" "20" eq_refl eq_refl eq_refl).
Defined.

Lemma lookup_link_value_error_witness :
  lookup_link config_with_interface link_ipv6 = Raise ValueError.
Proof.
  apply (lookup_link_value_error config_with_interface link_ipv6
           "2001:db8::1:10"); [reflexivity | discriminate | ].
  vm_compute. discriminate.
Defined.

Lemma lookup_link_not_repeatable_witness :
  exists link1,
    lookup_link config_with_interface link_ip_only = Ok link1 /\
    link1 !! "src_label" = Some (VStr "Gi2:10.0.0.2:10") /\
    lookup_link config_with_interface link1 = Raise ValueError.
Proof.
  apply (lookup_link_not_repeatable config_with_interface link_ip_only
           "10.0.0.2" "10" "Gi2"); reflexivity.
Defined.
